(** * ollama-operator: the Model reconciler and its deployment/service stages

    A shallow embedding of [internal/controller/model_controller.go]
    (the [ModelReconciler]) and of the deployment and service helpers of
    package [model] that it calls.  The cluster is an explicit [World]
    threaded through every call: the objects held by the API server, the
    log of client calls, the recorded events, a script of injected client
    failures and the clock. *)

From stdpp Require Import gmap strings list fin_maps pretty.

Open Scope Z_scope.
Open Scope string_scope.

(** ** Machine integers

    [int32] fields are integers in the signed 32-bit range; [int] is Go's
    64-bit integer.  [int(x)] on an [int32] keeps the value, [int32(x)] on
    an [int] wraps around. *)

Definition is_int32 (z : Z) : Prop := -2147483648 ≤ z < 2147483648.

Definition int_of_int32 (z : Z) : Z := z.

Definition int32_of_int (z : Z) : Z :=
  (z + 2147483648) `mod` 4294967296 - 2147483648.

(** ** Errors

    Go's [error] values as the API machinery classifies them; [nil] is
    [None] of [option error]. *)

Inductive error :=
| ErrNotFound
| ErrAlreadyExists
| ErrOther (msg : string).

(** [errors.IsNotFound] *)
Definition IsNotFound (e : error) : bool :=
  match e with ErrNotFound => true | _ => false end.

(** [client.IgnoreNotFound]: [nil] for a not-found error, the error itself
    otherwise. *)
Definition IgnoreNotFound (err : option error) : option error :=
  match err with
  | Some e => if IsNotFound e then None else Some e
  | None => None
  end.

(** A Go result pair [(v, err)].  Every function modelled here returns the
    zero value next to a non-nil error, so [Ok v] stands for [(v, nil)] and
    [Err e] for [(zero, e)]. *)
Inductive res (A : Type) :=
| Ok (v : A)
| Err (e : error).
Arguments Ok {A} v.
Arguments Err {A} e.

(** ** Objects *)

(** [client.ObjectKey]: namespace and name. *)
Abbreviation ObjectKey := (string * string)%type.

Record OwnerReference := {
  ref_APIVersion : string;
  ref_Kind : string;
  ref_Name : string;
  ref_UID : string;
  ref_BlockOwnerDeletion : option bool
}.

Record TypeMeta := {
  APIVersion : string;
  Kind : string
}.

Record ObjectMeta := {
  Name : string;
  Namespace : string;
  UID : string;
  Labels : gmap string string;
  Annotations : gmap string string;
  OwnerReferences : list OwnerReference
}.

Definition key_of (meta : ObjectMeta) : ObjectKey := (Namespace meta, Name meta).

(** The Model resource.  Its declarations (package [api/v1]) are not among
    the sources at hand; each is modelled from what the spec's data model
    says and from the fields the reconciler uses. *)

(** Modelled from the spec: the condition type [ModelAvailable] of package
    [api/v1]; condition types are strings. *)
Definition ModelAvailable : string := "Available".

(** Modelled from the spec: the condition type [ModelProgressing] of package
    [api/v1]. *)
Definition ModelProgressing : string := "Progressing".

(** [corev1.ConditionStatus] *)
Inductive ConditionStatus := ConditionTrue | ConditionFalse | ConditionUnknown.

(** Modelled from the spec: [ModelStatusCondition] of package [api/v1]; a
    condition has its type, its state and the two timestamps. *)
Record ModelStatusCondition := {
  cond_Type : string;
  cond_Status : ConditionStatus;
  LastUpdateTime : Z;
  LastTransitionTime : Z
}.

(** Modelled from the spec: [ModelSpec] of package [api/v1]; the image, the
    optional replica count ([*int32]) and the storage parameters, which
    the reconciler only passes on. *)
Record ModelSpec := {
  Image : string;
  spec_Replicas : option Z;
  StorageClassName : option string;
  PersistentVolumeClaim : option string;
  PersistentVolume : option string
}.

(** Modelled from the spec: [ModelStatus] of package [api/v1]; the ordered
    condition list and the four last-observed replica counters ([int32]). *)
Record ModelStatus := {
  Conditions : list ModelStatusCondition;
  Replicas : Z;
  ReadyReplicas : Z;
  AvailableReplicas : Z;
  UnavailableReplicas : Z
}.

(** Modelled from the spec: [Model] of package [api/v1], a resource with its
    type and object metadata, its spec and its status. *)
Record Model := {
  m_type : TypeMeta;
  m_meta : ObjectMeta;
  m_Spec : ModelSpec;
  m_Status : ModelStatus
}.

(** Modelled from the spec: the container builders [NewOllamaPullerContainer]
    and [NewOllamaServerContainer] of package [model] are not among the
    sources; the spec leaves them as opaque builder calls, so a container is
    the call that built it. *)
Inductive Container :=
| NewOllamaPullerContainer (image namespace : string)
| NewOllamaServerContainer (readOnly : bool).

Record Volume := {
  vol_Name : string;
  vol_ClaimName : string;
  vol_ReadOnly : bool
}.

Record PodTemplateSpec := {
  tpl_Labels : gmap string string;
  InitContainers : list Container;
  Containers : list Container;
  Volumes : list Volume
}.

Record DeploymentSpec := {
  dep_Replicas : option Z;
  dep_MatchLabels : gmap string string;
  dep_Template : PodTemplateSpec
}.

Record DeploymentStatus := {
  dep_StatusReplicas : Z;
  dep_ReadyReplicas : Z;
  dep_AvailableReplicas : Z;
  dep_UnavailableReplicas : Z
}.

Record Deployment := {
  d_meta : ObjectMeta;
  d_Spec : DeploymentSpec;
  d_Status : DeploymentStatus
}.

Record ServicePort := {
  port_Name : string;
  port_Port : Z;
  port_TargetPort : Z
}.

Record ServiceSpec := {
  svc_Type : string;
  svc_Selector : gmap string string;
  svc_Ports : list ServicePort;
  ClusterIP : string
}.

Record Service := {
  s_meta : ObjectMeta;
  s_Spec : ServiceSpec
}.

(** The storage claim of the image store, with the storage parameters it is
    built from ([corev1.PersistentVolumeClaim], cut down to those). *)
Record PersistentVolumeClaimObj := {
  pvc_meta : ObjectMeta;
  pvc_StorageClassName : option string;
  pvc_Claim : option string;
  pvc_VolumeName : option string
}.

(** The stateful set of the image store, with its declared and its ready
    replicas ([appsv1.StatefulSet], cut down to those). *)
Record StatefulSet := {
  ss_meta : ObjectMeta;
  ss_Replicas : option Z;
  ss_ReadyReplicas : Z
}.

(** ** The world *)

Inductive ObjKind := KModel | KPersistentVolumeClaim | KStatefulSet | KDeployment | KService.

Inductive Verb := VGet | VCreate | VUpdate | VStatusUpdate.

(** One call on the resource store client. *)
Record Call := {
  call_verb : Verb;
  call_kind : ObjKind;
  call_key : ObjectKey
}.

(** One notification on the event sink, attached to the Model the recorder
    wraps. *)
Record Event := {
  ev_object : ObjectKey;
  ev_type : string;
  ev_reason : string;
  ev_message : string
}.

(** The cluster as the reconciler sees it.  [calls] and [events] grow at the
    head.  [faults] scripts the client: each call takes the next entry, and
    [Some msg] makes that call fail with the error [msg] and change nothing
    (a transport failure, a refused or conflicting write); an exhausted
    script lets every call through.  A call that is let through answers from
    the stored objects, so not-found always means absent. *)
Record World := {
  models : gmap ObjectKey Model;
  pvcs : gmap ObjectKey PersistentVolumeClaimObj;
  statefulsets : gmap ObjectKey StatefulSet;
  deployments : gmap ObjectKey Deployment;
  services : gmap ObjectKey Service;
  calls : list Call;
  events : list Event;
  faults : list (option string);
  clock : Z
}.

Definition set_models (x : gmap ObjectKey Model) (w : World) : World :=
  {| models := x; pvcs := pvcs w; statefulsets := statefulsets w;
     deployments := deployments w; services := services w; calls := calls w;
     events := events w; faults := faults w; clock := clock w |}.

Definition set_pvcs (x : gmap ObjectKey PersistentVolumeClaimObj) (w : World) : World :=
  {| models := models w; pvcs := x; statefulsets := statefulsets w;
     deployments := deployments w; services := services w; calls := calls w;
     events := events w; faults := faults w; clock := clock w |}.

Definition set_statefulsets (x : gmap ObjectKey StatefulSet) (w : World) : World :=
  {| models := models w; pvcs := pvcs w; statefulsets := x;
     deployments := deployments w; services := services w; calls := calls w;
     events := events w; faults := faults w; clock := clock w |}.

Definition set_deployments (x : gmap ObjectKey Deployment) (w : World) : World :=
  {| models := models w; pvcs := pvcs w; statefulsets := statefulsets w;
     deployments := x; services := services w; calls := calls w;
     events := events w; faults := faults w; clock := clock w |}.

Definition set_services (x : gmap ObjectKey Service) (w : World) : World :=
  {| models := models w; pvcs := pvcs w; statefulsets := statefulsets w;
     deployments := deployments w; services := x; calls := calls w;
     events := events w; faults := faults w; clock := clock w |}.

Definition set_calls (x : list Call) (w : World) : World :=
  {| models := models w; pvcs := pvcs w; statefulsets := statefulsets w;
     deployments := deployments w; services := services w; calls := x;
     events := events w; faults := faults w; clock := clock w |}.

Definition set_events (x : list Event) (w : World) : World :=
  {| models := models w; pvcs := pvcs w; statefulsets := statefulsets w;
     deployments := deployments w; services := services w; calls := calls w;
     events := x; faults := faults w; clock := clock w |}.

Definition set_faults (x : list (option string)) (w : World) : World :=
  {| models := models w; pvcs := pvcs w; statefulsets := statefulsets w;
     deployments := deployments w; services := services w; calls := calls w;
     events := events w; faults := x; clock := clock w |}.

(** ** The state monad of a pass *)

Definition M (A : Type) : Type := World → A * World.

Definition ret {A} (a : A) : M A := λ w, (a, w).

Definition bind {A B} (c : M A) (k : A → M B) : M B :=
  λ w, match c w with (a, w') => k a w' end.

Notation "'let*' x ':=' c 'in' k" := (bind c (λ x, k))
  (at level 10, x name, c at level 200, k at level 200, only parsing).

(** [v, err := f(...); if err != nil { return zero, err }] *)
Definition bind_ok {A B} (c : M (res A)) (k : A → M (res B)) : M (res B) :=
  let* r := c in
  match r with
  | Ok v => k v
  | Err e => ret (Err e)
  end.

Notation "'try*' x ':=' c 'in' k" := (bind_ok c (λ x, k))
  (at level 10, x name, c at level 200, k at level 200, only parsing).

(** ** The resource store client and the event sink

    The client is controller-runtime's [client.Client], an external
    collaborator: namespaced get, create, update and status update, with a
    not-found signal that differs from other errors.  Every call is logged
    and takes the next entry of the fault script. *)

(** The failure the fault script has for the next call, if any. *)
Definition next_fault (w : World) : option error :=
  match faults w with
  | Some msg :: _ => Some (ErrOther msg)
  | _ => None
  end.

Definition call (v : Verb) (k : ObjKind) (key : ObjectKey) : Call :=
  {| call_verb := v; call_kind := k; call_key := key |}.

(** The world after a call went out: the call is in the log and its entry
    of the fault script is used up. *)
Definition logged (c : Call) (w : World) : World :=
  set_faults (tail (faults w)) (set_calls (c :: calls w) w).

Definition api_call (v : Verb) (k : ObjKind) (key : ObjectKey) : M (option error) :=
  λ w, (next_fault w, logged (call v k key) w).

(** [c.Get(ctx, key, &obj)]: the stored object, or a not-found error. *)
Definition client_Get {A} (k : ObjKind) (objs : World → gmap ObjectKey A)
    (key : ObjectKey) : M (res A) :=
  let* f := api_call VGet k key in
  match f with
  | Some e => ret (Err e)
  | None => λ w,
      match objs w !! key with
      | Some o => (Ok o, w)
      | None => (Err ErrNotFound, w)
      end
  end.

(** [c.Create(ctx, obj)]: stores the object under its own namespaced name;
    fails when that name is taken. *)
Definition client_Create {A} (k : ObjKind) (objs : World → gmap ObjectKey A)
    (put : gmap ObjectKey A → World → World) (meta : A → ObjectMeta)
    (o : A) : M (option error) :=
  let* f := api_call VCreate k (key_of (meta o)) in
  match f with
  | Some e => ret (Some e)
  | None => λ w,
      match objs w !! key_of (meta o) with
      | Some _ => (Some ErrAlreadyExists, w)
      | None => (None, put (<[key_of (meta o) := o]> (objs w)) w)
      end
  end.

(** [c.Update(ctx, deployment)]: replaces metadata and spec of the stored
    deployment; its status is a sub-resource and stays as stored. *)
Definition client_Update_Deployment (d : Deployment) : M (option error) :=
  let* f := api_call VUpdate KDeployment (key_of (d_meta d)) in
  match f with
  | Some e => ret (Some e)
  | None => λ w,
      match deployments w !! key_of (d_meta d) with
      | None => (Some ErrNotFound, w)
      | Some old =>
          (None,
           set_deployments
             (<[key_of (d_meta d) :=
                  {| d_meta := d_meta d; d_Spec := d_Spec d; d_Status := d_Status old |}]>
                (deployments w)) w)
      end
  end.

(** [r.Status().Update(ctx, &model)]: replaces the status of the stored
    Model and nothing else; not-found when the Model is gone. *)
Definition client_Status_Update (m : Model) : M (option error) :=
  let* f := api_call VStatusUpdate KModel (key_of (m_meta m)) in
  match f with
  | Some e => ret (Some e)
  | None => λ w,
      match models w !! key_of (m_meta m) with
      | None => (Some ErrNotFound, w)
      | Some old =>
          (None,
           set_models
             (<[key_of (m_meta m) :=
                  {| m_type := m_type old; m_meta := m_meta old;
                     m_Spec := m_Spec old; m_Status := m_Status m |}]>
                (models w)) w)
      end
  end.

(** [metav1.Now()] *)
Definition Now : M Z := λ w, (clock w, w).

(** Modelled from the spec: [WrappedRecorder] of package [model] is not among
    the sources; it is the event sink bound to the owning resource, so it
    remembers the Model its events are attached to. *)
Record WrappedRecorder := { rec_object : ObjectKey }.

(** Modelled from the spec: [model.NewWrappedRecorder(r.Recorder, &m)]. *)
Definition NewWrappedRecorder (m : Model) : WrappedRecorder :=
  {| rec_object := key_of (m_meta m) |}.

(** Modelled from the spec: [modelRecorder.Eventf(eventtype, reason, format,
    args...)], with the message already formatted.  The sink is fire and
    forget: the notification is recorded and the call never fails. *)
Definition Eventf (r : WrappedRecorder) (eventtype reason message : string) : M unit :=
  λ w,
    (tt,
     set_events
       ({| ev_object := rec_object r; ev_type := eventtype;
           ev_reason := reason; ev_message := message |} :: events w) w).

(** ** Status tracker (model_controller.go, lines 178-273) *)

(** [len(lo.Filter(conditions, func(item) bool { return item.Type == ty })) > 0],
    the test shared by [IsProgressing], [SetProgressing], [IsAvailable] and
    [SetAvailable]. *)
Definition has_condition (ty : string) (conditions : list ModelStatusCondition) : bool :=
  bool_decide (0 < length (filter (λ item, cond_Type item = ty) conditions))%nat.

Definition set_Conditions (cs : list ModelStatusCondition) (m : Model) : Model :=
  {| m_type := m_type m; m_meta := m_meta m; m_Spec := m_Spec m;
     m_Status :=
       {| Conditions := cs;
          Replicas := Replicas (m_Status m);
          ReadyReplicas := ReadyReplicas (m_Status m);
          AvailableReplicas := AvailableReplicas (m_Status m);
          UnavailableReplicas := UnavailableReplicas (m_Status m) |} |}.

Definition set_Counters (replicas readyReplicas availableReplicas unavailableReplicas : Z)
    (m : Model) : Model :=
  {| m_type := m_type m; m_meta := m_meta m; m_Spec := m_Spec m;
     m_Status :=
       {| Conditions := Conditions (m_Status m);
          Replicas := replicas;
          ReadyReplicas := readyReplicas;
          AvailableReplicas := availableReplicas;
          UnavailableReplicas := unavailableReplicas |} |}.

Definition IsProgressing (ollamaModelResource : Model) : bool :=
  has_condition ModelProgressing (Conditions (m_Status ollamaModelResource)).

(** The Model is passed by value: the assignment to its condition list
    changes the callee's copy, which is then written to the store. *)
Definition SetProgressing (ollamaModelResource : Model) : M (res bool) :=
  let hasProgressing :=
    has_condition ModelProgressing (Conditions (m_Status ollamaModelResource)) in
  if hasProgressing then ret (Ok false)
  else
    let* lastUpdate := Now in
    let* lastTransition := Now in
    let ollamaModelResource :=
      set_Conditions
        [ {| cond_Type := ModelProgressing; cond_Status := ConditionTrue;
             LastUpdateTime := lastUpdate; LastTransitionTime := lastTransition |} ]
        ollamaModelResource in
    let* err := client_Status_Update ollamaModelResource in
    match err with
    | Some e => ret (Err e)
    | None => ret (Ok true)
    end.

Definition IsAvailable (ollamaModelResource : Model) : bool :=
  has_condition ModelAvailable (Conditions (m_Status ollamaModelResource)).

Definition SetAvailable (ollamaModelResource : Model) : M (res bool) :=
  let hasAvailable :=
    has_condition ModelAvailable (Conditions (m_Status ollamaModelResource)) in
  if hasAvailable then ret (Ok false)
  else
    let* lastUpdate := Now in
    let* lastTransition := Now in
    let ollamaModelResource :=
      set_Conditions
        [ {| cond_Type := ModelAvailable; cond_Status := ConditionTrue;
             LastUpdateTime := lastUpdate; LastTransitionTime := lastTransition |} ]
        ollamaModelResource in
    let* err := client_Status_Update ollamaModelResource in
    match err with
    | Some e => ret (Err e)
    | None => ret (Ok true)
    end.

Definition ShouldSetReplicas (ollamaModelResource : Model)
    (replicas readyReplicas availableReplicas unavailableReplicas : Z) : bool :=
  bool_decide (Replicas (m_Status ollamaModelResource) ≠ replicas)
  || bool_decide (ReadyReplicas (m_Status ollamaModelResource) ≠ readyReplicas)
  || bool_decide (AvailableReplicas (m_Status ollamaModelResource) ≠ availableReplicas)
  || bool_decide (UnavailableReplicas (m_Status ollamaModelResource) ≠ unavailableReplicas).

Definition SetReplicas (ollamaModelResource : Model)
    (replicas readyReplicas availableReplicas unavailableReplicas : Z) : M (res bool) :=
  let ollamaModelResource :=
    set_Counters replicas readyReplicas availableReplicas unavailableReplicas
      ollamaModelResource in
  let* err := client_Status_Update ollamaModelResource in
  match err with
  | Some e => ret (Err e)
  | None => ret (Ok true)
  end.

(** ** Deployment and service stages (package [model], lines 293-557) *)

Definition ModelAppName (name : string) : string := "ollama-model-" +:+ name.

(** Modelled from the spec: the constant [imageStorePVCName] is declared in
    the image-store file of package [model], which is not among the sources;
    the claim has one fixed name per namespace. *)
Definition imageStorePVCName : string := "ollama-models-store-pvc".

(** Modelled from the spec: the name of the stateful set of the image store
    and of its service, fixed per namespace like the claim's. *)
Definition ImageStoreStatefulSetName : string := "ollama-models-store".

Definition getDeployment (namespace name : string) : M (res (option Deployment)) :=
  let* r := client_Get KDeployment deployments (namespace, ModelAppName name) in
  match r with
  | Err e => if IsNotFound e then ret (Ok None) else ret (Err e)
  | Ok deployment => ret (Ok (Some deployment))
  end.

Definition EnsureDeploymentCreated (namespace name image : string) (replicas : option Z)
    (model : Model) (modelRecorder : WrappedRecorder) : M (res Deployment) :=
  try* found := getDeployment namespace name in
  match found with
  | Some deployment => ret (Ok deployment)
  | None =>
      let deployment :=
        {| d_meta :=
             {| Name := ModelAppName name;
                Namespace := namespace;
                UID := "";
                Labels := ∅;
                Annotations := ∅;
                OwnerReferences :=
                  [ {| ref_APIVersion := APIVersion (m_type model);
                       ref_Kind := Kind (m_type model);
                       ref_Name := Name (m_meta model);
                       ref_UID := UID (m_meta model);
                       ref_BlockOwnerDeletion := Some true |} ] |};
           d_Spec :=
             {| dep_Replicas :=
                  match replicas with None => Some 1 | Some _ => replicas end;
                dep_MatchLabels := {[ "app" := ModelAppName name ]};
                dep_Template :=
                  {| tpl_Labels := {[ "app" := ModelAppName name ]};
                     InitContainers := [ NewOllamaPullerContainer image namespace ];
                     Containers := [ NewOllamaServerContainer true ];
                     Volumes :=
                       [ {| vol_Name := "image-storage";
                            vol_ClaimName := imageStorePVCName;
                            vol_ReadOnly := true |} ] |} |};
           d_Status :=
             {| dep_StatusReplicas := 0; dep_ReadyReplicas := 0;
                dep_AvailableReplicas := 0; dep_UnavailableReplicas := 0 |} |} in
      let* err := client_Create KDeployment deployments set_deployments d_meta deployment in
      match err with
      | Some e => ret (Err e)
      | None =>
          let* _ := Eventf modelRecorder "Normal" "DeploymentCreated"
                      ("Deployment " +:+ Name (d_meta deployment) +:+ " created") in
          ret (Ok deployment)
      end
  end.

(** The two [log.Info] lines write to the process log only and are left out. *)
Definition IsDeploymentReady (namespace name : string)
    (modelRecorder : WrappedRecorder) : M (res bool) :=
  try* found := getDeployment namespace name in
  match found with
  | None => ret (Ok false)
  | Some deployment =>
      let replica :=
        match dep_Replicas (d_Spec deployment) with
        | Some r => int_of_int32 r
        | None => 1
        end in
      if bool_decide (dep_ReadyReplicas (d_Status deployment) = int32_of_int replica)
      then ret (Ok true)
      else
        let* _ := Eventf modelRecorder "Normal" "WaitingForDeployment"
                    ("Waiting for deployment " +:+ Name (d_meta deployment)
                     +:+ " to become ready") in
        ret (Ok false)
  end.

Definition set_dep_Replicas (r : option Z) (d : Deployment) : Deployment :=
  {| d_meta := d_meta d;
     d_Spec :=
       {| dep_Replicas := r;
          dep_MatchLabels := dep_MatchLabels (d_Spec d);
          dep_Template := dep_Template (d_Spec d) |};
     d_Status := d_Status d |}.

Definition UpdateDeployment (model : Model)
    (modelRecorder : WrappedRecorder) : M (res bool) :=
  try* found := getDeployment (Namespace (m_meta model)) (Name (m_meta model)) in
  match found with
  | None => ret (Ok false)
  | Some deployment =>
      let replicas :=
        match spec_Replicas (m_Spec model) with
        | Some r => int_of_int32 r
        | None => 1
        end in
      (* lines 451-458, reached from both branches of the test on
         [deployment.Spec.Replicas] *)
      let update (deployment : Deployment) : M (res bool) :=
        let* err := client_Update_Deployment deployment in
        match err with
        | Some e => ret (Err e)
        | None =>
            let* _ := Eventf modelRecorder "Normal" "ModelScaled"
                        ("Model scaled from "
                         +:+ pretty (dep_StatusReplicas (d_Status deployment))
                         +:+ " to " +:+ pretty replicas) in
            ret (Ok true)
        end in
      match dep_Replicas (d_Spec deployment) with
      | Some r =>
          if bool_decide (int_of_int32 r = replicas) then ret (Ok false)
          else update (set_dep_Replicas (Some (int32_of_int replicas)) deployment)
      | None => update (set_dep_Replicas (Some (int32_of_int replicas)) deployment)
      end
  end.

Definition getService (namespace name : string) : M (res (option Service)) :=
  let* r := client_Get KService services (namespace, ModelAppName name) in
  match r with
  | Err e => if IsNotFound e then ret (Ok None) else ret (Err e)
  | Ok service => ret (Ok (Some service))
  end.

Definition EnsureServiceCreated (namespace name : string) (deployment : Deployment)
    (modelRecorder : WrappedRecorder) : M (res Service) :=
  try* found := getService namespace name in
  match found with
  | Some service => ret (Ok service)
  | None =>
      let service :=
        {| s_meta :=
             {| Name := ModelAppName name;
                Namespace := namespace;
                UID := "";
                Labels := ∅;
                Annotations := ∅;
                OwnerReferences :=
                  [ {| ref_APIVersion := "apps/v1";
                       ref_Kind := "Deployment";
                       ref_Name := Name (d_meta deployment);
                       ref_UID := UID (d_meta deployment);
                       ref_BlockOwnerDeletion := Some true |} ] |};
           s_Spec :=
             {| svc_Type := "ClusterIP";
                svc_Selector := {[ "app" := ModelAppName name ]};
                svc_Ports :=
                  [ {| port_Name := "ollama"; port_Port := 11434;
                       port_TargetPort := 11434 |} ];
                ClusterIP := "" |} |} in
      let* err := client_Create KService services set_services s_meta service in
      match err with
      | Some e => ret (Err e)
      | None =>
          let* _ := Eventf modelRecorder "Normal" "ServiceCreated"
                      ("Service " +:+ Name (s_meta service) +:+ " created") in
          ret (Ok service)
      end
  end.

Definition IsServiceReady (namespace name : string)
    (modelRecorder : WrappedRecorder) : M (res bool) :=
  try* found := getService namespace name in
  match found with
  | None => ret (Ok false)
  | Some service =>
      if bool_decide (ClusterIP (s_Spec service) = "")
      then
        let* _ := Eventf modelRecorder "Normal" "WaitingForService"
                    ("Waiting for service " +:+ Name (s_meta service)
                     +:+ " to have cluster IP") in
        ret (Ok false)
      else ret (Ok true)
  end.

(** ** Image-store stages

    [EnsureImageStorePVCCreated], [EnsureImageStoreStatefulSetCreated],
    [IsImageStoreStatefulSetReady], [EnsureImageStoreServiceCreated] and
    [IsImageStoreServiceReady] are in a file of package [model] that is not
    among the sources.  Each is modelled from the contract the spec gives
    every stage executor, in the shape the deployment and service stages
    above have. *)

(** Modelled from the spec: [EnsureImageStorePVCCreated] reads the storage
    claim by its name, creates it from the storage parameters when absent
    (with a creation notification) and never changes an existing one. *)
Definition EnsureImageStorePVCCreated (namespace : string)
    (storageClassName pvcSource pvSource : option string)
    (modelRecorder : WrappedRecorder) : M (res PersistentVolumeClaimObj) :=
  let* r := client_Get KPersistentVolumeClaim pvcs (namespace, imageStorePVCName) in
  match r with
  | Ok pvc => ret (Ok pvc)
  | Err e =>
      if IsNotFound e then
        let pvc :=
          {| pvc_meta :=
               {| Name := imageStorePVCName; Namespace := namespace; UID := "";
                  Labels := ∅; Annotations := ∅; OwnerReferences := [] |};
             pvc_StorageClassName := storageClassName;
             pvc_Claim := pvcSource;
             pvc_VolumeName := pvSource |} in
        let* err := client_Create KPersistentVolumeClaim pvcs set_pvcs pvc_meta pvc in
        match err with
        | Some e => ret (Err e)
        | None =>
            let* _ := Eventf modelRecorder "Normal" "PersistentVolumeClaimCreated"
                        ("PersistentVolumeClaim " +:+ imageStorePVCName +:+ " created") in
            ret (Ok pvc)
        end
      else ret (Err e)
  end.

(** Modelled from the spec: [EnsureImageStoreStatefulSetCreated] reads the
    stateful set by its name, creates it when absent (with a creation
    notification) and returns an existing one unchanged. *)
Definition EnsureImageStoreStatefulSetCreated (namespace : string)
    (modelRecorder : WrappedRecorder) : M (res StatefulSet) :=
  let* r := client_Get KStatefulSet statefulsets (namespace, ImageStoreStatefulSetName) in
  match r with
  | Ok statefulSet => ret (Ok statefulSet)
  | Err e =>
      if IsNotFound e then
        let statefulSet :=
          {| ss_meta :=
               {| Name := ImageStoreStatefulSetName; Namespace := namespace; UID := "";
                  Labels := ∅; Annotations := ∅; OwnerReferences := [] |};
             ss_Replicas := Some 1;
             ss_ReadyReplicas := 0 |} in
        let* err := client_Create KStatefulSet statefulsets set_statefulsets ss_meta
                      statefulSet in
        match err with
        | Some e => ret (Err e)
        | None =>
            let* _ := Eventf modelRecorder "Normal" "StatefulSetCreated"
                        ("StatefulSet " +:+ ImageStoreStatefulSetName +:+ " created") in
            ret (Ok statefulSet)
        end
      else ret (Err e)
  end.

(** Modelled from the spec: [IsImageStoreStatefulSetReady] reports absence as
    not ready, and a stateful set ready when its observed ready replicas
    equal its declared replicas. *)
Definition IsImageStoreStatefulSetReady (namespace : string)
    (modelRecorder : WrappedRecorder) : M (res bool) :=
  let* r := client_Get KStatefulSet statefulsets (namespace, ImageStoreStatefulSetName) in
  match r with
  | Err e => if IsNotFound e then ret (Ok false) else ret (Err e)
  | Ok statefulSet =>
      let replica :=
        match ss_Replicas statefulSet with
        | Some r => int_of_int32 r
        | None => 1
        end in
      if bool_decide (ss_ReadyReplicas statefulSet = int32_of_int replica)
      then ret (Ok true)
      else
        let* _ := Eventf modelRecorder "Normal" "WaitingForStatefulSet"
                    ("Waiting for stateful set " +:+ ImageStoreStatefulSetName
                     +:+ " to become ready") in
        ret (Ok false)
  end.

(** Modelled from the spec: [EnsureImageStoreServiceCreated] reads the
    service by its name, creates it when absent, owned by the stateful set it
    fronts (with a creation notification), and returns an existing one
    unchanged. *)
Definition EnsureImageStoreServiceCreated (namespace : string) (statefulSet : StatefulSet)
    (modelRecorder : WrappedRecorder) : M (res Service) :=
  let* r := client_Get KService services (namespace, ImageStoreStatefulSetName) in
  match r with
  | Ok service => ret (Ok service)
  | Err e =>
      if IsNotFound e then
        let service :=
          {| s_meta :=
               {| Name := ImageStoreStatefulSetName; Namespace := namespace; UID := "";
                  Labels := ∅; Annotations := ∅;
                  OwnerReferences :=
                    [ {| ref_APIVersion := "apps/v1";
                         ref_Kind := "StatefulSet";
                         ref_Name := Name (ss_meta statefulSet);
                         ref_UID := UID (ss_meta statefulSet);
                         ref_BlockOwnerDeletion := Some true |} ] |};
             s_Spec :=
               {| svc_Type := "ClusterIP";
                  svc_Selector := {[ "app" := ImageStoreStatefulSetName ]};
                  svc_Ports :=
                    [ {| port_Name := "ollama"; port_Port := 11434;
                         port_TargetPort := 11434 |} ];
                  ClusterIP := "" |} |} in
        let* err := client_Create KService services set_services s_meta service in
        match err with
        | Some e => ret (Err e)
        | None =>
            let* _ := Eventf modelRecorder "Normal" "ServiceCreated"
                        ("Service " +:+ ImageStoreStatefulSetName +:+ " created") in
            ret (Ok service)
        end
      else ret (Err e)
  end.

(** Modelled from the spec: [IsImageStoreServiceReady] reports absence as not
    ready, and a service ready when the platform has assigned it a cluster
    address. *)
Definition IsImageStoreServiceReady (namespace : string)
    (modelRecorder : WrappedRecorder) : M (res bool) :=
  let* r := client_Get KService services (namespace, ImageStoreStatefulSetName) in
  match r with
  | Err e => if IsNotFound e then ret (Ok false) else ret (Err e)
  | Ok service =>
      if bool_decide (ClusterIP (s_Spec service) = "")
      then
        let* _ := Eventf modelRecorder "Normal" "WaitingForService"
                    ("Waiting for service " +:+ ImageStoreStatefulSetName
                     +:+ " to have cluster IP") in
        ret (Ok false)
      else ret (Ok true)
  end.

(** ** The reconcile pass (model_controller.go, lines 61-169)

    [Reconcile] is one function in the source.  Here it is cut at the points
    where the pass can be seen from outside, each piece running the source
    lines named above it and then the piece that follows. *)

(** [reconcile.Result]; the delay is a [time.Duration] in nanoseconds. *)
Record Result := {
  Requeue : bool;
  RequeueAfter : Z
}.

Definition Second : Z := 1000000000.

Definition Result_zero : Result := {| Requeue := false; RequeueAfter := 0 |}.

Definition requeue_after (d : Z) : Result := {| Requeue := true; RequeueAfter := d |}.

(** [ctrl.Request] *)
Record Request := {
  req_Namespace : string;
  req_Name : string
}.

Definition NamespacedName (req : Request) : ObjectKey := (req_Namespace req, req_Name req).

(** Lines 161-168: mark the Model available and say so. *)
Definition Reconcile_available (m : Model) (modelRecorder : WrappedRecorder) : M (res Result) :=
  try* _ := SetAvailable m in
  let* _ := Eventf modelRecorder "Normal" "ModelAvailable" "Model is available" in
  ret (Ok Result_zero).

(** Lines 151-159: refresh the replica counters of the status. *)
Definition Reconcile_counters (m : Model) (modelRecorder : WrappedRecorder)
    (deployment : Deployment) : M (res Result) :=
  if ShouldSetReplicas m
       (dep_StatusReplicas (d_Status deployment))
       (dep_ReadyReplicas (d_Status deployment))
       (dep_AvailableReplicas (d_Status deployment))
       (dep_UnavailableReplicas (d_Status deployment))
  then
    try* hasSet := SetReplicas m
                     (dep_StatusReplicas (d_Status deployment))
                     (dep_ReadyReplicas (d_Status deployment))
                     (dep_AvailableReplicas (d_Status deployment))
                     (dep_UnavailableReplicas (d_Status deployment)) in
    if hasSet then ret (Ok (requeue_after (Second * 5)))
    else Reconcile_available m modelRecorder
  else Reconcile_available m modelRecorder.

(** Lines 138-149: the service in front of the deployment. *)
Definition Reconcile_service (req : Request) (m : Model) (modelRecorder : WrappedRecorder)
    (deployment : Deployment) : M (res Result) :=
  try* _ := EnsureServiceCreated (req_Namespace req) (req_Name req) deployment
              modelRecorder in
  try* modelServiceReady := IsServiceReady (req_Namespace req) (req_Name req)
                              modelRecorder in
  if negb modelServiceReady then ret (Ok (requeue_after (Second * 5)))
  else Reconcile_counters m modelRecorder deployment.

(** Lines 117-136: the deployment, its drift correction and its readiness. *)
Definition Reconcile_deployment (req : Request) (m : Model)
    (modelRecorder : WrappedRecorder) : M (res Result) :=
  try* deployment := EnsureDeploymentCreated (req_Namespace req) (req_Name req)
                       (Image (m_Spec m)) (spec_Replicas (m_Spec m)) m modelRecorder in
  try* modelDeploymentUpdated := UpdateDeployment m modelRecorder in
  if modelDeploymentUpdated then ret (Ok (requeue_after (Second * 5)))
  else
    try* modelDeploymentReady := IsDeploymentReady (req_Namespace req) (req_Name req)
                                   modelRecorder in
    if negb modelDeploymentReady then ret (Ok (requeue_after (Second * 5)))
    else Reconcile_service req m modelRecorder deployment.

(** Lines 104-115: the service of the image store. *)
Definition Reconcile_storeService (req : Request) (m : Model)
    (modelRecorder : WrappedRecorder) (statefulSet : StatefulSet) : M (res Result) :=
  try* _ := EnsureImageStoreServiceCreated (req_Namespace req) statefulSet
              modelRecorder in
  try* serviceReady := IsImageStoreServiceReady (req_Namespace req) modelRecorder in
  if negb serviceReady then ret (Ok (requeue_after (Second * 5)))
  else Reconcile_deployment req m modelRecorder.

(** Lines 96-102: wait for the stateful set of the image store. *)
Definition Reconcile_storeReady (req : Request) (m : Model)
    (modelRecorder : WrappedRecorder) (statefulSet : StatefulSet) : M (res Result) :=
  try* statefulSetReady := IsImageStoreStatefulSetReady (req_Namespace req)
                             modelRecorder in
  if negb statefulSetReady then ret (Ok (requeue_after (Second * 5)))
  else Reconcile_storeService req m modelRecorder statefulSet.

(** Lines 82-94: the storage claim and the stateful set of the image store. *)
Definition Reconcile_store (req : Request) (m : Model)
    (modelRecorder : WrappedRecorder) : M (res Result) :=
  let modelStorageClass := StorageClassName (m_Spec m) in
  let modelPVC := PersistentVolumeClaim (m_Spec m) in
  let modelPV := PersistentVolume (m_Spec m) in
  try* _ := EnsureImageStorePVCCreated (req_Namespace req) modelStorageClass modelPVC
              modelPV modelRecorder in
  try* statefulSet := EnsureImageStoreStatefulSetCreated (req_Namespace req)
                        modelRecorder in
  Reconcile_storeReady req m modelRecorder statefulSet.

(** Lines 69-80: everything after the fetch, starting with the progressing
    gate.  [m] is the copy the fetch filled in. *)
Definition Reconcile_fetched (req : Request) (m : Model) : M (res Result) :=
  let modelRecorder := NewWrappedRecorder m in
  if negb (IsAvailable m) then
    try* hasSet := SetProgressing m in
    if hasSet then
      let* _ := Eventf modelRecorder "Normal" "ModelProgressing" "Model is progressing" in
      ret (Ok (requeue_after (Second * 1)))
    else Reconcile_store req m modelRecorder
  else Reconcile_store req m modelRecorder.

(** Lines 61-67: fetch the Model; not-found is a success. *)
Definition Reconcile (req : Request) : M (res Result) :=
  let* r := client_Get KModel models (NamespacedName req) in
  match r with
  | Err e =>
      match IgnoreNotFound (Some e) with
      | Some e' => ret (Err e')
      | None => ret (Ok Result_zero)
      end
  | Ok m => Reconcile_fetched req m
  end.

(** * Vocabulary of the statements *)

(** The client call a status write of [m] is logged as. *)
Definition status_write (m : Model) : Call :=
  call VStatusUpdate KModel (key_of (m_meta m)).

(** The condition list of the Model stored under [key], if there is one. *)
Definition model_conditions (key : ObjectKey) (w : World)
    : option (list ModelStatusCondition) :=
  (λ m, Conditions (m_Status m)) <$> models w !! key.

(** The condition the setters build: type [ty], true, both timestamps [t]. *)
Definition condition_at (ty : string) (t : Z) : ModelStatusCondition :=
  {| cond_Type := ty; cond_Status := ConditionTrue;
     LastUpdateTime := t; LastTransitionTime := t |}.

(** The stored Model [old] after a status write that carried [s]. *)
Definition with_status (s : ModelStatus) (old : Model) : Model :=
  {| m_type := m_type old; m_meta := m_meta old; m_Spec := m_Spec old; m_Status := s |}.

(** The shape [SetProgressing] and [SetAvailable] share (see
    [SetProgressing_unfold] and [SetAvailable_unfold]). *)
Definition set_condition (ty : string) (m : Model) : M (res bool) :=
  if has_condition ty (Conditions (m_Status m)) then ret (Ok false)
  else λ w,
    match client_Status_Update (set_Conditions [condition_at ty (clock w)] m) w with
    | (Some e, w') => (Err e, w')
    | (None, w') => (Ok true, w')
    end.

(** The replica count a workload declares: 1 when the field is unset. *)
Definition declared_replicas (r : option Z) : Z :=
  match r with
  | Some r => r
  | None => 1
  end.

#[global] Instance ObjKind_eq_dec : EqDecision ObjKind.
Proof. solve_decision. Defined.

#[global] Instance Verb_eq_dec : EqDecision Verb.
Proof. solve_decision. Defined.

(** The logged calls on one kind of object. *)
Definition calls_of (k : ObjKind) (w : World) : list Call :=
  filter (λ c, call_kind c = k) (calls w).

(** The availability notifications among the events. *)
Definition avail_events (w : World) : list Event :=
  filter (λ e, ev_reason e = "ModelAvailable") (events w).

(** [touches ks w w']: from [w] to [w'] only objects of the kinds [ks] were
    read or written, and no availability notification was sent. *)
Record touches (ks : list ObjKind) (w w' : World) : Prop := {
  t_models : KModel ∉ ks → models w' = models w;
  t_pvcs : KPersistentVolumeClaim ∉ ks → pvcs w' = pvcs w;
  t_statefulsets : KStatefulSet ∉ ks → statefulsets w' = statefulsets w;
  t_deployments : KDeployment ∉ ks → deployments w' = deployments w;
  t_services : KService ∉ ks → services w' = services w;
  t_calls : ∀ k, k ∉ ks → calls_of k w' = calls_of k w;
  t_events : avail_events w' = avail_events w;
  t_clock : clock w' = clock w;
  t_faults : faults w = [] → faults w' = []
}.

(** A computation that, from any world, touches the kinds [ks] only. *)
Definition keeps (ks : list ObjKind) {A} (c : M A) : Prop :=
  ∀ w, touches ks w (c w).2.

(** What one successful [ensureCreated] did, seen from outside: it found the
    resource and changed nothing, or the resource was absent and it issued
    one create call and one creation notification. *)
Inductive ensured {A} (objs : World → gmap ObjectKey A) (k : ObjKind) (key : ObjectKey)
    (ev : Event) (w w' : World) (o : A) : Prop :=
| ensured_found :
    objs w !! key = Some o →
    objs w' = objs w →
    calls w' = call VGet k key :: calls w →
    events w' = events w →
    ensured objs k key ev w w' o
| ensured_created :
    objs w !! key = None →
    objs w' = <[key := o]> (objs w) →
    calls w' = call VCreate k key :: call VGet k key :: calls w →
    events w' = ev :: events w →
    ensured objs k key ev w w' o.

(** The creation notifications of the deployment and service stages. *)
Definition DeploymentCreated (rec : WrappedRecorder) (name : string) : Event :=
  {| ev_object := rec_object rec; ev_type := "Normal"; ev_reason := "DeploymentCreated";
     ev_message := "Deployment " +:+ ModelAppName name +:+ " created" |}.

Definition ServiceCreated (rec : WrappedRecorder) (name : string) : Event :=
  {| ev_object := rec_object rec; ev_type := "Normal"; ev_reason := "ServiceCreated";
     ev_message := "Service " +:+ ModelAppName name +:+ " created" |}.

(** Readiness of the image store as the objects in the store have it. *)
Definition statefulset_ready (ns : string) (w : World) : bool :=
  match statefulsets w !! (ns, ImageStoreStatefulSetName) with
  | Some ss =>
      bool_decide (ss_ReadyReplicas ss
                   = int32_of_int (match ss_Replicas ss with
                                   | Some r => int_of_int32 r
                                   | None => 1
                                   end))
  | None => false
  end.

Definition store_service_ready (ns : string) (w : World) : bool :=
  match services w !! (ns, ImageStoreStatefulSetName) with
  | Some s => negb (bool_decide (ClusterIP (s_Spec s) = ""))
  | None => false
  end.

(** A result that sends the pass back to the queue: an error (the scheduler
    retries) or a requeue. *)
Definition requeues (r : res Result) : Prop :=
  match r with
  | Ok r => Requeue r = true
  | Err _ => True
  end.

(** Every Model is stored under its own namespaced name, as the API server
    has it. *)
Definition wf_models (w : World) : Prop :=
  ∀ key m, models w !! key = Some m → key_of (m_meta m) = key.

(** The statuses one pass may write from the copy [m] it fetched: refreshed
    counters under the conditions of [m], or the counters of [m] under a
    condition list that holds the one condition being set. *)
Definition allowed_status (m : Model) (s : ModelStatus) : Prop :=
  Conditions s = Conditions (m_Status m)
  ∨ (has_condition ModelAvailable (Conditions (m_Status m)) = false
     ∧ has_condition ModelProgressing (Conditions (m_Status m)) = false
     ∧ ∃ t, Conditions s = [condition_at ModelProgressing t])
  ∨ (has_condition ModelAvailable (Conditions (m_Status m)) = false
     ∧ ∃ t, Conditions s = [condition_at ModelAvailable t]).

(** What a pass that fetched [m] does to the stored Models: nothing, or one
    status write on [m]'s own entry. *)
Inductive status_effect (m : Model) (w w' : World) : Prop :=
| effect_none :
    models w' = models w → status_effect m w w'
| effect_written old s :
    models w !! key_of (m_meta m) = Some old →
    models w' = <[key_of (m_meta m) := with_status s old]> (models w) →
    allowed_status m s →
    status_effect m w w'.

(** One pass seen on the condition list of the stored Model. *)
Definition cond_step (cs cs' : list ModelStatusCondition) : Prop :=
  cs' = cs
  ∨ (has_condition ModelAvailable cs = false
     ∧ has_condition ModelProgressing cs = false
     ∧ ∃ t, cs' = [condition_at ModelProgressing t])
  ∨ (has_condition ModelAvailable cs = false
     ∧ ∃ t, cs' = [condition_at ModelAvailable t]).

(** How many conditions of type [ty] a list holds. *)
Definition count_type (ty : string) (cs : list ModelStatusCondition) : nat :=
  length (filter (λ item, cond_Type item = ty) cs).

(** At most one condition of each type. *)
Definition at_most_once (cs : list ModelStatusCondition) : Prop :=
  ∀ ty, (count_type ty cs ≤ 1)%nat.

(** A history of one Model: reconcile passes for its key, and between them
    anything else in the cluster, as long as the Model stays stored under its
    name and nobody else rewrites its conditions. *)
Inductive step (req : Request) (w : World) : World → Prop :=
| step_pass : step req w (Reconcile req w).2
| step_other w' :
    wf_models w' →
    model_conditions (NamespacedName req) w' = model_conditions (NamespacedName req) w →
    step req w w'.

(** What any number of passes keeps true of the condition list. *)
Definition conditions_kept (cs cs' : list ModelStatusCondition) : Prop :=
  (has_condition ModelAvailable cs = true → cs' = cs)
  ∧ (has_condition ModelProgressing cs = true ∨ has_condition ModelAvailable cs = true →
     has_condition ModelProgressing cs' = true ∨ has_condition ModelAvailable cs' = true)
  ∧ (∀ ty, (count_type ty cs' ≤ 1 `max` count_type ty cs)%nat).

(** The replica count a Model declares. *)
Definition replicas_of (m : Model) : Z := declared_replicas (spec_Replicas (m_Spec m)).

(** The notification of [UpdateDeployment]. *)
Definition ModelScaled (rec : WrappedRecorder) (from to : Z) : Event :=
  {| ev_object := rec_object rec; ev_type := "Normal"; ev_reason := "ModelScaled";
     ev_message := "Model scaled from " +:+ pretty from +:+ " to " +:+ pretty to |}.

(** The name the deployment of a request's Model is stored under. *)
Definition deployment_key (req : Request) : ObjectKey :=
  (req_Namespace req, ModelAppName (req_Name req)).

(** ** A small cluster to run the definitions on *)

Definition ex_req : Request := {| req_Namespace := "default"; req_Name := "phi" |}.

Definition ex_meta (name : string) : ObjectMeta :=
  {| Name := name; Namespace := "default"; UID := ""; Labels := ∅; Annotations := ∅;
     OwnerReferences := [] |}.

(** A Model that asks for two replicas, with the given conditions and a
    status that has seen [seen] replicas. *)
Definition ex_model (conds : list ModelStatusCondition) (seen : Z) : Model :=
  {| m_type := {| APIVersion := "ollama.ayaka.io/v1"; Kind := "Model" |};
     m_meta := ex_meta "phi";
     m_Spec := {| Image := "phi"; spec_Replicas := Some 2; StorageClassName := None;
                  PersistentVolumeClaim := None; PersistentVolume := None |};
     m_Status := {| Conditions := conds; Replicas := seen; ReadyReplicas := seen;
                    AvailableReplicas := seen; UnavailableReplicas := 0 |} |}.

Definition ex_statefulset (ready : Z) : StatefulSet :=
  {| ss_meta := ex_meta ImageStoreStatefulSetName; ss_Replicas := Some 1;
     ss_ReadyReplicas := ready |}.

Definition ex_service (name ip : string) : Service :=
  {| s_meta := ex_meta name;
     s_Spec := {| svc_Type := "ClusterIP"; svc_Selector := ∅; svc_Ports := [];
                  ClusterIP := ip |} |}.

(** A deployment declared with [replicas] replicas, all of them ready. *)
Definition ex_deployment (replicas : Z) : Deployment :=
  {| d_meta := ex_meta (ModelAppName "phi");
     d_Spec := {| dep_Replicas := Some replicas; dep_MatchLabels := ∅;
                  dep_Template := {| tpl_Labels := ∅; InitContainers := [];
                                     Containers := []; Volumes := [] |} |};
     d_Status := {| dep_StatusReplicas := replicas; dep_ReadyReplicas := replicas;
                    dep_AvailableReplicas := replicas; dep_UnavailableReplicas := 0 |} |}.

(** The cluster once everything has been created: the Model [m], the image
    store with [ready] ready replicas and its service, the deployment with
    [replicas] replicas and its service. *)
Definition ex_world (m : Model) (ready replicas : Z) : World :=
  {| models := {[ ("default", "phi") := m ]};
     pvcs := ∅;
     statefulsets := {[ ("default", ImageStoreStatefulSetName) := ex_statefulset ready ]};
     deployments := {[ ("default", ModelAppName "phi") := ex_deployment replicas ]};
     services :=
       {[ ("default", ImageStoreStatefulSetName)
            := ex_service ImageStoreStatefulSetName "10.0.0.1";
          ("default", ModelAppName "phi") := ex_service (ModelAppName "phi") "10.0.0.2" ]};
     calls := []; events := []; faults := []; clock := 100 |}.

(** The cluster with nothing but a fresh Model in it. *)
Definition ex_fresh : World :=
  {| models := {[ ("default", "phi") := ex_model [] 0 ]};
     pvcs := ∅; statefulsets := ∅; deployments := ∅; services := ∅;
     calls := []; events := []; faults := []; clock := 100 |}.

(** What the platform does between two passes: it brings the image store
    up, assigns a service its cluster address, brings the deployment's
    replicas up. *)
Definition platform_statefulset_ready (key : ObjectKey) (w : World) : World :=
  set_statefulsets
    (alter (λ ss, {| ss_meta := ss_meta ss; ss_Replicas := ss_Replicas ss;
                     ss_ReadyReplicas := default 1 (ss_Replicas ss) |})
       key (statefulsets w)) w.

Definition platform_assign_address (key : ObjectKey) (ip : string) (w : World) : World :=
  set_services
    (alter (λ s, {| s_meta := s_meta s;
                    s_Spec := {| svc_Type := svc_Type (s_Spec s);
                                 svc_Selector := svc_Selector (s_Spec s);
                                 svc_Ports := svc_Ports (s_Spec s);
                                 ClusterIP := ip |} |})
       key (services w)) w.

Definition platform_deployment_ready (key : ObjectKey) (w : World) : World :=
  set_deployments
    (alter (λ d, let n := default 1 (dep_Replicas (d_Spec d)) in
                 {| d_meta := d_meta d; d_Spec := d_Spec d;
                    d_Status := {| dep_StatusReplicas := n; dep_ReadyReplicas := n;
                                   dep_AvailableReplicas := n;
                                   dep_UnavailableReplicas := 0 |} |})
       key (deployments w)) w.

Definition ex_store_key : ObjectKey := ("default", ImageStoreStatefulSetName).
Definition ex_app_key : ObjectKey := ("default", ModelAppName "phi").

(** The worlds a fresh Model goes through, pass after pass, with the platform
    making the awaited resource ready before passes 3 to 6. *)
Definition ex_pass (n : nat) : World → res Result * World :=
  match n with
  | 3%nat => λ w, Reconcile ex_req (platform_statefulset_ready ex_store_key w)
  | 4%nat => λ w, Reconcile ex_req (platform_assign_address ex_store_key "10.0.0.1" w)
  | 5%nat => λ w, Reconcile ex_req (platform_deployment_ready ex_app_key w)
  | 6%nat => λ w, Reconcile ex_req (platform_assign_address ex_app_key "10.0.0.2" w)
  | _ => Reconcile ex_req
  end.

Fixpoint ex_after (n : nat) : World :=
  match n with
  | O => ex_fresh
  | S k => (ex_pass n (ex_after k)).2
  end.

(** The verbs of the calls a pass made, oldest first. *)
Definition ex_made (n : nat) : list (Verb * ObjKind) :=
  let before := length (calls (ex_after (pred n))) in
  let now := calls (ex_after n) in
  rev (map (λ c, (call_verb c, call_kind c)) (take (length now - before) now)).

(** ** What the stages build and say *)

(** The deployment [EnsureDeploymentCreated] builds when it finds none
    (lines 330-378). *)
Definition deployment_for (namespace name image : string) (replicas : option Z)
    (model : Model) : Deployment :=
  {| d_meta :=
       {| Name := ModelAppName name;
          Namespace := namespace;
          UID := "";
          Labels := ∅;
          Annotations := ∅;
          OwnerReferences :=
            [ {| ref_APIVersion := APIVersion (m_type model);
                 ref_Kind := Kind (m_type model);
                 ref_Name := Name (m_meta model);
                 ref_UID := UID (m_meta model);
                 ref_BlockOwnerDeletion := Some true |} ] |};
     d_Spec :=
       {| dep_Replicas := match replicas with None => Some 1 | Some _ => replicas end;
          dep_MatchLabels := {[ "app" := ModelAppName name ]};
          dep_Template :=
            {| tpl_Labels := {[ "app" := ModelAppName name ]};
               InitContainers := [ NewOllamaPullerContainer image namespace ];
               Containers := [ NewOllamaServerContainer true ];
               Volumes :=
                 [ {| vol_Name := "image-storage";
                      vol_ClaimName := imageStorePVCName;
                      vol_ReadOnly := true |} ] |} |};
     d_Status :=
       {| dep_StatusReplicas := 0; dep_ReadyReplicas := 0;
          dep_AvailableReplicas := 0; dep_UnavailableReplicas := 0 |} |}.

(** The service [EnsureServiceCreated] builds when it finds none
    (lines 492-519). *)
Definition service_for (namespace name : string) (deployment : Deployment) : Service :=
  {| s_meta :=
       {| Name := ModelAppName name;
          Namespace := namespace;
          UID := "";
          Labels := ∅;
          Annotations := ∅;
          OwnerReferences :=
            [ {| ref_APIVersion := "apps/v1";
                 ref_Kind := "Deployment";
                 ref_Name := Name (d_meta deployment);
                 ref_UID := UID (d_meta deployment);
                 ref_BlockOwnerDeletion := Some true |} ] |};
     s_Spec :=
       {| svc_Type := "ClusterIP";
          svc_Selector := {[ "app" := ModelAppName name ]};
          svc_Ports :=
            [ {| port_Name := "ollama"; port_Port := 11434; port_TargetPort := 11434 |} ];
          ClusterIP := "" |} |}.

(** The notifications of the readiness checks and of the pass itself. *)
Definition WaitingForDeployment (rec : WrappedRecorder) (d : Deployment) : Event :=
  {| ev_object := rec_object rec; ev_type := "Normal"; ev_reason := "WaitingForDeployment";
     ev_message := "Waiting for deployment " +:+ Name (d_meta d) +:+ " to become ready" |}.

Definition WaitingForService (rec : WrappedRecorder) (s : Service) : Event :=
  {| ev_object := rec_object rec; ev_type := "Normal"; ev_reason := "WaitingForService";
     ev_message := "Waiting for service " +:+ Name (s_meta s) +:+ " to have cluster IP" |}.

Definition ModelAvailableEvent (rec : WrappedRecorder) : Event :=
  {| ev_object := rec_object rec; ev_type := "Normal"; ev_reason := "ModelAvailable";
     ev_message := "Model is available" |}.

Definition ModelProgressingEvent (rec : WrappedRecorder) : Event :=
  {| ev_object := rec_object rec; ev_type := "Normal"; ev_reason := "ModelProgressing";
     ev_message := "Model is progressing" |}.

(** The name the deployment and the service of [model] are stored under. *)
Definition app_key (model : Model) : ObjectKey :=
  (Namespace (m_meta model), ModelAppName (Name (m_meta model))).

(** A deployment declares what [model] asks for. *)
Definition in_sync (model : Model) (d : Deployment) : Prop :=
  dep_Replicas (d_Spec d) = Some (replicas_of model).

#[global] Typeclasses Opaque in_sync.

#[global] Instance in_sync_dec model d : Decision (in_sync model d).
Proof. unfold in_sync. apply _. Defined.

(** A deployment whose ready replicas are the declared ones, as
    [IsDeploymentReady] compares them. *)
Definition deployment_ready (d : Deployment) : Prop :=
  dep_ReadyReplicas (d_Status d)
  = int32_of_int (declared_replicas (dep_Replicas (d_Spec d))).

#[global] Typeclasses Opaque deployment_ready.

#[global] Instance deployment_ready_dec d : Decision (deployment_ready d).
Proof. unfold deployment_ready. apply _. Defined.

(** ** The calls of a pass *)

(** A call that reads or creates; the two other verbs rewrite a stored
    object. *)
Definition reads_or_creates (c : Call) : Prop :=
  call_verb c = VGet ∨ call_verb c = VCreate.

#[global] Typeclasses Opaque reads_or_creates.

#[global] Instance reads_or_creates_dec c : Decision (reads_or_creates c).
Proof. unfold reads_or_creates. apply _. Defined.

(** A computation whose calls all read or create. *)
Definition just_reads_or_creates {A} (c : M A) : Prop :=
  ∀ w, ∃ l, calls (c w).2 = (l ++ calls w)%list ∧ Forall reads_or_creates l.

(** A computation that makes no call after one that rewrites: of the calls
    it logs, newest first, only the head may rewrite.  When its result lets
    the caller go on ([go_on]), it has not rewritten at all. *)
Definition rewrites_last {A} (go_on : A → Prop) (c : M A) : Prop :=
  ∀ w, ∃ l, calls (c w).2 = (l ++ calls w)%list
          ∧ Forall reads_or_creates (tail l)
          ∧ (go_on (c w).1 → Forall reads_or_creates l).

(** The result after which the reconciler goes on to its next step. *)
Definition not_done (r : res bool) : Prop := r = Ok false.

#[global] Typeclasses Opaque not_done.

#[global] Instance not_done_dec r : Decision (not_done r).
Proof.
  unfold not_done. destruct r as [[|]|e]; [right|left|right]; done.
Defined.

(** ** How a pass ends *)

(** The pass asks for nothing more: no error and no requeue. *)
Definition finished (r : res Result) : Prop :=
  ∃ x, r = Ok x ∧ Requeue x = false.

(** The four replica counters of a Model's status, and the four a deployment
    reports, in the order [ShouldSetReplicas] compares them. *)
Definition counters (m : Model) : Z * Z * Z * Z :=
  (Replicas (m_Status m), ReadyReplicas (m_Status m),
   AvailableReplicas (m_Status m), UnavailableReplicas (m_Status m)).

Definition observed (d : Deployment) : Z * Z * Z * Z :=
  (dep_StatusReplicas (d_Status d), dep_ReadyReplicas (d_Status d),
   dep_AvailableReplicas (d_Status d), dep_UnavailableReplicas (d_Status d)).

(** A computation whose results, when it returns without error, all satisfy
    [P]. *)
Definition yields {A} (P : A → Prop) (c : M (res A)) : Prop :=
  ∀ w r, (c w).1 = Ok r → P r.

(** The two results of the stages: done, or come back in five seconds. *)
Definition done_or_later (r : Result) : Prop :=
  r = Result_zero ∨ r = requeue_after (Second * 5).

(** ** What a pass may change *)

(** The deployment under [key], if there is one, carries [key] as its own
    namespaced name. *)
Definition own_name (key : ObjectKey) (D : gmap ObjectKey Deployment) : Prop :=
  ∀ d, D !! key = Some d → key_of (d_meta d) = key.

(** [D'] is [D] except under [key], where a deployment may have appeared or
    changed its declared replica count and nothing else. *)
Definition only_resized (key : ObjectKey) (D D' : gmap ObjectKey Deployment) : Prop :=
  (∀ k, k ≠ key → D' !! k = D !! k)
  ∧ (∀ d, D !! key = Some d → ∃ r, D' !! key = Some (set_dep_Replicas r d)).

(** From [w] to [w'] the deployments changed under [key] at most, and there
    by creation or in the replica count. *)
Definition resizes (key : ObjectKey) (w w' : World) : Prop :=
  own_name key (deployments w) →
  only_resized key (deployments w) (deployments w')
  ∧ own_name key (deployments w').

(** From [w] to [w'] no service changed or went away, and none appeared
    outside [keys]. *)
Definition adds_services (keys : list ObjectKey) (w w' : World) : Prop :=
  services w ⊆ services w'
  ∧ ∀ k, k ∉ keys → services w' !! k = services w !! k.

(** A computation all of whose runs are within the relation [R] on worlds. *)
Definition within (R : World → World → Prop) {A} (c : M A) : Prop :=
  ∀ w, R w (c w).2.

(** A computation that returns without error whenever no call fails. *)
Definition unfailing {A} (c : M (res A)) : Prop :=
  ∀ w, faults w = [] → ∃ a, (c w).1 = Ok a.

(** ** A cluster that is ready *)

(** All a pass waits for is in place for the stored Model [m] and its
    deployment [d], and no call fails: the claim, the image store and its
    service are there and ready, the deployment declares what the Model asks
    for and has it ready, and its service has its address.  Nothing is said of
    the status of the Model. *)
Record in_place (req : Request) (m : Model) (d : Deployment) (w : World) : Prop := {
  ip_faults : faults w = [];
  ip_wf : wf_models w;
  ip_model : models w !! NamespacedName req = Some m;
  ip_claim : is_Some (pvcs w !! (req_Namespace req, imageStorePVCName));
  ip_store : statefulset_ready (req_Namespace req) w = true;
  ip_store_service : store_service_ready (req_Namespace req) w = true;
  ip_deployment : deployments w !! deployment_key req = Some d;
  ip_sync : in_sync m d;
  ip_ready : deployment_ready d;
  ip_service : ∃ s, services w !! deployment_key req = Some s ∧ ClusterIP (s_Spec s) ≠ ""
}.

(** The world after [n] passes for [req], with nothing else happening. *)
Definition passes (req : Request) (n : nat) (w : World) : World :=
  Nat.iter n (λ w, (Reconcile req w).2) w.

(** ** More of the small cluster *)

Definition ex_claim : PersistentVolumeClaimObj :=
  {| pvc_meta := ex_meta imageStorePVCName; pvc_StorageClassName := None;
     pvc_Claim := None; pvc_VolumeName := None |}.

(** The cluster with everything in place for the Model [m]: the storage
    claim, the image store and both services ready, the deployment with its
    two replicas ready. *)
Definition ex_ready (m : Model) : World :=
  set_pvcs {[ ("default", imageStorePVCName) := ex_claim ]} (ex_world m 1 2).

(** The same with the Model marked Available and holding the counters its
    deployment reports. *)
Definition ex_settled : World := ex_ready (ex_model [condition_at ModelAvailable 7] 2).

(** The Model declares two replicas and its deployment one. *)
Definition ex_drifted : World := ex_world (ex_model [condition_at ModelAvailable 7] 1) 1 1.

(** The fresh cluster with a client whose first call fails. *)
Definition ex_failing : World := set_faults [Some "connection refused"] ex_fresh.

Definition ex_rec : WrappedRecorder := NewWrappedRecorder (ex_model [] 0).

(** * Lemmas and theorems *)

(** ** Client calls *)

Ltac unfold_client :=
  unfold client_Get, client_Create, client_Update_Deployment, client_Status_Update,
    api_call, Eventf, Now, bind_ok, bind, ret in *.

Ltac crunch := repeat (simpl in *; simplify_eq; try case_match); try done.

Lemma client_Status_Update_calls m w :
  calls (client_Status_Update m w).2 = status_write m :: calls w.
Proof. unfold_client. crunch. Qed.

Lemma client_Status_Update_events m w :
  events (client_Status_Update m w).2 = events w.
Proof. unfold_client. crunch. Qed.

Lemma SetReplicas_unfold m a b c d w :
  SetReplicas m a b c d w =
  match client_Status_Update (set_Counters a b c d m) w with
  | (Some e, w') => (Err e, w')
  | (None, w') => (Ok true, w')
  end.
Proof.
  unfold SetReplicas, bind, ret.
  destruct (client_Status_Update _ w) as [[e|] w']; reflexivity.
Qed.

Lemma ShouldSetReplicas_spec m a b c d :
  ShouldSetReplicas m a b c d = true ↔
  Replicas (m_Status m) ≠ a ∨ ReadyReplicas (m_Status m) ≠ b
  ∨ AvailableReplicas (m_Status m) ≠ c ∨ UnavailableReplicas (m_Status m) ≠ d.
Proof.
  unfold ShouldSetReplicas.
  rewrite !orb_true_iff, !bool_decide_eq_true. tauto.
Qed.

Lemma ShouldSetReplicas_false m a b c d :
  ShouldSetReplicas m a b c d = false ↔
  Replicas (m_Status m) = a ∧ ReadyReplicas (m_Status m) = b
  ∧ AvailableReplicas (m_Status m) = c ∧ UnavailableReplicas (m_Status m) = d.
Proof.
  unfold ShouldSetReplicas.
  rewrite !orb_false_iff, !bool_decide_eq_false.
  split; [intros [[[? ?] ?] ?]|intros (-> & -> & -> & ->)]; repeat split;
    try (apply dec_stable; assumption); auto.
Qed.

Lemma client_Status_Update_spec m w :
  match next_fault w with
  | Some e =>
      (client_Status_Update m w).1 = Some e
      ∧ models (client_Status_Update m w).2 = models w
  | None =>
      match models w !! key_of (m_meta m) with
      | None =>
          (client_Status_Update m w).1 = Some ErrNotFound
          ∧ models (client_Status_Update m w).2 = models w
      | Some old =>
          (client_Status_Update m w).1 = None
          ∧ models (client_Status_Update m w).2
            = <[key_of (m_meta m) := with_status (m_Status m) old]> (models w)
      end
  end.
Proof.
  unfold with_status. unfold_client. simpl.
  destruct (next_fault w); simpl; [done|].
  by destruct (models w !! key_of (m_meta m)).
Qed.

Lemma client_Status_Update_written m w :
  (client_Status_Update m w).1 = None →
  ∃ old, models w !! key_of (m_meta m) = Some old
    ∧ models (client_Status_Update m w).2
      = <[key_of (m_meta m) := with_status (m_Status m) old]> (models w).
Proof.
  generalize (client_Status_Update_spec m w).
  destruct (next_fault w); [intros [-> _]; done|].
  destruct (models w !! key_of (m_meta m)) as [old|]; [|intros [-> _]; done].
  intros [_ ?] _. by exists old.
Qed.

Lemma client_Status_Update_failed m w e :
  (client_Status_Update m w).1 = Some e →
  models (client_Status_Update m w).2 = models w.
Proof.
  generalize (client_Status_Update_spec m w).
  destruct (next_fault w); [intros [_ ?]; done|].
  destruct (models w !! key_of (m_meta m)) as [old|]; intros [? ?]; [congruence|done].
Qed.

Lemma client_Status_Update_clock m w :
  clock (client_Status_Update m w).2 = clock w.
Proof. unfold_client. crunch. Qed.

(** C10.  [SetReplicas] compares nothing: whatever the counters, also when
    they are the ones the status already holds, it issues one status write,
    and it returns true exactly when that write succeeds (its error
    otherwise).  The comparison is in [ShouldSetReplicas], which is false on
    the counters the status already holds. *)
Theorem SetReplicas_writes_unconditionally m a b c d w :
  calls (SetReplicas m a b c d w).2 = status_write m :: calls w
  ∧ ((SetReplicas m a b c d w).1 = Ok true
     ↔ (client_Status_Update (set_Counters a b c d m) w).1 = None)
  ∧ (∀ e, (SetReplicas m a b c d w).1 = Err e
     ↔ (client_Status_Update (set_Counters a b c d m) w).1 = Some e)
  ∧ ((SetReplicas m a b c d w).1 = Ok true →
     ∃ old, models w !! key_of (m_meta m) = Some old
       ∧ models (SetReplicas m a b c d w).2
         = <[key_of (m_meta m) := with_status (m_Status (set_Counters a b c d m)) old]>
             (models w))
  ∧ ShouldSetReplicas m (Replicas (m_Status m)) (ReadyReplicas (m_Status m))
      (AvailableReplicas (m_Status m)) (UnavailableReplicas (m_Status m)) = false.
Proof.
  rewrite SetReplicas_unfold.
  pose proof (client_Status_Update_calls (set_Counters a b c d m) w) as Hc.
  pose proof (client_Status_Update_written (set_Counters a b c d m) w) as Hw.
  destruct (client_Status_Update _ w) as [[e|] w']; simpl in *.
  - repeat split; try done; try congruence. by apply ShouldSetReplicas_false.
  - split; [done|]. split; [done|]. split; [done|].
    split; [intros _; by apply Hw|]. by apply ShouldSetReplicas_false.
Qed.

Lemma SetProgressing_unfold m w :
  SetProgressing m w = set_condition ModelProgressing m w.
Proof.
  unfold SetProgressing, set_condition, bind, ret, Now, condition_at.
  destruct (has_condition _ _); [done|].
  destruct (client_Status_Update _ w) as [[e|] w']; reflexivity.
Qed.

Lemma SetAvailable_unfold m w :
  SetAvailable m w = set_condition ModelAvailable m w.
Proof.
  unfold SetAvailable, set_condition, bind, ret, Now, condition_at.
  destruct (has_condition _ _); [done|].
  destruct (client_Status_Update _ w) as [[e|] w']; reflexivity.
Qed.

Lemma set_condition_written ty m w :
  (set_condition ty m w).1 = Ok true →
  has_condition ty (Conditions (m_Status m)) = false
  ∧ ∃ old, models w !! key_of (m_meta m) = Some old
    ∧ models (set_condition ty m w).2
      = <[key_of (m_meta m) :=
            with_status (m_Status (set_Conditions [condition_at ty (clock w)] m)) old]>
          (models w).
Proof.
  unfold set_condition.
  destruct (has_condition ty _) eqn:Hc; [done|].
  pose proof (client_Status_Update_written
                (set_Conditions [condition_at ty (clock w)] m) w) as H.
  destruct (client_Status_Update _ w) as [[e|] w']; simpl in *; [done|].
  intros _. split; [done|]. by apply H.
Qed.

Lemma set_condition_not_written ty m w :
  (set_condition ty m w).1 ≠ Ok true →
  models (set_condition ty m w).2 = models w.
Proof.
  unfold set_condition.
  destruct (has_condition ty _) eqn:Hc; [done|].
  pose proof (client_Status_Update_failed
                (set_Conditions [condition_at ty (clock w)] m) w) as H.
  destruct (client_Status_Update _ w) as [[e|] w']; simpl in *; [|done].
  intros _. by eapply H.
Qed.

(** C9.  A status write that [SetProgressing] or [SetAvailable] gets through
    leaves the stored Model with a condition list of one element, the
    condition being set; after [SetAvailable] that list is [[Available]] and
    holds no Progressing condition.  When the call does not return true, the
    stored Models are as before. *)
Theorem condition_write_replaces_list m w :
  ((SetProgressing m w).1 = Ok true →
     model_conditions (key_of (m_meta m)) (SetProgressing m w).2
     = Some [condition_at ModelProgressing (clock w)])
  ∧ ((SetAvailable m w).1 = Ok true →
     model_conditions (key_of (m_meta m)) (SetAvailable m w).2
     = Some [condition_at ModelAvailable (clock w)]
     ∧ ∀ cs, model_conditions (key_of (m_meta m)) (SetAvailable m w).2 = Some cs →
         has_condition ModelProgressing cs = false)
  ∧ ((SetProgressing m w).1 ≠ Ok true → models (SetProgressing m w).2 = models w)
  ∧ ((SetAvailable m w).1 ≠ Ok true → models (SetAvailable m w).2 = models w).
Proof.
  rewrite SetProgressing_unfold, SetAvailable_unfold.
  assert (∀ ty, (set_condition ty m w).1 = Ok true →
     model_conditions (key_of (m_meta m)) (set_condition ty m w).2
     = Some [condition_at ty (clock w)]) as Hset.
  { intros ty H. apply set_condition_written in H as (_ & old & _ & Hw).
    unfold model_conditions. by rewrite Hw, lookup_insert_eq. }
  split; [apply Hset|]. split.
  - intros H. rewrite (Hset _ H). split; [done|].
    intros cs [= <-]. reflexivity.
  - split; apply set_condition_not_written.
Qed.

(** ** The counter step *)

Lemma Reconcile_counters_equal m rec d w :
  ShouldSetReplicas m (dep_StatusReplicas (d_Status d)) (dep_ReadyReplicas (d_Status d))
    (dep_AvailableReplicas (d_Status d)) (dep_UnavailableReplicas (d_Status d)) = false →
  Reconcile_counters m rec d w = Reconcile_available m rec w.
Proof. unfold Reconcile_counters. by intros ->. Qed.

Lemma Reconcile_counters_differ m rec d w :
  ShouldSetReplicas m (dep_StatusReplicas (d_Status d)) (dep_ReadyReplicas (d_Status d))
    (dep_AvailableReplicas (d_Status d)) (dep_UnavailableReplicas (d_Status d)) = true →
  Reconcile_counters m rec d w =
  match client_Status_Update
          (set_Counters (dep_StatusReplicas (d_Status d)) (dep_ReadyReplicas (d_Status d))
             (dep_AvailableReplicas (d_Status d)) (dep_UnavailableReplicas (d_Status d)) m) w
  with
  | (Some e, w') => (Err e, w')
  | (None, w') => (Ok (requeue_after (Second * 5)), w')
  end.
Proof.
  unfold Reconcile_counters. intros ->.
  unfold bind_ok, bind. rewrite SetReplicas_unfold.
  destruct (client_Status_Update _ w) as [[e|] w']; reflexivity.
Qed.

(** C4.  The counter step of a pass (lines 151-159): [ShouldSetReplicas] is
    true exactly when one of the four observed counters differs from the
    status of the fetched Model.  When one differs the step issues one status
    write, sends no notification, and ends the pass with a requeue after five
    seconds if the write succeeds and with its error if not.  When none
    differs the step writes nothing and the pass goes on to mark the Model
    available. *)
Theorem counters_written_iff_changed m rec d w :
  let replicas := dep_StatusReplicas (d_Status d) in
  let ready := dep_ReadyReplicas (d_Status d) in
  let available := dep_AvailableReplicas (d_Status d) in
  let unavailable := dep_UnavailableReplicas (d_Status d) in
  let differs :=
    Replicas (m_Status m) ≠ replicas ∨ ReadyReplicas (m_Status m) ≠ ready
    ∨ AvailableReplicas (m_Status m) ≠ available
    ∨ UnavailableReplicas (m_Status m) ≠ unavailable in
  (ShouldSetReplicas m replicas ready available unavailable = true ↔ differs)
  ∧ (differs →
       calls (Reconcile_counters m rec d w).2 = status_write m :: calls w
       ∧ events (Reconcile_counters m rec d w).2 = events w
       ∧ match (client_Status_Update
                  (set_Counters replicas ready available unavailable m) w).1 with
         | None => (Reconcile_counters m rec d w).1 = Ok (requeue_after (Second * 5))
         | Some e => (Reconcile_counters m rec d w).1 = Err e
         end)
  ∧ (¬ differs → Reconcile_counters m rec d w = Reconcile_available m rec w).
Proof.
  intros replicas ready available unavailable differs.
  pose proof (ShouldSetReplicas_spec m replicas ready available unavailable) as Hs.
  split; [exact Hs|]. split.
  - intros Hd. apply Hs in Hd. rewrite (Reconcile_counters_differ _ _ _ _ Hd).
    fold replicas ready available unavailable.
    pose proof (client_Status_Update_calls
                  (set_Counters replicas ready available unavailable m) w) as Hc.
    pose proof (client_Status_Update_events
                  (set_Counters replicas ready available unavailable m) w) as He.
    destruct (client_Status_Update _ w) as [[e|] w']; simpl in *; done.
  - intros Hd. apply Reconcile_counters_equal.
    destruct (ShouldSetReplicas _ _ _ _ _) eqn:E; [|done].
    exfalso. apply Hd, Hs. done.
Qed.

Lemma int32_of_int_id z : is_int32 z → int32_of_int z = z.
Proof.
  unfold is_int32, int32_of_int. intros H.
  rewrite Z.mod_small by lia. lia.
Qed.

Lemma getDeployment_unfold ns name w :
  getDeployment ns name w =
  match client_Get KDeployment deployments (ns, ModelAppName name) w with
  | (Ok d, w') => (Ok (Some d), w')
  | (Err e, w') => (if IsNotFound e then Ok None else Err e, w')
  end.
Proof.
  unfold getDeployment, bind, ret.
  destruct (client_Get _ _ _ w) as [[d|e] w']; [done|]. by destruct (IsNotFound e).
Qed.

Lemma getService_unfold ns name w :
  getService ns name w =
  match client_Get KService services (ns, ModelAppName name) w with
  | (Ok s, w') => (Ok (Some s), w')
  | (Err e, w') => (if IsNotFound e then Ok None else Err e, w')
  end.
Proof.
  unfold getService, bind, ret.
  destruct (client_Get _ _ _ w) as [[d|e] w']; [done|]. by destruct (IsNotFound e).
Qed.

Lemma client_Get_eq {A} (k : ObjKind) (objs : World → gmap ObjectKey A)
    (key : ObjectKey) (w : World) :
  (∀ c w', objs (logged c w') = objs w') →
  client_Get k objs key w =
  (match next_fault w with
   | Some e => Err e
   | None => match objs w !! key with Some o => Ok o | None => Err ErrNotFound end
   end, logged (call VGet k key) w).
Proof.
  intros H. unfold client_Get, api_call, bind, ret.
  destruct (next_fault w); [done|].
  rewrite H. by destruct (objs w !! key).
Qed.

Lemma client_Get_spec {A} (k : ObjKind) (objs : World → gmap ObjectKey A)
    (key : ObjectKey) (w : World) :
  (∀ c w', objs (logged c w') = objs w') →
  (client_Get k objs key w).1 =
  match next_fault w with
  | Some e => Err e
  | None => match objs w !! key with Some o => Ok o | None => Err ErrNotFound end
  end.
Proof. intros H. by rewrite client_Get_eq. Qed.

Lemma IsDeploymentReady_unfold ns name rec w :
  IsDeploymentReady ns name rec w =
  match client_Get KDeployment deployments (ns, ModelAppName name) w with
  | (Ok d, w') =>
      if bool_decide (dep_ReadyReplicas (d_Status d)
                      = int32_of_int (match dep_Replicas (d_Spec d) with
                                      | Some r => int_of_int32 r
                                      | None => 1
                                      end))
      then (Ok true, w')
      else (Ok false,
            (Eventf rec "Normal" "WaitingForDeployment"
               ("Waiting for deployment " +:+ Name (d_meta d) +:+ " to become ready")
               w').2)
  | (Err e, w') => (if IsNotFound e then Ok false else Err e, w')
  end.
Proof.
  unfold IsDeploymentReady, bind_ok, bind, ret. rewrite getDeployment_unfold.
  destruct (client_Get _ _ _ w) as [[d|e] w']; simpl.
  - by case_bool_decide.
  - by destruct (IsNotFound e).
Qed.

Lemma IsServiceReady_unfold ns name rec w :
  IsServiceReady ns name rec w =
  match client_Get KService services (ns, ModelAppName name) w with
  | (Ok s, w') =>
      if bool_decide (ClusterIP (s_Spec s) = "")
      then (Ok false,
            (Eventf rec "Normal" "WaitingForService"
               ("Waiting for service " +:+ Name (s_meta s) +:+ " to have cluster IP")
               w').2)
      else (Ok true, w')
  | (Err e, w') => (if IsNotFound e then Ok false else Err e, w')
  end.
Proof.
  unfold IsServiceReady, bind_ok, bind, ret. rewrite getService_unfold.
  destruct (client_Get _ _ _ w) as [[d|e] w']; simpl.
  - by case_bool_decide.
  - by destruct (IsNotFound e).
Qed.

Lemma IsDeploymentReady_error ns name rec w :
  (∀ e, (client_Get KDeployment deployments (ns, ModelAppName name) w).1 = Err e →
        IsNotFound e = true → (IsDeploymentReady ns name rec w).1 = Ok false)
  ∧ (∀ e, (IsDeploymentReady ns name rec w).1 = Err e
          ↔ (client_Get KDeployment deployments (ns, ModelAppName name) w).1 = Err e
            ∧ IsNotFound e = false).
Proof.
  rewrite IsDeploymentReady_unfold.
  destruct (client_Get _ _ _ w) as [[d|e'] w']; simpl.
  - split; [intros e [=]|]. intros e.
    case_bool_decide; simpl; (split; [intros [=]|intros [[=] _]]).
  - split.
    + intros e [= ->] ->. done.
    + intros e. destruct (IsNotFound e') eqn:E; simpl; split.
      * intros [=].
      * intros [[= ->] ?]. congruence.
      * by intros [= ->].
      * by intros [[= ->] _].
Qed.

Lemma IsServiceReady_error ns name rec w :
  (∀ e, (client_Get KService services (ns, ModelAppName name) w).1 = Err e →
        IsNotFound e = true → (IsServiceReady ns name rec w).1 = Ok false)
  ∧ (∀ e, (IsServiceReady ns name rec w).1 = Err e
          ↔ (client_Get KService services (ns, ModelAppName name) w).1 = Err e
            ∧ IsNotFound e = false).
Proof.
  rewrite IsServiceReady_unfold.
  destruct (client_Get _ _ _ w) as [[d|e'] w']; simpl.
  - split; [intros e [=]|]. intros e.
    case_bool_decide; simpl; (split; [intros [=]|intros [[=] _]]).
  - split.
    + intros e [= ->] ->. done.
    + intros e. destruct (IsNotFound e') eqn:E; simpl; split.
      * intros [=].
      * intros [[= ->] ?]. congruence.
      * by intros [= ->].
      * by intros [[= ->] _].
Qed.

(** C7.  [IsDeploymentReady] and [IsServiceReady] turn a not-found answer of
    the get into [(false, nil)]; they return an error exactly when the get
    failed with an error other than not-found, and then that error.  In
    particular an absent deployment or service, read without failure, is
    reported not ready. *)
Theorem absent_is_not_ready ns name rec w :
  (∀ e, (client_Get KDeployment deployments (ns, ModelAppName name) w).1 = Err e →
        IsNotFound e = true → (IsDeploymentReady ns name rec w).1 = Ok false)
  ∧ (∀ e, (IsDeploymentReady ns name rec w).1 = Err e
          ↔ (client_Get KDeployment deployments (ns, ModelAppName name) w).1 = Err e
            ∧ IsNotFound e = false)
  ∧ (∀ e, (client_Get KService services (ns, ModelAppName name) w).1 = Err e →
          IsNotFound e = true → (IsServiceReady ns name rec w).1 = Ok false)
  ∧ (∀ e, (IsServiceReady ns name rec w).1 = Err e
          ↔ (client_Get KService services (ns, ModelAppName name) w).1 = Err e
            ∧ IsNotFound e = false)
  ∧ (next_fault w = None → deployments w !! (ns, ModelAppName name) = None →
     (IsDeploymentReady ns name rec w).1 = Ok false)
  ∧ (next_fault w = None → services w !! (ns, ModelAppName name) = None →
     (IsServiceReady ns name rec w).1 = Ok false).
Proof.
  destruct (IsDeploymentReady_error ns name rec w) as [HD1 HD2].
  destruct (IsServiceReady_error ns name rec w) as [HS1 HS2].
  split; [exact HD1|]. split; [exact HD2|].
  split; [exact HS1|]. split; [exact HS2|]. split.
  - intros Hf Hl. apply (HD1 ErrNotFound); [|done].
    rewrite client_Get_spec by done. by rewrite Hf, Hl.
  - intros Hf Hl. apply (HS1 ErrNotFound); [|done].
    rewrite client_Get_spec by done. by rewrite Hf, Hl.
Qed.

(** C8.  For a deployment the get returns, [IsDeploymentReady] answers
    without error, and answers true exactly when the ready replicas equal the
    declared replicas (1 when the declaration is unset).  For a service the
    get returns, [IsServiceReady] answers true exactly when the cluster
    address is not empty. *)
Theorem readiness_predicates ns name rec w :
  (∀ d, (client_Get KDeployment deployments (ns, ModelAppName name) w).1 = Ok d →
        is_int32 (declared_replicas (dep_Replicas (d_Spec d))) →
        ∃ b, (IsDeploymentReady ns name rec w).1 = Ok b
             ∧ (b = true ↔ dep_ReadyReplicas (d_Status d)
                            = declared_replicas (dep_Replicas (d_Spec d))))
  ∧ (∀ s, (client_Get KService services (ns, ModelAppName name) w).1 = Ok s →
        ∃ b, (IsServiceReady ns name rec w).1 = Ok b
             ∧ (b = true ↔ ClusterIP (s_Spec s) ≠ "")).
Proof.
  split.
  - intros d. rewrite IsDeploymentReady_unfold.
    destruct (client_Get _ _ _ w) as [[d'|e'] w']; simpl; [|intros [=]].
    intros [= ->] Hr.
    replace (int32_of_int _) with (declared_replicas (dep_Replicas (d_Spec d))).
    + case_bool_decide; simpl; eexists; (split; [done|]); split; done.
    + unfold declared_replicas, int_of_int32 in *.
      destruct (dep_Replicas (d_Spec d)); by rewrite int32_of_int_id.
  - intros s. rewrite IsServiceReady_unfold.
    destruct (client_Get _ _ _ w) as [[d'|e'] w']; simpl; [|intros [=]].
    intros [= ->].
    case_bool_decide; simpl; eexists; (split; [done|]); split; done.
Qed.

(** Side conditions on lists of kinds. *)
Ltac kinds :=
  solve
    [ intros ? ?%list_elem_of_In; apply list_elem_of_In; simpl in *;
      intuition (subst; auto)
    | intros ?%list_elem_of_In; simpl in *; intuition discriminate ].

Lemma touches_refl ks w : touches ks w w.
Proof. by constructor. Qed.

Lemma touches_trans ks w1 w2 w3 :
  touches ks w1 w2 → touches ks w2 w3 → touches ks w1 w3.
Proof.
  intros H12 H23. constructor; intros.
  - by rewrite (t_models _ _ _ H23), (t_models _ _ _ H12).
  - by rewrite (t_pvcs _ _ _ H23), (t_pvcs _ _ _ H12).
  - by rewrite (t_statefulsets _ _ _ H23), (t_statefulsets _ _ _ H12).
  - by rewrite (t_deployments _ _ _ H23), (t_deployments _ _ _ H12).
  - by rewrite (t_services _ _ _ H23), (t_services _ _ _ H12).
  - by rewrite (t_calls _ _ _ H23), (t_calls _ _ _ H12).
  - by rewrite (t_events _ _ _ H23), (t_events _ _ _ H12).
  - by rewrite (t_clock _ _ _ H23), (t_clock _ _ _ H12).
  - by apply (t_faults _ _ _ H23), (t_faults _ _ _ H12).
Qed.

Lemma touches_mono ks ks' w w' : ks ⊆ ks' → touches ks w w' → touches ks' w w'.
Proof.
  intros Hs []. constructor; intros; eauto.
Qed.

Lemma keeps_ret ks {A} (a : A) : keeps ks (ret a).
Proof. intros w. apply touches_refl. Qed.

Lemma keeps_bind ks {A B} (c : M A) (k : A → M B) :
  keeps ks c → (∀ a, keeps ks (k a)) → keeps ks (bind c k).
Proof.
  intros Hc Hk w. unfold bind. specialize (Hc w).
  destruct (c w) as [a w1] eqn:E. simpl in *.
  eapply touches_trans; [exact Hc|apply Hk].
Qed.

Lemma keeps_bind_ok ks {A B} (c : M (res A)) (k : A → M (res B)) :
  keeps ks c → (∀ a, keeps ks (k a)) → keeps ks (bind_ok c k).
Proof.
  intros Hc Hk. apply keeps_bind; [done|]. intros [a|e]; [apply Hk|apply keeps_ret].
Qed.

Lemma keeps_mono ks ks' {A} (c : M A) : ks ⊆ ks' → keeps ks c → keeps ks' c.
Proof. intros Hs Hc w. eapply touches_mono; eauto. Qed.

Lemma calls_of_logged k c w :
  calls_of k (logged c w)
  = if decide (call_kind c = k) then c :: calls_of k w else calls_of k w.
Proof. unfold calls_of. simpl. rewrite filter_cons. by case_decide. Qed.

Lemma keeps_api_call v k key : keeps [k] (api_call v k key).
Proof.
  intros w. unfold api_call. simpl. constructor; simpl; try done.
  - intros k' Hk. rewrite calls_of_logged. simpl.
    rewrite decide_False; [done|].
    rewrite list_elem_of_singleton in Hk. congruence.
  - by intros ->.
Qed.

Lemma keeps_client_Get {A} (k : ObjKind) (objs : World → gmap ObjectKey A)
    (key : ObjectKey) :
  keeps [k] (client_Get k objs key).
Proof.
  intros w. pose proof (keeps_api_call VGet k key w) as H.
  unfold client_Get, bind, ret. destruct (api_call VGet k key w) as [[e|] w1]; simpl in *.
  - done.
  - by destruct (objs w1 !! key).
Qed.

Lemma keeps_Eventf rec ty reason msg :
  reason ≠ "ModelAvailable" → keeps [] (Eventf rec ty reason msg).
Proof.
  intros Hr w. unfold Eventf. constructor; simpl; try done.
  unfold avail_events. simpl. by rewrite filter_cons_False.
Qed.

Lemma keeps_create_PersistentVolumeClaim o :
  keeps [KPersistentVolumeClaim]
    (client_Create KPersistentVolumeClaim pvcs set_pvcs pvc_meta o).
Proof.
  intros w.
  pose proof (keeps_api_call VCreate KPersistentVolumeClaim (key_of (pvc_meta o)) w) as H.
  unfold client_Create, bind, ret. destruct (api_call _ _ _ w) as [[e|] w1]; simpl in *.
  - done.
  - destruct (pvcs w1 !! _); [done|]. simpl.
    destruct H. constructor; simpl; try done.
    intros Hk. destruct Hk. constructor.
Qed.

Lemma keeps_create_StatefulSet o :
  keeps [KStatefulSet] (client_Create KStatefulSet statefulsets set_statefulsets ss_meta o).
Proof.
  intros w.
  pose proof (keeps_api_call VCreate KStatefulSet (key_of (ss_meta o)) w) as H.
  unfold client_Create, bind, ret. destruct (api_call _ _ _ w) as [[e|] w1]; simpl in *.
  - done.
  - destruct (statefulsets w1 !! _); [done|]. simpl.
    destruct H. constructor; simpl; try done.
    intros Hk. destruct Hk. constructor.
Qed.

Lemma keeps_create_Deployment o :
  keeps [KDeployment] (client_Create KDeployment deployments set_deployments d_meta o).
Proof.
  intros w.
  pose proof (keeps_api_call VCreate KDeployment (key_of (d_meta o)) w) as H.
  unfold client_Create, bind, ret. destruct (api_call _ _ _ w) as [[e|] w1]; simpl in *.
  - done.
  - destruct (deployments w1 !! _); [done|]. simpl.
    destruct H. constructor; simpl; try done.
    intros Hk. destruct Hk. constructor.
Qed.

Lemma keeps_create_Service o :
  keeps [KService] (client_Create KService services set_services s_meta o).
Proof.
  intros w.
  pose proof (keeps_api_call VCreate KService (key_of (s_meta o)) w) as H.
  unfold client_Create, bind, ret. destruct (api_call _ _ _ w) as [[e|] w1]; simpl in *.
  - done.
  - destruct (services w1 !! _); [done|]. simpl.
    destruct H. constructor; simpl; try done.
    intros Hk. destruct Hk. constructor.
Qed.

Lemma keeps_client_Update_Deployment d : keeps [KDeployment] (client_Update_Deployment d).
Proof.
  intros w.
  pose proof (keeps_api_call VUpdate KDeployment (key_of (d_meta d)) w) as H.
  unfold client_Update_Deployment, bind, ret.
  destruct (api_call _ _ _ w) as [[e|] w1]; simpl in *.
  - done.
  - destruct (deployments w1 !! _); [|done]. simpl.
    destruct H. constructor; simpl; try done.
    intros Hk. destruct Hk. constructor.
Qed.

Lemma keeps_client_Status_Update m : keeps [KModel] (client_Status_Update m).
Proof.
  intros w.
  pose proof (keeps_api_call VStatusUpdate KModel (key_of (m_meta m)) w) as H.
  unfold client_Status_Update, bind, ret.
  destruct (api_call _ _ _ w) as [[e|] w1]; simpl in *.
  - done.
  - destruct (models w1 !! _); [|done]. simpl.
    destruct H. constructor; simpl; try done.
    intros Hk. destruct Hk. constructor.
Qed.

Lemma keeps_Now : keeps [] Now.
Proof. intros w. apply touches_refl. Qed.

Create HintDb keeps.
#[global] Hint Resolve keeps_Now : keeps.
#[global] Hint Resolve keeps_ret keeps_client_Get keeps_create_PersistentVolumeClaim
  keeps_create_StatefulSet keeps_create_Deployment keeps_create_Service
  keeps_client_Update_Deployment keeps_client_Status_Update : keeps.

(** Walks a computation down to the client calls and events it is made of. *)
Ltac keeps_step :=
  first
    [ apply keeps_ret
    | (eapply keeps_mono; [|solve [eauto with keeps]]); [kinds]
    | (eapply keeps_mono; [|apply keeps_Eventf; discriminate]); [kinds]
    | match goal with
      | |- keeps _ (bind_ok _ _) => apply keeps_bind_ok; [|intros ?]
      | |- keeps _ (bind _ _) => apply keeps_bind; [|intros ?]
      | |- keeps _ (match ?x with _ => _ end) => destruct x
      | |- keeps _ (let _ := _ in _) => cbv zeta
      end ].

Ltac keeps_tac := repeat keeps_step.

Lemma keeps_getDeployment ns name : keeps [KDeployment] (getDeployment ns name).
Proof. unfold getDeployment. keeps_tac. Qed.

Lemma keeps_getService ns name : keeps [KService] (getService ns name).
Proof. unfold getService. keeps_tac. Qed.

#[global] Hint Resolve keeps_getDeployment keeps_getService : keeps.

Lemma keeps_EnsureDeploymentCreated ns name image replicas model rec :
  keeps [KDeployment] (EnsureDeploymentCreated ns name image replicas model rec).
Proof. unfold EnsureDeploymentCreated. keeps_tac. Qed.

Lemma keeps_IsDeploymentReady ns name rec :
  keeps [KDeployment] (IsDeploymentReady ns name rec).
Proof. unfold IsDeploymentReady. keeps_tac. Qed.

Lemma keeps_UpdateDeployment model rec : keeps [KDeployment] (UpdateDeployment model rec).
Proof. unfold UpdateDeployment. keeps_tac. Qed.

Lemma keeps_EnsureServiceCreated ns name d rec :
  keeps [KService] (EnsureServiceCreated ns name d rec).
Proof. unfold EnsureServiceCreated. keeps_tac. Qed.

Lemma keeps_IsServiceReady ns name rec : keeps [KService] (IsServiceReady ns name rec).
Proof. unfold IsServiceReady. keeps_tac. Qed.

Lemma keeps_EnsureImageStorePVCCreated ns sc pvc pv rec :
  keeps [KPersistentVolumeClaim] (EnsureImageStorePVCCreated ns sc pvc pv rec).
Proof. unfold EnsureImageStorePVCCreated. keeps_tac. Qed.

Lemma keeps_EnsureImageStoreStatefulSetCreated ns rec :
  keeps [KStatefulSet] (EnsureImageStoreStatefulSetCreated ns rec).
Proof. unfold EnsureImageStoreStatefulSetCreated. keeps_tac. Qed.

Lemma keeps_IsImageStoreStatefulSetReady ns rec :
  keeps [KStatefulSet] (IsImageStoreStatefulSetReady ns rec).
Proof. unfold IsImageStoreStatefulSetReady. keeps_tac. Qed.

Lemma keeps_EnsureImageStoreServiceCreated ns ss rec :
  keeps [KService] (EnsureImageStoreServiceCreated ns ss rec).
Proof. unfold EnsureImageStoreServiceCreated. keeps_tac. Qed.

Lemma keeps_IsImageStoreServiceReady ns rec :
  keeps [KService] (IsImageStoreServiceReady ns rec).
Proof. unfold IsImageStoreServiceReady. keeps_tac. Qed.

Lemma keeps_SetProgressing m : keeps [KModel] (SetProgressing m).
Proof. unfold SetProgressing. keeps_tac. Qed.

Lemma keeps_SetAvailable m : keeps [KModel] (SetAvailable m).
Proof. unfold SetAvailable. keeps_tac. Qed.

Lemma keeps_SetReplicas m a b c d : keeps [KModel] (SetReplicas m a b c d).
Proof. unfold SetReplicas. keeps_tac. Qed.

Lemma client_Create_Deployment_eq o w :
  client_Create KDeployment deployments set_deployments d_meta o w =
  match next_fault w with
  | Some e => (Some e, logged (call VCreate KDeployment (key_of (d_meta o))) w)
  | None =>
      match deployments w !! key_of (d_meta o) with
      | Some _ => (Some ErrAlreadyExists, logged (call VCreate KDeployment (key_of (d_meta o))) w)
      | None =>
          (None, set_deployments (<[key_of (d_meta o) := o]> (deployments w))
                   (logged (call VCreate KDeployment (key_of (d_meta o))) w))
      end
  end.
Proof.
  unfold client_Create, api_call, bind, ret.
  destruct (next_fault w); [done|]. simpl. by destruct (deployments w !! _).
Qed.

Lemma client_Create_Service_eq o w :
  client_Create KService services set_services s_meta o w =
  match next_fault w with
  | Some e => (Some e, logged (call VCreate KService (key_of (s_meta o))) w)
  | None =>
      match services w !! key_of (s_meta o) with
      | Some _ => (Some ErrAlreadyExists, logged (call VCreate KService (key_of (s_meta o))) w)
      | None =>
          (None, set_services (<[key_of (s_meta o) := o]> (services w))
                   (logged (call VCreate KService (key_of (s_meta o))) w))
      end
  end.
Proof.
  unfold client_Create, api_call, bind, ret.
  destruct (next_fault w); [done|]. simpl. by destruct (services w !! _).
Qed.

Lemma next_fault_not_found w e : next_fault w = Some e → IsNotFound e = false.
Proof. unfold next_fault. destruct (faults w) as [|[msg|] fs]; by intros [= <-]. Qed.

Lemma EnsureDeploymentCreated_found ns name image replicas model rec w d :
  next_fault w = None →
  deployments w !! (ns, ModelAppName name) = Some d →
  EnsureDeploymentCreated ns name image replicas model rec w
  = (Ok d, logged (call VGet KDeployment (ns, ModelAppName name)) w).
Proof.
  intros Hf Hd. unfold EnsureDeploymentCreated, bind_ok, bind, ret.
  rewrite getDeployment_unfold, client_Get_eq by done. by rewrite Hf, Hd.
Qed.

Lemma EnsureDeploymentCreated_fault ns name image replicas model rec w e :
  next_fault w = Some e →
  EnsureDeploymentCreated ns name image replicas model rec w
  = (Err e, logged (call VGet KDeployment (ns, ModelAppName name)) w).
Proof.
  intros Hf. unfold EnsureDeploymentCreated, bind_ok, bind, ret.
  rewrite getDeployment_unfold, client_Get_eq by done. rewrite Hf.
  by rewrite (next_fault_not_found _ _ Hf).
Qed.

Lemma EnsureDeploymentCreated_ok ns name image replicas model rec w d :
  (EnsureDeploymentCreated ns name image replicas model rec w).1 = Ok d →
  ensured deployments KDeployment (ns, ModelAppName name) (DeploymentCreated rec name)
    w (EnsureDeploymentCreated ns name image replicas model rec w).2 d.
Proof.
  destruct (next_fault w) as [e|] eqn:Hf.
  { by rewrite (EnsureDeploymentCreated_fault _ _ _ _ _ _ _ _ Hf). }
  destruct (deployments w !! (ns, ModelAppName name)) as [d'|] eqn:Hd.
  { rewrite (EnsureDeploymentCreated_found _ _ _ _ _ _ _ _ Hf Hd). simpl.
    intros [= ->]. by constructor 1. }
  unfold EnsureDeploymentCreated, bind_ok, bind, ret, Eventf.
  rewrite getDeployment_unfold, client_Get_eq by done. rewrite Hf, Hd. simpl.
  rewrite client_Create_Deployment_eq. simpl.
  destruct (next_fault (logged _ w)); [done|]. unfold key_of. simpl. rewrite Hd. simpl.
  intros [= <-]. by constructor 2.
Qed.

Lemma EnsureServiceCreated_found ns name deployment rec w s :
  next_fault w = None →
  services w !! (ns, ModelAppName name) = Some s →
  EnsureServiceCreated ns name deployment rec w
  = (Ok s, logged (call VGet KService (ns, ModelAppName name)) w).
Proof.
  intros Hf Hd. unfold EnsureServiceCreated, bind_ok, bind, ret.
  rewrite getService_unfold, client_Get_eq by done. by rewrite Hf, Hd.
Qed.

Lemma EnsureServiceCreated_fault ns name deployment rec w e :
  next_fault w = Some e →
  EnsureServiceCreated ns name deployment rec w
  = (Err e, logged (call VGet KService (ns, ModelAppName name)) w).
Proof.
  intros Hf. unfold EnsureServiceCreated, bind_ok, bind, ret.
  rewrite getService_unfold, client_Get_eq by done. rewrite Hf.
  by rewrite (next_fault_not_found _ _ Hf).
Qed.

Lemma EnsureServiceCreated_ok ns name deployment rec w s :
  (EnsureServiceCreated ns name deployment rec w).1 = Ok s →
  ensured services KService (ns, ModelAppName name) (ServiceCreated rec name)
    w (EnsureServiceCreated ns name deployment rec w).2 s.
Proof.
  destruct (next_fault w) as [e|] eqn:Hf.
  { by rewrite (EnsureServiceCreated_fault _ _ _ _ _ _ Hf). }
  destruct (services w !! (ns, ModelAppName name)) as [d'|] eqn:Hd.
  { rewrite (EnsureServiceCreated_found _ _ _ _ _ _ Hf Hd). simpl.
    intros [= ->]. by constructor 1. }
  unfold EnsureServiceCreated, bind_ok, bind, ret, Eventf.
  rewrite getService_unfold, client_Get_eq by done. rewrite Hf, Hd. simpl.
  rewrite client_Create_Service_eq. simpl.
  destruct (next_fault (logged _ w)); [done|]. unfold key_of. simpl. rewrite Hd. simpl.
  intros [= <-]. by constructor 2.
Qed.

Lemma ensured_stored {A} (objs : World → gmap ObjectKey A) k key ev w w' o :
  ensured objs k key ev w w' o → objs w' !! key = Some o.
Proof. intros [? -> _ _|_ -> _ _]; [done|]. apply lookup_insert_eq. Qed.

(** C3.  After a first call of [EnsureDeploymentCreated] (or
    [EnsureServiceCreated]) that returned a resource, a second call with the
    same arguments only reads: it logs one get and no create, leaves the
    store and the events as they are, and returns the same resource (or the
    error of a failed read).  The first call sent the creation notification
    exactly when it created the resource, and none when it found it. *)
Theorem ensureCreated_twice :
  (∀ ns name image replicas model rec w d,
     (EnsureDeploymentCreated ns name image replicas model rec w).1 = Ok d →
     let w1 := (EnsureDeploymentCreated ns name image replicas model rec w).2 in
     let again := EnsureDeploymentCreated ns name image replicas model rec w1 in
     ensured deployments KDeployment (ns, ModelAppName name) (DeploymentCreated rec name)
       w w1 d
     ∧ again.2 = logged (call VGet KDeployment (ns, ModelAppName name)) w1
     ∧ calls again.2 = call VGet KDeployment (ns, ModelAppName name) :: calls w1
     ∧ deployments again.2 = deployments w1
     ∧ events again.2 = events w1
     ∧ again.1 = match next_fault w1 with Some e => Err e | None => Ok d end)
  ∧ (∀ ns name deployment rec w s,
     (EnsureServiceCreated ns name deployment rec w).1 = Ok s →
     let w1 := (EnsureServiceCreated ns name deployment rec w).2 in
     let again := EnsureServiceCreated ns name deployment rec w1 in
     ensured services KService (ns, ModelAppName name) (ServiceCreated rec name) w w1 s
     ∧ again.2 = logged (call VGet KService (ns, ModelAppName name)) w1
     ∧ calls again.2 = call VGet KService (ns, ModelAppName name) :: calls w1
     ∧ services again.2 = services w1
     ∧ events again.2 = events w1
     ∧ again.1 = match next_fault w1 with Some e => Err e | None => Ok s end).
Proof.
  split.
  - intros ns name image replicas model rec w d Hok w1 again.
    pose proof (EnsureDeploymentCreated_ok _ _ _ _ _ _ _ _ Hok) as He.
    fold w1 in He. pose proof (ensured_stored _ _ _ _ _ _ _ He) as Hs.
    split; [done|]. subst again.
    destruct (next_fault w1) as [e|] eqn:Hf.
    + by rewrite (EnsureDeploymentCreated_fault _ _ _ _ _ _ _ _ Hf).
    + by rewrite (EnsureDeploymentCreated_found _ _ _ _ _ _ _ _ Hf Hs).
  - intros ns name deployment rec w s Hok w1 again.
    pose proof (EnsureServiceCreated_ok _ _ _ _ _ _ Hok) as He.
    fold w1 in He. pose proof (ensured_stored _ _ _ _ _ _ _ He) as Hs.
    split; [done|]. subst again.
    destruct (next_fault w1) as [e|] eqn:Hf.
    + by rewrite (EnsureServiceCreated_fault _ _ _ _ _ _ Hf).
    + by rewrite (EnsureServiceCreated_found _ _ _ _ _ _ Hf Hs).
Qed.

(** ** The image-store stages *)

Lemma client_Create_StatefulSet_eq o w :
  client_Create KStatefulSet statefulsets set_statefulsets ss_meta o w =
  match next_fault w with
  | Some e => (Some e, logged (call VCreate KStatefulSet (key_of (ss_meta o))) w)
  | None =>
      match statefulsets w !! key_of (ss_meta o) with
      | Some _ => (Some ErrAlreadyExists, logged (call VCreate KStatefulSet (key_of (ss_meta o))) w)
      | None =>
          (None, set_statefulsets (<[key_of (ss_meta o) := o]> (statefulsets w))
                   (logged (call VCreate KStatefulSet (key_of (ss_meta o))) w))
      end
  end.
Proof.
  unfold client_Create, api_call, bind, ret.
  destruct (next_fault w); [done|]. simpl. by destruct (statefulsets w !! _).
Qed.

Lemma EnsureImageStoreStatefulSetCreated_found ns rec w ss :
  next_fault w = None →
  statefulsets w !! (ns, ImageStoreStatefulSetName) = Some ss →
  EnsureImageStoreStatefulSetCreated ns rec w
  = (Ok ss, logged (call VGet KStatefulSet (ns, ImageStoreStatefulSetName)) w).
Proof.
  intros Hf Hs. unfold EnsureImageStoreStatefulSetCreated, bind, ret.
  rewrite client_Get_eq by done. by rewrite Hf, Hs.
Qed.

Lemma EnsureImageStoreStatefulSetCreated_ready ns rec w :
  statefulset_ready ns (EnsureImageStoreStatefulSetCreated ns rec w).2
  = statefulset_ready ns w.
Proof.
  unfold EnsureImageStoreStatefulSetCreated, bind, ret, Eventf.
  rewrite client_Get_eq by done.
  destruct (next_fault w) as [e|] eqn:Hf; simpl.
  { by rewrite (next_fault_not_found _ _ Hf). }
  destruct (statefulsets w !! (ns, ImageStoreStatefulSetName)) as [ss|] eqn:Hs; simpl.
  { unfold statefulset_ready. simpl. by rewrite Hs. }
  rewrite client_Create_StatefulSet_eq. simpl.
  destruct (next_fault (logged _ w)); simpl.
  { unfold statefulset_ready. simpl. by rewrite Hs. }
  unfold key_of. simpl. rewrite Hs. simpl.
  unfold statefulset_ready. simpl. rewrite Hs, lookup_insert_eq. done.
Qed.

Lemma IsImageStoreStatefulSetReady_true ns rec w :
  (IsImageStoreStatefulSetReady ns rec w).1 = Ok true → statefulset_ready ns w = true.
Proof.
  unfold IsImageStoreStatefulSetReady, bind, ret, Eventf.
  rewrite client_Get_eq by done. unfold statefulset_ready.
  destruct (next_fault w) as [e|] eqn:Hf; simpl.
  { by rewrite (next_fault_not_found _ _ Hf). }
  destruct (statefulsets w !! (ns, ImageStoreStatefulSetName)) as [ss|]; simpl; [|done].
  by case_bool_decide.
Qed.

Lemma IsImageStoreStatefulSetReady_ready ns rec w :
  next_fault w = None → statefulset_ready ns w = true →
  IsImageStoreStatefulSetReady ns rec w
  = (Ok true, logged (call VGet KStatefulSet (ns, ImageStoreStatefulSetName)) w).
Proof.
  intros Hf. unfold IsImageStoreStatefulSetReady, bind, ret, Eventf.
  rewrite client_Get_eq by done. unfold statefulset_ready. rewrite Hf.
  destruct (statefulsets w !! (ns, ImageStoreStatefulSetName)) as [ss|]; simpl; [|done].
  by case_bool_decide.
Qed.

Lemma EnsureImageStoreServiceCreated_found ns statefulSet rec w s :
  next_fault w = None →
  services w !! (ns, ImageStoreStatefulSetName) = Some s →
  EnsureImageStoreServiceCreated ns statefulSet rec w
  = (Ok s, logged (call VGet KService (ns, ImageStoreStatefulSetName)) w).
Proof.
  intros Hf Hs. unfold EnsureImageStoreServiceCreated, bind, ret.
  rewrite client_Get_eq by done. by rewrite Hf, Hs.
Qed.

Lemma EnsureImageStoreServiceCreated_ready ns statefulSet rec w :
  store_service_ready ns (EnsureImageStoreServiceCreated ns statefulSet rec w).2
  = store_service_ready ns w.
Proof.
  unfold EnsureImageStoreServiceCreated, bind, ret, Eventf.
  rewrite client_Get_eq by done.
  destruct (next_fault w) as [e|] eqn:Hf; simpl.
  { by rewrite (next_fault_not_found _ _ Hf). }
  destruct (services w !! (ns, ImageStoreStatefulSetName)) as [ss|] eqn:Hs; simpl.
  { unfold store_service_ready. simpl. by rewrite Hs. }
  rewrite client_Create_Service_eq. simpl.
  destruct (next_fault (logged _ w)); simpl.
  { unfold store_service_ready. simpl. by rewrite Hs. }
  unfold key_of. simpl. rewrite Hs. simpl.
  unfold store_service_ready. simpl. rewrite Hs, lookup_insert_eq. done.
Qed.

Lemma IsImageStoreServiceReady_true ns rec w :
  (IsImageStoreServiceReady ns rec w).1 = Ok true → store_service_ready ns w = true.
Proof.
  unfold IsImageStoreServiceReady, bind, ret, Eventf.
  rewrite client_Get_eq by done. unfold store_service_ready.
  destruct (next_fault w) as [e|] eqn:Hf; simpl.
  { by rewrite (next_fault_not_found _ _ Hf). }
  destruct (services w !! (ns, ImageStoreStatefulSetName)) as [ss|]; simpl; [|done].
  by case_bool_decide.
Qed.

Lemma IsImageStoreServiceReady_ready ns rec w :
  next_fault w = None → store_service_ready ns w = true →
  IsImageStoreServiceReady ns rec w
  = (Ok true, logged (call VGet KService (ns, ImageStoreStatefulSetName)) w).
Proof.
  intros Hf. unfold IsImageStoreServiceReady, bind, ret, Eventf.
  rewrite client_Get_eq by done. unfold store_service_ready. rewrite Hf.
  destruct (services w !! (ns, ImageStoreStatefulSetName)) as [ss|]; simpl; [|done].
  by case_bool_decide.
Qed.

(** ** Stage ordering *)

Lemma bind_ok_run {A B} (c : M (res A)) (k : A → M (res B)) w :
  bind_ok c k w =
  match c w with
  | (Ok a, w1) => k a w1
  | (Err e, w1) => (Err e, w1)
  end.
Proof. unfold bind_ok, bind, ret. by destruct (c w) as [[a|e] w1]. Qed.

Lemma bind_run {A B} (c : M A) (k : A → M B) w :
  bind c k w = k (c w).1 (c w).2.
Proof. unfold bind. by destruct (c w). Qed.

Lemma touches_statefulset_ready ks ns w w' :
  touches ks w w' → KStatefulSet ∉ ks → statefulset_ready ns w' = statefulset_ready ns w.
Proof. intros H Hk. unfold statefulset_ready. by rewrite (t_statefulsets _ _ _ H). Qed.

Lemma touches_store_service_ready ks ns w w' :
  touches ks w w' → KService ∉ ks → store_service_ready ns w' = store_service_ready ns w.
Proof. intros H Hk. unfold store_service_ready. by rewrite (t_services _ _ _ H). Qed.

Lemma Reconcile_storeService_waits req m rec ss w :
  store_service_ready (req_Namespace req) w = false →
  touches [KService] w (Reconcile_storeService req m rec ss w).2
  ∧ requeues (Reconcile_storeService req m rec ss w).1.
Proof.
  intros Hn. unfold Reconcile_storeService. rewrite bind_ok_run.
  pose proof (keeps_EnsureImageStoreServiceCreated (req_Namespace req) ss rec w) as H1.
  pose proof (EnsureImageStoreServiceCreated_ready (req_Namespace req) ss rec w) as R1.
  destruct (EnsureImageStoreServiceCreated _ _ _ w) as [[s|e] w1]; simpl in *; [|done].
  rewrite bind_ok_run.
  pose proof (keeps_IsImageStoreServiceReady (req_Namespace req) rec w1) as H2.
  pose proof (IsImageStoreServiceReady_true (req_Namespace req) rec w1) as R2.
  destruct (IsImageStoreServiceReady _ _ w1) as [[[|]|e] w2]; simpl in *.
  - rewrite R1, Hn in R2. by specialize (R2 eq_refl).
  - split; [by eapply touches_trans|done].
  - split; [by eapply touches_trans|done].
Qed.

Lemma Reconcile_storeReady_waits req m rec ss w :
  statefulset_ready (req_Namespace req) w && store_service_ready (req_Namespace req) w
  = false →
  touches [KStatefulSet; KService] w (Reconcile_storeReady req m rec ss w).2
  ∧ requeues (Reconcile_storeReady req m rec ss w).1.
Proof.
  intros Hn. unfold Reconcile_storeReady. rewrite bind_ok_run.
  pose proof (keeps_IsImageStoreStatefulSetReady (req_Namespace req) rec w) as H1.
  pose proof (IsImageStoreStatefulSetReady_true (req_Namespace req) rec w) as R1.
  destruct (IsImageStoreStatefulSetReady _ _ w) as [[[|]|e] w1]; simpl in *.
  - rewrite (R1 eq_refl) in Hn. simpl in Hn.
    destruct (Reconcile_storeService_waits req m rec ss w1) as [T R].
    { rewrite (touches_store_service_ready _ _ _ _ H1); [done|kinds]. }
    split; [|done].
    eapply touches_trans; [eapply touches_mono; [|exact H1]; kinds|].
    eapply touches_mono; [|exact T]. kinds.
  - split; [|done]. eapply touches_mono; [|exact H1]; kinds.
  - split; [|done]. eapply touches_mono; [|exact H1]; kinds.
Qed.

Lemma Reconcile_store_waits req m rec w :
  statefulset_ready (req_Namespace req) w && store_service_ready (req_Namespace req) w
  = false →
  touches [KPersistentVolumeClaim; KStatefulSet; KService] w (Reconcile_store req m rec w).2
  ∧ requeues (Reconcile_store req m rec w).1.
Proof.
  intros Hn. unfold Reconcile_store. cbv zeta. rewrite bind_ok_run.
  pose proof (keeps_EnsureImageStorePVCCreated (req_Namespace req)
                (StorageClassName (m_Spec m)) (PersistentVolumeClaim (m_Spec m))
                (PersistentVolume (m_Spec m)) rec w) as H1.
  destruct (EnsureImageStorePVCCreated _ _ _ _ _ w) as [[p|e] w1]; simpl in *;
    [|split; [|done]; eapply touches_mono; [|exact H1]; kinds].
  rewrite bind_ok_run.
  pose proof (keeps_EnsureImageStoreStatefulSetCreated (req_Namespace req) rec w1) as H2.
  pose proof (EnsureImageStoreStatefulSetCreated_ready (req_Namespace req) rec w1) as R2.
  destruct (EnsureImageStoreStatefulSetCreated _ _ w1) as [[ss|e] w2]; simpl in *.
  - destruct (Reconcile_storeReady_waits req m rec ss w2) as [T R].
    { rewrite R2.
      rewrite (touches_store_service_ready _ _ _ _ H2) by kinds.
      rewrite (touches_store_service_ready _ _ _ _ H1) by kinds.
      rewrite (touches_statefulset_ready _ _ _ _ H1) by kinds. done. }
    split; [|done].
    eapply touches_trans; [eapply touches_mono; [|exact H1]; kinds|].
    eapply touches_trans; [eapply touches_mono; [|exact H2]; kinds|].
    eapply touches_mono; [|exact T]. kinds.
  - split; [|done].
    eapply touches_trans; [eapply touches_mono; [|exact H1]; kinds|].
    eapply touches_mono; [|exact H2]; kinds.
Qed.

Lemma Reconcile_fetched_waits req m w :
  statefulset_ready (req_Namespace req) w && store_service_ready (req_Namespace req) w
  = false →
  touches [KModel; KPersistentVolumeClaim; KStatefulSet; KService] w
    (Reconcile_fetched req m w).2
  ∧ requeues (Reconcile_fetched req m w).1.
Proof.
  intros Hn. unfold Reconcile_fetched. cbv zeta.
  assert (∀ w1, touches [KModel] w w1 →
    touches [KModel; KPersistentVolumeClaim; KStatefulSet; KService] w
      (Reconcile_store req m (NewWrappedRecorder m) w1).2
    ∧ requeues (Reconcile_store req m (NewWrappedRecorder m) w1).1) as Hrest.
  { intros w1 H1.
    destruct (Reconcile_store_waits req m (NewWrappedRecorder m) w1) as [T R].
    { rewrite (touches_store_service_ready _ _ _ _ H1) by kinds.
      rewrite (touches_statefulset_ready _ _ _ _ H1) by kinds. done. }
    split; [|done].
    eapply touches_trans; [eapply touches_mono; [|exact H1]; kinds|].
    eapply touches_mono; [|exact T]. kinds. }
  destruct (negb (IsAvailable m)); [|apply Hrest, touches_refl].
  rewrite bind_ok_run.
  pose proof (keeps_SetProgressing m w) as H1.
  destruct (SetProgressing m w) as [[[|]|e] w1]; simpl in H1.
  - rewrite bind_run. split; [|done].
    eapply touches_trans; [eapply touches_mono; [|exact H1]; kinds|].
    eapply touches_mono; [|apply keeps_Eventf; discriminate]. kinds.
  - by apply Hrest.
  - split; [|done]. eapply touches_mono; [|exact H1]; kinds.
Qed.

Lemma Reconcile_waits req w :
  statefulset_ready (req_Namespace req) w && store_service_ready (req_Namespace req) w
  = false →
  touches [KModel; KPersistentVolumeClaim; KStatefulSet; KService] w (Reconcile req w).2
  ∧ (is_Some (models w !! NamespacedName req) → requeues (Reconcile req w).1).
Proof.
  intros Hn. unfold Reconcile. rewrite bind_run.
  pose proof (keeps_client_Get KModel models (NamespacedName req) w) as H1.
  pose proof (client_Get_spec KModel models (NamespacedName req) w) as G.
  destruct (client_Get KModel models (NamespacedName req) w) as [[m|e] w1]; simpl in *.
  - destruct (Reconcile_fetched_waits req m w1) as [T R].
    { rewrite (touches_store_service_ready _ _ _ _ H1) by kinds.
      rewrite (touches_statefulset_ready _ _ _ _ H1) by kinds. done. }
    split; [|done].
    eapply touches_trans; [eapply touches_mono; [|exact H1]; kinds|]. exact T.
  - split; [destruct (IsNotFound e); simpl; (eapply touches_mono; [|exact H1]; kinds)|].
    intros [m Hm]. specialize (G ltac:(done)).
    destruct (next_fault w) as [e'|] eqn:Hf.
    + injection G as ->. unfold IgnoreNotFound.
      by rewrite (next_fault_not_found _ _ Hf).
    + by rewrite Hm in G.
Qed.

Lemma IsImageStoreStatefulSetReady_false ns rec w :
  (IsImageStoreStatefulSetReady ns rec w).1 = Ok false → statefulset_ready ns w = false.
Proof.
  unfold IsImageStoreStatefulSetReady, bind, ret, Eventf.
  rewrite client_Get_eq by done. unfold statefulset_ready.
  destruct (next_fault w) as [e|] eqn:Hf; simpl.
  { by rewrite (next_fault_not_found _ _ Hf). }
  destruct (statefulsets w !! (ns, ImageStoreStatefulSetName)) as [ss|]; simpl; [|done].
  by case_bool_decide.
Qed.

Lemma IsImageStoreServiceReady_false ns rec w :
  (IsImageStoreServiceReady ns rec w).1 = Ok false → store_service_ready ns w = false.
Proof.
  unfold IsImageStoreServiceReady, bind, ret, Eventf.
  rewrite client_Get_eq by done. unfold store_service_ready.
  destruct (next_fault w) as [e|] eqn:Hf; simpl.
  { by rewrite (next_fault_not_found _ _ Hf). }
  destruct (services w !! (ns, ImageStoreStatefulSetName)) as [ss|]; simpl; [|done].
  by case_bool_decide.
Qed.

Lemma Reconcile_storeReady_not_ready req m rec ss w :
  (IsImageStoreStatefulSetReady (req_Namespace req) rec w).1 = Ok false →
  Reconcile_storeReady req m rec ss w
  = (Ok (requeue_after (Second * 5)),
     (IsImageStoreStatefulSetReady (req_Namespace req) rec w).2).
Proof.
  intros H. unfold Reconcile_storeReady. rewrite bind_ok_run.
  destruct (IsImageStoreStatefulSetReady _ _ w) as [r w1]. simpl in H. by subst r.
Qed.

Lemma Reconcile_storeService_not_ready req m rec ss w s :
  (EnsureImageStoreServiceCreated (req_Namespace req) ss rec w).1 = Ok s →
  let w1 := (EnsureImageStoreServiceCreated (req_Namespace req) ss rec w).2 in
  (IsImageStoreServiceReady (req_Namespace req) rec w1).1 = Ok false →
  Reconcile_storeService req m rec ss w
  = (Ok (requeue_after (Second * 5)),
     (IsImageStoreServiceReady (req_Namespace req) rec w1).2).
Proof.
  intros H w1 H'. unfold Reconcile_storeService. rewrite bind_ok_run. subst w1.
  destruct (EnsureImageStoreServiceCreated _ _ _ w) as [r w1]. simpl in *. subst r.
  rewrite bind_ok_run.
  destruct (IsImageStoreServiceReady _ _ w1) as [r w2]. simpl in H'. by subst r.
Qed.

Lemma EnsureDeploymentCreated_logged ns name image replicas model rec w :
  calls_of KDeployment (EnsureDeploymentCreated ns name image replicas model rec w).2
  ≠ calls_of KDeployment w.
Proof.
  assert (∀ w', (length (calls_of KDeployment w) < length (calls_of KDeployment w'))%nat →
            calls_of KDeployment w' ≠ calls_of KDeployment w) as Hlen.
  { intros w' Hl Heq. rewrite Heq in Hl. lia. }
  assert (∀ c w', call_kind c = KDeployment →
            length (calls_of KDeployment (logged c w'))
            = S (length (calls_of KDeployment w'))) as Hlog.
  { intros c w' Hc. rewrite calls_of_logged. by rewrite decide_True. }
  apply Hlen.
  unfold EnsureDeploymentCreated, bind_ok, bind, ret, Eventf.
  rewrite getDeployment_unfold, client_Get_eq by done.
  destruct (next_fault w) as [e|] eqn:Hf.
  { rewrite (next_fault_not_found _ _ Hf). cbn [snd]. rewrite Hlog by done. lia. }
  destruct (deployments w !! (ns, ModelAppName name)) as [d|] eqn:Hd.
  { cbn [snd]. rewrite Hlog by done. lia. }
  cbn [IsNotFound]. rewrite client_Create_Deployment_eq.
  destruct (next_fault (logged _ w)).
  { cbn [snd]. rewrite !Hlog by done. lia. }
  destruct (deployments (logged _ w) !! _).
  { cbn [snd]. rewrite !Hlog by done. lia. }
  cbn [snd].
  change (calls_of KDeployment (set_events ?e (set_deployments ?d ?w')))
    with (calls_of KDeployment w').
  rewrite !Hlog by done. lia.
Qed.

(** C5.  A pass in which [IsImageStoreStatefulSetReady] or
    [IsImageStoreServiceReady] answers false ends right there with a requeue
    after five seconds.  A pass started while the stateful set or the service
    of the image store is not ready issues no call on a deployment (and every
    call of [EnsureDeploymentCreated] would log one), leaves the deployments
    untouched, and on an existing Model ends in a requeue or an error. *)
Theorem deployment_waits_for_image_store req :
  (∀ m rec ss w,
     (IsImageStoreStatefulSetReady (req_Namespace req) rec w).1 = Ok false →
     statefulset_ready (req_Namespace req) w = false
     ∧ Reconcile_storeReady req m rec ss w
       = (Ok (requeue_after (Second * 5)),
          (IsImageStoreStatefulSetReady (req_Namespace req) rec w).2)
     ∧ calls_of KDeployment (Reconcile_storeReady req m rec ss w).2
       = calls_of KDeployment w)
  ∧ (∀ m rec ss w s,
       (EnsureImageStoreServiceCreated (req_Namespace req) ss rec w).1 = Ok s →
       let w1 := (EnsureImageStoreServiceCreated (req_Namespace req) ss rec w).2 in
       (IsImageStoreServiceReady (req_Namespace req) rec w1).1 = Ok false →
       store_service_ready (req_Namespace req) w = false
       ∧ Reconcile_storeService req m rec ss w
         = (Ok (requeue_after (Second * 5)),
            (IsImageStoreServiceReady (req_Namespace req) rec w1).2)
       ∧ calls_of KDeployment (Reconcile_storeService req m rec ss w).2
         = calls_of KDeployment w)
  ∧ (∀ w,
       statefulset_ready (req_Namespace req) w
       && store_service_ready (req_Namespace req) w = false →
       calls_of KDeployment (Reconcile req w).2 = calls_of KDeployment w
       ∧ deployments (Reconcile req w).2 = deployments w
       ∧ (is_Some (models w !! NamespacedName req) → requeues (Reconcile req w).1))
  ∧ (∀ name image replicas model rec w,
       calls_of KDeployment
         (EnsureDeploymentCreated (req_Namespace req) name image replicas model rec w).2
       ≠ calls_of KDeployment w).
Proof.
  split; [|split; [|split]].
  - intros m rec ss w H.
    pose proof (IsImageStoreStatefulSetReady_false _ _ _ H) as Hn.
    split; [done|]. split; [by apply Reconcile_storeReady_not_ready|].
    destruct (Reconcile_storeReady_waits req m rec ss w) as [T _].
    { by rewrite Hn. }
    apply (t_calls _ _ _ T). kinds.
  - intros m rec ss w s H w1 H'.
    pose proof (IsImageStoreServiceReady_false _ _ _ H') as Hn. subst w1.
    rewrite EnsureImageStoreServiceCreated_ready in Hn.
    split; [done|]. split; [by eapply Reconcile_storeService_not_ready|].
    destruct (Reconcile_storeService_waits req m rec ss w Hn) as [T _].
    apply (t_calls _ _ _ T). kinds.
  - intros w Hn. destruct (Reconcile_waits req w Hn) as [T R].
    split; [apply (t_calls _ _ _ T); kinds|].
    split; [apply (t_deployments _ _ _ T); kinds|done].
  - intros. apply EnsureDeploymentCreated_logged.
Qed.

(** ** Conditions over a pass *)

Lemma status_effect_shift m w w1 w' :
  models w1 = models w → status_effect m w1 w' → status_effect m w w'.
Proof.
  intros Hm [H|old s H1 H2 H3].
  - apply effect_none. congruence.
  - eapply effect_written; [| |exact H3]; rewrite <- Hm; done.
Qed.

Lemma status_effect_after m w w1 w' :
  status_effect m w w1 → models w' = models w1 → status_effect m w w'.
Proof.
  intros [H|old s H1 H2 H3] Hm.
  - apply effect_none. congruence.
  - eapply effect_written; [exact H1| |exact H3]. congruence.
Qed.

Lemma Eventf_models rec ty reason msg w :
  models (Eventf rec ty reason msg w).2 = models w.
Proof. done. Qed.

Lemma Reconcile_available_status m rec w :
  status_effect m w (Reconcile_available m rec w).2.
Proof.
  unfold Reconcile_available. rewrite bind_ok_run, SetAvailable_unfold.
  pose proof (set_condition_written ModelAvailable m w) as Hw.
  pose proof (set_condition_not_written ModelAvailable m w) as Hn.
  destruct (set_condition ModelAvailable m w) as [[[|]|e] w1]; simpl in *.
  - destruct (Hw eq_refl) as (Ha & old & Ho & Hm).
    try rewrite bind_run; simpl.
    eapply effect_written; [exact Ho|exact Hm|].
    right. right. split; [done|]. by eexists.
  - try rewrite bind_run; simpl. apply effect_none. by apply Hn.
  - apply effect_none. by apply Hn.
Qed.

Lemma Reconcile_counters_status m rec d w :
  status_effect m w (Reconcile_counters m rec d w).2.
Proof.
  destruct (ShouldSetReplicas m (dep_StatusReplicas (d_Status d))
              (dep_ReadyReplicas (d_Status d)) (dep_AvailableReplicas (d_Status d))
              (dep_UnavailableReplicas (d_Status d))) eqn:Hs.
  - rewrite (Reconcile_counters_differ _ _ _ _ Hs).
    pose proof (client_Status_Update_written
                  (set_Counters (dep_StatusReplicas (d_Status d))
                     (dep_ReadyReplicas (d_Status d)) (dep_AvailableReplicas (d_Status d))
                     (dep_UnavailableReplicas (d_Status d)) m) w) as Hw.
    pose proof (client_Status_Update_failed
                  (set_Counters (dep_StatusReplicas (d_Status d))
                     (dep_ReadyReplicas (d_Status d)) (dep_AvailableReplicas (d_Status d))
                     (dep_UnavailableReplicas (d_Status d)) m) w) as Hn.
    destruct (client_Status_Update _ w) as [[e|] w1]; simpl in *.
    + apply effect_none. by eapply Hn.
    + destruct (Hw eq_refl) as (old & Ho & Hm).
      eapply effect_written; [exact Ho|exact Hm|]. by left.
  - rewrite (Reconcile_counters_equal _ _ _ _ Hs). apply Reconcile_available_status.
Qed.

Lemma keeps_models ks {A} (c : M A) w :
  keeps ks c → KModel ∉ ks → models (c w).2 = models w.
Proof. intros H Hk. by apply (t_models _ _ _ (H w)). Qed.

Lemma Reconcile_service_status req m rec d w :
  status_effect m w (Reconcile_service req m rec d w).2.
Proof.
  unfold Reconcile_service. rewrite bind_ok_run.
  pose proof (keeps_models _ _ w (keeps_EnsureServiceCreated (req_Namespace req)
                (req_Name req) d rec) ltac:(kinds)) as H1.
  destruct (EnsureServiceCreated _ _ _ _ w) as [[s|e] w1]; simpl in *;
    [|by apply effect_none].
  rewrite bind_ok_run.
  pose proof (keeps_models _ _ w1 (keeps_IsServiceReady (req_Namespace req)
                (req_Name req) rec) ltac:(kinds)) as H2.
  destruct (IsServiceReady _ _ _ w1) as [[[|]|e] w2]; simpl in *.
  - eapply status_effect_shift; [|apply Reconcile_counters_status]. congruence.
  - apply effect_none. congruence.
  - apply effect_none. congruence.
Qed.

Lemma Reconcile_deployment_status req m rec w :
  status_effect m w (Reconcile_deployment req m rec w).2.
Proof.
  unfold Reconcile_deployment. rewrite bind_ok_run.
  pose proof (keeps_models _ _ w (keeps_EnsureDeploymentCreated (req_Namespace req)
                (req_Name req) (Image (m_Spec m)) (spec_Replicas (m_Spec m)) m rec)
                ltac:(kinds)) as H1.
  destruct (EnsureDeploymentCreated _ _ _ _ _ _ w) as [[d|e] w1]; simpl in *;
    [|by apply effect_none].
  rewrite bind_ok_run.
  pose proof (keeps_models _ _ w1 (keeps_UpdateDeployment m rec) ltac:(kinds)) as H2.
  destruct (UpdateDeployment _ _ w1) as [[[|]|e] w2]; simpl in *;
    [apply effect_none; congruence| |apply effect_none; congruence].
  rewrite bind_ok_run.
  pose proof (keeps_models _ _ w2 (keeps_IsDeploymentReady (req_Namespace req)
                (req_Name req) rec) ltac:(kinds)) as H3.
  destruct (IsDeploymentReady _ _ _ w2) as [[[|]|e] w3]; simpl in *.
  - eapply status_effect_shift; [|apply Reconcile_service_status]. congruence.
  - apply effect_none. congruence.
  - apply effect_none. congruence.
Qed.

Lemma Reconcile_storeService_status req m rec ss w :
  status_effect m w (Reconcile_storeService req m rec ss w).2.
Proof.
  unfold Reconcile_storeService. rewrite bind_ok_run.
  pose proof (keeps_models _ _ w (keeps_EnsureImageStoreServiceCreated
                (req_Namespace req) ss rec) ltac:(kinds)) as H1.
  destruct (EnsureImageStoreServiceCreated _ _ _ w) as [[s|e] w1]; simpl in *;
    [|by apply effect_none].
  rewrite bind_ok_run.
  pose proof (keeps_models _ _ w1 (keeps_IsImageStoreServiceReady
                (req_Namespace req) rec) ltac:(kinds)) as H2.
  destruct (IsImageStoreServiceReady _ _ w1) as [[[|]|e] w2]; simpl in *.
  - eapply status_effect_shift; [|apply Reconcile_deployment_status]. congruence.
  - apply effect_none. congruence.
  - apply effect_none. congruence.
Qed.

Lemma Reconcile_storeReady_status req m rec ss w :
  status_effect m w (Reconcile_storeReady req m rec ss w).2.
Proof.
  unfold Reconcile_storeReady. rewrite bind_ok_run.
  pose proof (keeps_models _ _ w (keeps_IsImageStoreStatefulSetReady
                (req_Namespace req) rec) ltac:(kinds)) as H1.
  destruct (IsImageStoreStatefulSetReady _ _ w) as [[[|]|e] w1]; simpl in *.
  - eapply status_effect_shift; [|apply Reconcile_storeService_status]. congruence.
  - by apply effect_none.
  - by apply effect_none.
Qed.

Lemma Reconcile_store_status req m rec w :
  status_effect m w (Reconcile_store req m rec w).2.
Proof.
  unfold Reconcile_store. cbv zeta. rewrite bind_ok_run.
  pose proof (keeps_models _ _ w (keeps_EnsureImageStorePVCCreated (req_Namespace req)
                (StorageClassName (m_Spec m)) (PersistentVolumeClaim (m_Spec m))
                (PersistentVolume (m_Spec m)) rec) ltac:(kinds)) as H1.
  destruct (EnsureImageStorePVCCreated _ _ _ _ _ w) as [[p|e] w1]; simpl in *;
    [|by apply effect_none].
  rewrite bind_ok_run.
  pose proof (keeps_models _ _ w1 (keeps_EnsureImageStoreStatefulSetCreated
                (req_Namespace req) rec) ltac:(kinds)) as H2.
  destruct (EnsureImageStoreStatefulSetCreated _ _ w1) as [[ss|e] w2]; simpl in *.
  - eapply status_effect_shift; [|apply Reconcile_storeReady_status]. congruence.
  - apply effect_none. congruence.
Qed.

Lemma Reconcile_fetched_status req m w :
  status_effect m w (Reconcile_fetched req m w).2.
Proof.
  unfold Reconcile_fetched. cbv zeta. unfold IsAvailable.
  destruct (has_condition ModelAvailable (Conditions (m_Status m))) eqn:Ha; simpl;
    [apply Reconcile_store_status|].
  rewrite bind_ok_run, SetProgressing_unfold.
  pose proof (set_condition_written ModelProgressing m w) as Hw.
  pose proof (set_condition_not_written ModelProgressing m w) as Hn.
  destruct (set_condition ModelProgressing m w) as [[[|]|e] w1]; simpl in *.
  - destruct (Hw eq_refl) as (Hp & old & Ho & Hm).
    try rewrite bind_run; simpl.
    eapply effect_written; [exact Ho|exact Hm|].
    right. left. split; [done|]. split; [done|]. by eexists.
  - eapply status_effect_shift; [|apply Reconcile_store_status]. by apply Hn.
  - apply effect_none. by apply Hn.
Qed.

Lemma cond_step_of_allowed m s :
  allowed_status m s → cond_step (Conditions (m_Status m)) (Conditions s).
Proof. unfold allowed_status, cond_step. tauto. Qed.

Lemma Reconcile_conditions req w :
  wf_models w →
  wf_models (Reconcile req w).2
  ∧ match model_conditions (NamespacedName req) w with
    | None => model_conditions (NamespacedName req) (Reconcile req w).2 = None
    | Some cs =>
        ∃ cs', model_conditions (NamespacedName req) (Reconcile req w).2 = Some cs'
               ∧ cond_step cs cs'
    end.
Proof.
  intros Hwf.
  assert (∀ w', models w' = models w →
    wf_models w'
    ∧ match model_conditions (NamespacedName req) w with
      | None => model_conditions (NamespacedName req) w' = None
      | Some cs =>
          ∃ cs', model_conditions (NamespacedName req) w' = Some cs' ∧ cond_step cs cs'
      end) as Hsame.
  { intros w' Hm. split; [unfold wf_models; by rewrite Hm|].
    unfold model_conditions. rewrite Hm.
    destruct (models w !! NamespacedName req); simpl; [|done].
    eexists. split; [done|]. by left. }
  unfold Reconcile. rewrite bind_run, client_Get_eq by done. cbn [fst snd].
  destruct (next_fault w) as [e|] eqn:Hf.
  { unfold IgnoreNotFound. rewrite (next_fault_not_found _ _ Hf). by apply Hsame. }
  destruct (models w !! NamespacedName req) as [m|] eqn:Hm; [|by apply Hsame].
  pose proof (Reconcile_fetched_status req m
                (logged (call VGet KModel (NamespacedName req)) w)) as He.
  destruct He as [He|old s Ho Hw Ha]; [by apply Hsame|].
  pose proof (Hwf _ _ Hm) as Hk. rewrite Hk in Ho, Hw. simpl in Ho, Hw.
  assert (old = m) as -> by congruence.
  split.
  - intros k x. rewrite Hw. destruct (decide (k = NamespacedName req)) as [->|Hne].
    + rewrite lookup_insert_eq. by intros [= <-].
    + rewrite lookup_insert_ne by done. apply Hwf.
  - unfold model_conditions. rewrite Hm, Hw, lookup_insert_eq. simpl.
    eexists. split; [done|]. by apply cond_step_of_allowed.
Qed.

Lemma has_condition_singleton ty ty' t :
  has_condition ty [condition_at ty' t] = bool_decide (ty' = ty).
Proof.
  unfold has_condition. rewrite filter_cons. simpl.
  destruct (decide (ty' = ty)) as [->|Hne].
  - rewrite (bool_decide_eq_true_2 (ty = ty)) by done.
    apply bool_decide_eq_true_2. simpl. lia.
  - rewrite (bool_decide_eq_false_2 (ty' = ty)) by done.
    apply bool_decide_eq_false_2. simpl. lia.
Qed.

Lemma count_type_singleton ty c : (count_type ty [c] ≤ 1)%nat.
Proof.
  unfold count_type. rewrite filter_cons. destruct (decide _); simpl; lia.
Qed.

Lemma conditions_kept_refl cs : conditions_kept cs cs.
Proof. unfold conditions_kept. split; [done|]. split; [done|]. intros ty. lia. Qed.

Lemma conditions_kept_trans cs1 cs2 cs3 :
  conditions_kept cs1 cs2 → conditions_kept cs2 cs3 → conditions_kept cs1 cs3.
Proof.
  intros (A1 & P1 & O1) (A2 & P2 & O2). split; [|split].
  - intros H. pose proof (A1 H) as ->. by apply A2.
  - auto.
  - intros ty. specialize (O1 ty). specialize (O2 ty). lia.
Qed.

Lemma cond_step_kept cs cs' : cond_step cs cs' → conditions_kept cs cs'.
Proof.
  intros [->|[(Ha & Hp & t & ->)|(Ha & t & ->)]].
  - apply conditions_kept_refl.
  - split; [|split].
    + congruence.
    + intros _. left. by rewrite has_condition_singleton.
    + intros ty. pose proof (count_type_singleton ty (condition_at ModelProgressing t)).
      lia.
  - split; [|split].
    + congruence.
    + intros _. right. by rewrite has_condition_singleton.
    + intros ty. pose proof (count_type_singleton ty (condition_at ModelAvailable t)).
      lia.
Qed.

Lemma step_conditions req w w' :
  wf_models w → step req w w' →
  wf_models w'
  ∧ match model_conditions (NamespacedName req) w with
    | None => model_conditions (NamespacedName req) w' = None
    | Some cs =>
        ∃ cs', model_conditions (NamespacedName req) w' = Some cs'
               ∧ conditions_kept cs cs'
    end.
Proof.
  intros Hwf [|w2 Hwf' Hc].
  - destruct (Reconcile_conditions req w Hwf) as [H1 H2]. split; [done|].
    destruct (model_conditions (NamespacedName req) w); [|done].
    destruct H2 as (cs' & ? & ?). exists cs'. split; [done|]. by apply cond_step_kept.
  - split; [done|]. rewrite Hc.
    destruct (model_conditions (NamespacedName req) w); [|done].
    eexists. split; [done|]. apply conditions_kept_refl.
Qed.

Lemma steps_conditions req w w' :
  rtc (step req) w w' → wf_models w →
  wf_models w'
  ∧ match model_conditions (NamespacedName req) w with
    | None => model_conditions (NamespacedName req) w' = None
    | Some cs =>
        ∃ cs', model_conditions (NamespacedName req) w' = Some cs'
               ∧ conditions_kept cs cs'
    end.
Proof.
  induction 1 as [w|w w1 w' Hs _ IH]; intros Hwf.
  - split; [done|].
    destruct (model_conditions (NamespacedName req) w); [|done].
    eexists. split; [done|]. apply conditions_kept_refl.
  - destruct (step_conditions req w w1 Hwf Hs) as [Hwf1 H1].
    destruct (IH Hwf1) as [Hwf' H2]. split; [done|].
    destruct (model_conditions (NamespacedName req) w) as [cs|].
    + destruct H1 as (cs1 & E1 & K1). rewrite E1 in H2.
      destruct H2 as (cs' & E2 & K2). exists cs'. split; [done|].
      by eapply conditions_kept_trans.
    + by rewrite H1 in H2.
Qed.

(** C1, amended.  Over any history of passes on a Model that stays stored
    under its name: once Available is in the condition list the list no longer
    changes; once Progressing is in the list, every later list holds
    Progressing or Available (the pass that sets Available replaces the list,
    so Progressing is then gone); no pass adds a second condition of a type;
    and so a list with at most one condition of each type keeps that
    property. *)
Theorem conditions_over_passes req w w' cs :
  wf_models w →
  rtc (step req) w w' →
  model_conditions (NamespacedName req) w = Some cs →
  ∃ cs', model_conditions (NamespacedName req) w' = Some cs'
    ∧ (has_condition ModelAvailable cs = true →
       cs' = cs ∧ has_condition ModelAvailable cs' = true)
    ∧ (has_condition ModelProgressing cs = true →
       has_condition ModelProgressing cs' = true
       ∨ has_condition ModelAvailable cs' = true)
    ∧ (∀ ty, (count_type ty cs' ≤ 1 `max` count_type ty cs)%nat)
    ∧ (at_most_once cs → at_most_once cs').
Proof.
  intros Hwf Hs Hc. destruct (steps_conditions req w w' Hs Hwf) as [_ H].
  rewrite Hc in H. destruct H as (cs' & E & A & P & O).
  exists cs'. split; [done|]. split; [|split; [|split]].
  - intros Ha. split; [by apply A|]. by rewrite (A Ha).
  - intros Hp. apply P. by left.
  - done.
  - intros Ho ty. specialize (O ty). specialize (Ho ty). lia.
Qed.

(** ** A Model that is gone *)

Lemma client_Status_Update_removed m w :
  next_fault w = None →
  models w !! key_of (m_meta m) = None →
  client_Status_Update m w = (Some ErrNotFound, logged (status_write m) w).
Proof.
  intros Hf Hm. unfold client_Status_Update, api_call, bind, ret.
  rewrite Hf. simpl. by rewrite Hm.
Qed.

Lemma Reconcile_not_found req w e :
  (client_Get KModel models (NamespacedName req) w).1 = Err e →
  IsNotFound e = true →
  Reconcile req w = (Ok Result_zero, logged (call VGet KModel (NamespacedName req)) w).
Proof.
  unfold Reconcile. rewrite bind_run, client_Get_eq by done. cbn [fst snd].
  intros -> He. unfold IgnoreNotFound. by rewrite He.
Qed.

Lemma Reconcile_absent req w :
  next_fault w = None →
  models w !! NamespacedName req = None →
  Reconcile req w = (Ok Result_zero, logged (call VGet KModel (NamespacedName req)) w).
Proof.
  intros Hf Hm. apply (Reconcile_not_found req w ErrNotFound); [|done].
  rewrite client_Get_spec by done. by rewrite Hf, Hm.
Qed.

Lemma set_condition_removed ty m w :
  next_fault w = None →
  models w !! key_of (m_meta m) = None →
  has_condition ty (Conditions (m_Status m)) = false →
  set_condition ty m w = (Err ErrNotFound, logged (status_write m) w).
Proof.
  intros Hf Hm Hc. unfold set_condition. rewrite Hc.
  by rewrite client_Status_Update_removed.
Qed.

(** C6, amended.  A not-found answer on the fetch ends the pass as a success
    with no requeue, no write and no notification.  A Model removed after the
    fetch is not treated specially: the pass goes on with the fetched copy,
    and the status write it attempts (setting Progressing, refreshing the
    counters or setting Available) fails with not-found, which is returned to
    the scheduler as the error of the pass. *)
Theorem removed_model_handling req :
  (∀ w e,
     (client_Get KModel models (NamespacedName req) w).1 = Err e →
     IsNotFound e = true →
     Reconcile req w
     = (Ok Result_zero, logged (call VGet KModel (NamespacedName req)) w))
  ∧ (∀ w,
       next_fault w = None →
       models w !! NamespacedName req = None →
       Reconcile req w
       = (Ok Result_zero, logged (call VGet KModel (NamespacedName req)) w))
  ∧ (∀ m w,
       next_fault w = None →
       models w !! key_of (m_meta m) = None →
       IsAvailable m = false →
       IsProgressing m = false →
       Reconcile_fetched req m w = (Err ErrNotFound, logged (status_write m) w))
  ∧ (∀ m rec d w,
       next_fault w = None →
       models w !! key_of (m_meta m) = None →
       ShouldSetReplicas m (dep_StatusReplicas (d_Status d))
         (dep_ReadyReplicas (d_Status d)) (dep_AvailableReplicas (d_Status d))
         (dep_UnavailableReplicas (d_Status d)) = true →
       Reconcile_counters m rec d w = (Err ErrNotFound, logged (status_write m) w))
  ∧ (∀ m rec w,
       next_fault w = None →
       models w !! key_of (m_meta m) = None →
       IsAvailable m = false →
       Reconcile_available m rec w = (Err ErrNotFound, logged (status_write m) w)).
Proof.
  split; [apply Reconcile_not_found|]. split; [apply Reconcile_absent|].
  split; [|split].
  - intros m w Hf Hm Ha Hp. unfold Reconcile_fetched. cbv zeta. rewrite Ha. simpl.
    rewrite bind_ok_run, SetProgressing_unfold.
    by rewrite set_condition_removed.
  - intros m rec d w Hf Hm Hs. rewrite (Reconcile_counters_differ _ _ _ _ Hs).
    by rewrite client_Status_Update_removed.
  - intros m rec w Hf Hm Ha. unfold Reconcile_available.
    rewrite bind_ok_run, SetAvailable_unfold.
    by rewrite set_condition_removed.
Qed.

(** ** Drift correction *)

Lemma UpdateDeployment_fault model rec w e :
  next_fault w = Some e →
  UpdateDeployment model rec w
  = (Err e, logged (call VGet KDeployment
                      (Namespace (m_meta model), ModelAppName (Name (m_meta model)))) w).
Proof.
  intros Hf. unfold UpdateDeployment. rewrite bind_ok_run.
  rewrite getDeployment_unfold, client_Get_eq by done. rewrite Hf.
  by rewrite (next_fault_not_found _ _ Hf).
Qed.

Lemma UpdateDeployment_drift model rec w d R1 :
  next_fault w = None →
  deployments w !! (Namespace (m_meta model), ModelAppName (Name (m_meta model))) = Some d →
  dep_Replicas (d_Spec d) = Some R1 →
  R1 ≠ replicas_of model →
  UpdateDeployment model rec w =
  match client_Update_Deployment
          (set_dep_Replicas (Some (int32_of_int (replicas_of model))) d)
          (logged (call VGet KDeployment
                     (Namespace (m_meta model), ModelAppName (Name (m_meta model)))) w)
  with
  | (Some e, w') => (Err e, w')
  | (None, w') =>
      (Ok true,
       set_events
         (ModelScaled rec (dep_StatusReplicas (d_Status d)) (replicas_of model)
          :: events w') w')
  end.
Proof.
  intros Hf Hd Hr Hne. unfold UpdateDeployment. rewrite bind_ok_run.
  rewrite getDeployment_unfold, client_Get_eq by done. rewrite Hf, Hd, Hr.
  change (match spec_Replicas (m_Spec model) with
          | Some r => int_of_int32 r
          | None => 1
          end) with (replicas_of model).
  unfold int_of_int32. rewrite bool_decide_eq_false_2 by done.
  rewrite bind_run.
  destruct (client_Update_Deployment _ _) as [[e|] w']; reflexivity.
Qed.

Lemma client_Update_Deployment_eq d w :
  client_Update_Deployment d w =
  match next_fault w with
  | Some e => (Some e, logged (call VUpdate KDeployment (key_of (d_meta d))) w)
  | None =>
      match deployments w !! key_of (d_meta d) with
      | None => (Some ErrNotFound, logged (call VUpdate KDeployment (key_of (d_meta d))) w)
      | Some old =>
          (None,
           set_deployments
             (<[key_of (d_meta d) :=
                  {| d_meta := d_meta d; d_Spec := d_Spec d; d_Status := d_Status old |}]>
                (deployments w))
             (logged (call VUpdate KDeployment (key_of (d_meta d))) w))
      end
  end.
Proof.
  unfold client_Update_Deployment, api_call, bind, ret.
  destruct (next_fault w); [done|]. simpl. by destruct (deployments w !! _).
Qed.

Lemma UpdateDeployment_not_false model rec w d R1 :
  deployments w !! (Namespace (m_meta model), ModelAppName (Name (m_meta model))) = Some d →
  dep_Replicas (d_Spec d) = Some R1 →
  R1 ≠ replicas_of model →
  (UpdateDeployment model rec w).1 ≠ Ok false.
Proof.
  intros Hd Hr Hne. destruct (next_fault w) as [e|] eqn:Hf.
  - by rewrite (UpdateDeployment_fault _ _ _ _ Hf).
  - rewrite (UpdateDeployment_drift _ _ _ _ _ Hf Hd Hr Hne).
    by destruct (client_Update_Deployment _ _) as [[e|] w'].
Qed.

Section Drift.

Context (req : Request) (m : Model) (d : Deployment) (R1 : Z).
Context (Hkey : key_of (m_meta m) = NamespacedName req).
Context (Hreplicas : dep_Replicas (d_Spec d) = Some R1).
Context (Hdrift : R1 ≠ replicas_of m).

Lemma Reconcile_deployment_drifted rec w :
  deployments w !! deployment_key req = Some d →
  touches [KDeployment] w (Reconcile_deployment req m rec w).2
  ∧ requeues (Reconcile_deployment req m rec w).1.
Proof using Hkey Hreplicas Hdrift.
  intros Hd. unfold Reconcile_deployment. rewrite bind_ok_run.
  pose proof (keeps_EnsureDeploymentCreated (req_Namespace req) (req_Name req)
                (Image (m_Spec m)) (spec_Replicas (m_Spec m)) m rec w) as T1.
  destruct (next_fault w) as [e|] eqn:Hf.
  { rewrite (EnsureDeploymentCreated_fault _ _ _ _ _ _ _ _ Hf) in *. done. }
  rewrite (EnsureDeploymentCreated_found _ _ _ _ _ _ _ _ Hf Hd) in *.
  cbn [fst snd] in *. rewrite bind_ok_run.
  set (w1 := logged (call VGet KDeployment (req_Namespace req, ModelAppName (req_Name req))) w)
    in *.
  pose proof (keeps_UpdateDeployment m rec w1) as T2.
  assert (deployments w1 !! (Namespace (m_meta m), ModelAppName (Name (m_meta m)))
          = Some d) as Hd1.
  { injection Hkey as -> ->. exact Hd. }
  pose proof (UpdateDeployment_not_false m rec w1 d R1 Hd1 Hreplicas Hdrift) as N.
  destruct (UpdateDeployment m rec w1) as [[[|]|e] w2]; cbn [fst snd] in *.
  - split; [by eapply touches_trans|done].
  - done.
  - split; [by eapply touches_trans|done].
Qed.

Lemma Reconcile_storeService_drifted rec ss w :
  deployments w !! deployment_key req = Some d →
  touches [KService; KDeployment] w (Reconcile_storeService req m rec ss w).2
  ∧ requeues (Reconcile_storeService req m rec ss w).1.
Proof using Hkey Hreplicas Hdrift.
  intros Hd. unfold Reconcile_storeService. rewrite bind_ok_run.
  pose proof (keeps_EnsureImageStoreServiceCreated (req_Namespace req) ss rec w) as H1.
  destruct (EnsureImageStoreServiceCreated _ _ _ w) as [[s|e] w1]; cbn [fst snd] in *;
    [|split; [|done]; eapply touches_mono; [|exact H1]; kinds].
  rewrite bind_ok_run.
  pose proof (keeps_IsImageStoreServiceReady (req_Namespace req) rec w1) as H2.
  destruct (IsImageStoreServiceReady _ _ w1) as [[[|]|e] w2]; cbn [fst snd negb] in *.
  - destruct (Reconcile_deployment_drifted rec w2) as [T R].
    { rewrite (t_deployments _ _ _ H2), (t_deployments _ _ _ H1) by kinds. done. }
    split; [|done].
    eapply touches_trans; [eapply touches_mono; [|exact H1]; kinds|].
    eapply touches_trans; [eapply touches_mono; [|exact H2]; kinds|].
    eapply touches_mono; [|exact T]. kinds.
  - split; [|done].
    eapply touches_trans; [eapply touches_mono; [|exact H1]; kinds|].
    eapply touches_mono; [|exact H2]; kinds.
  - split; [|done].
    eapply touches_trans; [eapply touches_mono; [|exact H1]; kinds|].
    eapply touches_mono; [|exact H2]; kinds.
Qed.

Lemma Reconcile_storeReady_drifted rec ss w :
  deployments w !! deployment_key req = Some d →
  touches [KStatefulSet; KService; KDeployment] w (Reconcile_storeReady req m rec ss w).2
  ∧ requeues (Reconcile_storeReady req m rec ss w).1.
Proof using Hkey Hreplicas Hdrift.
  intros Hd. unfold Reconcile_storeReady. rewrite bind_ok_run.
  pose proof (keeps_IsImageStoreStatefulSetReady (req_Namespace req) rec w) as H1.
  destruct (IsImageStoreStatefulSetReady _ _ w) as [[[|]|e] w1]; cbn [fst snd negb] in *.
  - destruct (Reconcile_storeService_drifted rec ss w1) as [T R].
    { rewrite (t_deployments _ _ _ H1) by kinds. done. }
    split; [|done].
    eapply touches_trans; [eapply touches_mono; [|exact H1]; kinds|].
    eapply touches_mono; [|exact T]. kinds.
  - split; [|done]. eapply touches_mono; [|exact H1]; kinds.
  - split; [|done]. eapply touches_mono; [|exact H1]; kinds.
Qed.

Lemma Reconcile_store_drifted rec w :
  deployments w !! deployment_key req = Some d →
  touches [KPersistentVolumeClaim; KStatefulSet; KService; KDeployment] w
    (Reconcile_store req m rec w).2
  ∧ requeues (Reconcile_store req m rec w).1.
Proof using Hkey Hreplicas Hdrift.
  intros Hd. unfold Reconcile_store. cbv zeta. rewrite bind_ok_run.
  pose proof (keeps_EnsureImageStorePVCCreated (req_Namespace req)
                (StorageClassName (m_Spec m)) (PersistentVolumeClaim (m_Spec m))
                (PersistentVolume (m_Spec m)) rec w) as H1.
  destruct (EnsureImageStorePVCCreated _ _ _ _ _ w) as [[p|e] w1]; cbn [fst snd] in *;
    [|split; [|done]; eapply touches_mono; [|exact H1]; kinds].
  rewrite bind_ok_run.
  pose proof (keeps_EnsureImageStoreStatefulSetCreated (req_Namespace req) rec w1) as H2.
  destruct (EnsureImageStoreStatefulSetCreated _ _ w1) as [[ss|e] w2]; cbn [fst snd] in *.
  - destruct (Reconcile_storeReady_drifted rec ss w2) as [T R].
    { rewrite (t_deployments _ _ _ H2), (t_deployments _ _ _ H1) by kinds. done. }
    split; [|done].
    eapply touches_trans; [eapply touches_mono; [|exact H1]; kinds|].
    eapply touches_trans; [eapply touches_mono; [|exact H2]; kinds|].
    eapply touches_mono; [|exact T]. kinds.
  - split; [|done].
    eapply touches_trans; [eapply touches_mono; [|exact H1]; kinds|].
    eapply touches_mono; [|exact H2]; kinds.
Qed.

Lemma Reconcile_fetched_drifted w :
  deployments w !! deployment_key req = Some d →
  avail_events (Reconcile_fetched req m w).2 = avail_events w
  ∧ requeues (Reconcile_fetched req m w).1
  ∧ (models (Reconcile_fetched req m w).2 = models w
     ∨ ∃ old s,
         models w !! key_of (m_meta m) = Some old
         ∧ models (Reconcile_fetched req m w).2
           = <[key_of (m_meta m) := with_status s old]> (models w)
         ∧ has_condition ModelAvailable (Conditions (m_Status m)) = false
         ∧ ∃ t, Conditions s = [condition_at ModelProgressing t]).
Proof using Hkey Hreplicas Hdrift.
  intros Hd. unfold Reconcile_fetched. cbv zeta.
  assert (∀ w1, touches [KModel] w w1 → models w1 = models w →
    avail_events (Reconcile_store req m (NewWrappedRecorder m) w1).2 = avail_events w
    ∧ requeues (Reconcile_store req m (NewWrappedRecorder m) w1).1
    ∧ models (Reconcile_store req m (NewWrappedRecorder m) w1).2 = models w) as Hrest.
  { intros w1 H1 Hm.
    destruct (Reconcile_store_drifted (NewWrappedRecorder m) w1) as [T R].
    { rewrite (t_deployments _ _ _ H1) by kinds. done. }
    split; [by rewrite (t_events _ _ _ T), (t_events _ _ _ H1)|].
    split; [done|]. rewrite (t_models _ _ _ T) by kinds. done. }
  unfold IsAvailable.
  destruct (has_condition ModelAvailable (Conditions (m_Status m))) eqn:Ha; cbn [negb].
  { destruct (Hrest w (touches_refl _ _) eq_refl) as (? & ? & ?). auto. }
  rewrite bind_ok_run.
  pose proof (keeps_SetProgressing m w) as H1.
  rewrite SetProgressing_unfold in *.
  pose proof (set_condition_written ModelProgressing m w) as Hw.
  pose proof (set_condition_not_written ModelProgressing m w) as Hn.
  destruct (set_condition ModelProgressing m w) as [[[|]|e] w1]; cbn [fst snd] in *.
  - destruct (Hw eq_refl) as (Hp & old & Ho & Hm).
    rewrite bind_run. cbn [fst snd].
    split; [|split; [done|]].
    + rewrite <- (t_events _ _ _ H1).
      apply (t_events _ _ _
               (keeps_Eventf (NewWrappedRecorder m) "Normal" "ModelProgressing"
                  "Model is progressing" ltac:(discriminate) w1)).
    + right. exists old. eexists. split; [done|]. split; [exact Hm|]. split; [done|].
      by eexists.
  - destruct (Hrest w1 H1 (Hn ltac:(done))) as (? & ? & ?). auto.
  - split; [apply (t_events _ _ _ H1)|]. split; [done|]. left. by apply Hn.
Qed.

End Drift.

Lemma Reconcile_drifted req w m d R1 :
  wf_models w →
  models w !! NamespacedName req = Some m →
  deployments w !! deployment_key req = Some d →
  dep_Replicas (d_Spec d) = Some R1 →
  R1 ≠ replicas_of m →
  avail_events (Reconcile req w).2 = avail_events w
  ∧ requeues (Reconcile req w).1
  ∧ ∃ cs', model_conditions (NamespacedName req) (Reconcile req w).2 = Some cs'
           ∧ has_condition ModelAvailable cs'
             = has_condition ModelAvailable (Conditions (m_Status m)).
Proof.
  intros Hwf Hm Hd Hr Hne.
  unfold Reconcile. rewrite bind_run, client_Get_eq by done. cbn [fst snd].
  destruct (next_fault w) as [e|] eqn:Hf.
  { unfold IgnoreNotFound. rewrite (next_fault_not_found _ _ Hf). cbn.
    split; [done|]. split; [done|]. unfold model_conditions.
    cbn [models logged set_faults set_calls]. rewrite Hm. by eexists. }
  rewrite Hm.
  destruct (Reconcile_fetched_drifted req m d R1 (Hwf _ _ Hm) Hr Hne
              (logged (call VGet KModel (NamespacedName req)) w) Hd)
    as (He & Hq & Hmod).
  split; [done|]. split; [done|].
  unfold model_conditions.
  destruct Hmod as [->|(old & s & Ho & -> & Ha & t & Hs)].
  - cbn. rewrite Hm. by eexists.
  - rewrite (Hwf _ _ Hm). rewrite lookup_insert_eq. cbn. rewrite Hs.
    eexists. split; [done|]. rewrite Ha. by rewrite has_condition_singleton.
Qed.

Lemma next_fault_calm w : faults w = [] → next_fault w = None.
Proof. unfold next_fault. by intros ->. Qed.

Lemma faults_logged c w : faults w = [] → faults (logged c w) = [].
Proof. unfold logged. simpl. by intros ->. Qed.

Lemma client_Create_PersistentVolumeClaim_eq o w :
  client_Create KPersistentVolumeClaim pvcs set_pvcs pvc_meta o w =
  match next_fault w with
  | Some e => (Some e, logged (call VCreate KPersistentVolumeClaim (key_of (pvc_meta o))) w)
  | None =>
      match pvcs w !! key_of (pvc_meta o) with
      | Some _ =>
          (Some ErrAlreadyExists,
           logged (call VCreate KPersistentVolumeClaim (key_of (pvc_meta o))) w)
      | None =>
          (None, set_pvcs (<[key_of (pvc_meta o) := o]> (pvcs w))
                   (logged (call VCreate KPersistentVolumeClaim (key_of (pvc_meta o))) w))
      end
  end.
Proof.
  unfold client_Create, api_call, bind, ret.
  destruct (next_fault w); [done|]. simpl. by destruct (pvcs w !! _).
Qed.

Lemma EnsureImageStorePVCCreated_calm ns sc pvc pv rec w :
  faults w = [] → ∃ p, (EnsureImageStorePVCCreated ns sc pvc pv rec w).1 = Ok p.
Proof.
  intros Hf. unfold EnsureImageStorePVCCreated, bind, ret, Eventf.
  rewrite client_Get_eq by done. rewrite (next_fault_calm _ Hf). cbn [fst snd].
  destruct (pvcs w !! (ns, imageStorePVCName)) as [p|] eqn:Hp; [by eexists|].
  cbn [IsNotFound]. rewrite client_Create_PersistentVolumeClaim_eq.
  rewrite (next_fault_calm _ (faults_logged _ _ Hf)).
  unfold key_of. cbn [pvc_meta Name Namespace pvcs logged set_faults set_calls].
  rewrite Hp. by eexists.
Qed.

Lemma Reconcile_calm_path req w m :
  faults w = [] →
  models w !! NamespacedName req = Some m →
  IsAvailable m = true ∨ IsProgressing m = true →
  statefulset_ready (req_Namespace req) w = true →
  store_service_ready (req_Namespace req) w = true →
  ∃ w1, Reconcile req w = Reconcile_deployment req m (NewWrappedRecorder m) w1
        ∧ faults w1 = []
        ∧ touches [KModel; KPersistentVolumeClaim; KStatefulSet; KService] w w1
        ∧ models w1 = models w.
Proof.
  intros Hf Hm Hc Hss Hsvc.
  unfold Reconcile. rewrite bind_run, client_Get_eq by done. cbn [fst snd].
  rewrite (next_fault_calm _ Hf), Hm.
  set (w0 := logged (call VGet KModel (NamespacedName req)) w).
  assert (touches [KModel] w w0) as T0.
  { apply (keeps_api_call VGet KModel (NamespacedName req) w). }
  assert (faults w0 = []) as Hf0 by (by apply faults_logged).
  assert (Reconcile_fetched req m w0 = Reconcile_store req m (NewWrappedRecorder m) w0)
    as ->.
  { unfold Reconcile_fetched. cbv zeta.
    destruct (IsAvailable m) eqn:Ha; cbn [negb]; [done|].
    destruct Hc as [?|Hp]; [done|].
    rewrite bind_ok_run, SetProgressing_unfold. unfold set_condition.
    unfold IsProgressing in Hp. by rewrite Hp. }
  unfold Reconcile_store. cbv zeta. rewrite bind_ok_run.
  pose proof (keeps_EnsureImageStorePVCCreated (req_Namespace req)
                (StorageClassName (m_Spec m)) (PersistentVolumeClaim (m_Spec m))
                (PersistentVolume (m_Spec m)) (NewWrappedRecorder m) w0) as T1.
  destruct (EnsureImageStorePVCCreated_calm (req_Namespace req)
              (StorageClassName (m_Spec m)) (PersistentVolumeClaim (m_Spec m))
              (PersistentVolume (m_Spec m)) (NewWrappedRecorder m) w0 Hf0) as [p Hp].
  destruct (EnsureImageStorePVCCreated _ _ _ _ _ w0) as [r w1]. cbn [fst snd] in *.
  subst r.
  assert (faults w1 = []) as Hf1 by (by apply (t_faults _ _ _ T1)).
  assert (statefulset_ready (req_Namespace req) w1 = true) as Hss1.
  { rewrite (touches_statefulset_ready _ _ _ _ T1) by kinds.
    by rewrite (touches_statefulset_ready _ _ _ _ T0) by kinds. }
  assert (store_service_ready (req_Namespace req) w1 = true) as Hsvc1.
  { rewrite (touches_store_service_ready _ _ _ _ T1) by kinds.
    by rewrite (touches_store_service_ready _ _ _ _ T0) by kinds. }
  rewrite bind_ok_run.
  unfold statefulset_ready in Hss1.
  destruct (statefulsets w1 !! (req_Namespace req, ImageStoreStatefulSetName))
    as [ss|] eqn:Hs1; [|done].
  rewrite (EnsureImageStoreStatefulSetCreated_found _ _ _ _ (next_fault_calm _ Hf1) Hs1).
  set (w2 := logged (call VGet KStatefulSet (req_Namespace req, ImageStoreStatefulSetName))
               w1).
  unfold Reconcile_storeReady. rewrite bind_ok_run.
  rewrite IsImageStoreStatefulSetReady_ready;
    [|by apply next_fault_calm, faults_logged
     |unfold statefulset_ready; cbn; by rewrite Hs1].
  cbn [negb].
  set (w3 := logged (call VGet KStatefulSet (req_Namespace req, ImageStoreStatefulSetName))
               w2).
  unfold Reconcile_storeService. rewrite bind_ok_run.
  unfold store_service_ready in Hsvc1.
  destruct (services w1 !! (req_Namespace req, ImageStoreStatefulSetName))
    as [s|] eqn:Hv1; [|done].
  rewrite (EnsureImageStoreServiceCreated_found _ _ _ w3 s);
    [|by apply next_fault_calm; repeat apply faults_logged|exact Hv1].
  rewrite bind_ok_run.
  rewrite IsImageStoreServiceReady_ready;
    [|by apply next_fault_calm; repeat apply faults_logged
     |unfold store_service_ready; cbn; by rewrite Hv1].
  cbn [negb].
  eexists. split; [reflexivity|]. split; [by repeat apply faults_logged|].
  split.
  - eapply touches_trans; [eapply touches_mono; [|exact T0]; kinds|].
    eapply touches_trans; [eapply touches_mono; [|exact T1]; kinds|].
    eapply touches_trans;
      [eapply touches_mono; [|apply (keeps_api_call VGet KStatefulSet)]; kinds|].
    eapply touches_trans;
      [eapply touches_mono; [|apply (keeps_api_call VGet KStatefulSet)]; kinds|].
    eapply touches_trans;
      [eapply touches_mono; [|apply (keeps_api_call VGet KService)]; kinds|].
    eapply touches_mono; [|apply (keeps_api_call VGet KService)]; kinds.
  - cbn. rewrite (t_models _ _ _ T1) by kinds. done.
Qed.

Lemma Reconcile_deployment_scales req m rec w d R1 :
  faults w = [] →
  key_of (m_meta m) = NamespacedName req →
  deployments w !! deployment_key req = Some d →
  key_of (d_meta d) = deployment_key req →
  dep_Replicas (d_Spec d) = Some R1 →
  R1 ≠ replicas_of m →
  (Reconcile_deployment req m rec w).1 = Ok (requeue_after (Second * 5))
  ∧ deployments (Reconcile_deployment req m rec w).2
    = <[deployment_key req :=
          set_dep_Replicas (Some (int32_of_int (replicas_of m))) d]> (deployments w)
  ∧ events (Reconcile_deployment req m rec w).2
    = ModelScaled rec (dep_StatusReplicas (d_Status d)) (replicas_of m) :: events w
  ∧ calls (Reconcile_deployment req m rec w).2
    = call VUpdate KDeployment (deployment_key req)
      :: call VGet KDeployment (deployment_key req)
      :: call VGet KDeployment (deployment_key req) :: calls w.
Proof.
  intros Hf Hkey Hd Hdk Hr Hne. unfold Reconcile_deployment. rewrite bind_ok_run.
  rewrite (EnsureDeploymentCreated_found _ _ _ _ _ _ _ _ (next_fault_calm _ Hf) Hd).
  rewrite bind_ok_run.
  injection Hkey as Hns Hname.
  rewrite (UpdateDeployment_drift m rec _ d R1);
    [|by apply next_fault_calm, faults_logged|by rewrite Hns, Hname|done|done].
  rewrite client_Update_Deployment_eq.
  rewrite next_fault_calm by (by repeat apply faults_logged).
  rewrite Hns, Hname. cbn [set_dep_Replicas d_meta]. rewrite Hdk.
  cbn [deployments logged set_faults set_calls]. unfold deployment_key in *. rewrite Hd.
  cbn. done.
Qed.

(** C2, amended.  For a stored Model whose deployment exists with a replica
    count other than the one the Model declares: no pass sets the Available
    condition or sends the availability notification, and every pass ends in
    a requeue or an error.  When the Model is already marked Progressing or
    Available, the image store and its service are ready and no client call
    fails, the pass updates the deployment to the declared count, says so, and
    returns a requeue after five seconds. *)
Theorem drift_correction req w m d R1 :
  wf_models w →
  models w !! NamespacedName req = Some m →
  deployments w !! deployment_key req = Some d →
  dep_Replicas (d_Spec d) = Some R1 →
  R1 ≠ replicas_of m →
  (avail_events (Reconcile req w).2 = avail_events w
   ∧ requeues (Reconcile req w).1
   ∧ ∃ cs', model_conditions (NamespacedName req) (Reconcile req w).2 = Some cs'
            ∧ has_condition ModelAvailable cs'
              = has_condition ModelAvailable (Conditions (m_Status m)))
  ∧ (faults w = [] →
     IsAvailable m = true ∨ IsProgressing m = true →
     statefulset_ready (req_Namespace req) w = true →
     store_service_ready (req_Namespace req) w = true →
     key_of (d_meta d) = deployment_key req →
     is_int32 (replicas_of m) →
     (Reconcile req w).1 = Ok (requeue_after (Second * 5))
     ∧ deployments (Reconcile req w).2 !! deployment_key req
       = Some (set_dep_Replicas (Some (replicas_of m)) d)
     ∧ head (events (Reconcile req w).2)
       = Some (ModelScaled (NewWrappedRecorder m) (dep_StatusReplicas (d_Status d))
                 (replicas_of m))
     ∧ head (calls (Reconcile req w).2)
       = Some (call VUpdate KDeployment (deployment_key req))).
Proof.
  intros Hwf Hm Hd Hr Hne. split; [by eapply Reconcile_drifted|].
  intros Hf Hc Hss Hsvc Hdk Hi.
  destruct (Reconcile_calm_path req w m Hf Hm Hc Hss Hsvc) as (w1 & -> & Hf1 & T & _).
  destruct (Reconcile_deployment_scales req m (NewWrappedRecorder m) w1 d R1)
    as (-> & -> & -> & ->); try done.
  - by apply Hwf.
  - rewrite (t_deployments _ _ _ T) by kinds. done.
  - rewrite lookup_insert_eq, int32_of_int_id by done. done.
Qed.

(** ** The definitions at work *)

Lemma ex_world_wf m ready replicas :
  key_of (m_meta m) = ("default", "phi") → wf_models (ex_world m ready replicas).
Proof.
  intros Hk key x. unfold ex_world. cbn [models].
  intros [<- <-]%lookup_singleton_Some. exact Hk.
Qed.

Example ex_pass_marks_available :
  (Reconcile ex_req (ex_world (ex_model [condition_at ModelProgressing 7] 2) 1 2)).1
  = Ok Result_zero.
Proof. vm_compute. reflexivity. Qed.

Example ex_first_pass :
  (Reconcile ex_req ex_fresh).1 = Ok (requeue_after (Second * 1))
  ∧ model_conditions ("default", "phi") (Reconcile ex_req ex_fresh).2
    = Some [condition_at ModelProgressing 100].
Proof. vm_compute. split; reflexivity. Qed.

Example ex_second_pass :
  (Reconcile ex_req (Reconcile ex_req ex_fresh).2).1 = Ok (requeue_after (Second * 5))
  ∧ calls_of KDeployment (Reconcile ex_req (Reconcile ex_req ex_fresh).2).2 = [].
Proof. vm_compute. split; reflexivity. Qed.

(** From a fresh Model to an available one in seven passes: the first marks
    it Progressing, the next five each create what the last one waited for and
    requeue, the sixth refreshes the counters, the seventh marks the Model
    Available, notifies once and asks for no further pass. *)
Example ex_seven_passes :
  map (λ n, (ex_pass n (ex_after (pred n))).1) (seq 1 7)
  = [Ok (requeue_after (Second * 1)); Ok (requeue_after (Second * 5));
     Ok (requeue_after (Second * 5)); Ok (requeue_after (Second * 5));
     Ok (requeue_after (Second * 5)); Ok (requeue_after (Second * 5));
     Ok Result_zero]
  ∧ map (λ n, filter (λ c, c.1 ≠ VGet) (ex_made n)) (seq 1 7)
    = [[(VStatusUpdate, KModel)];
       [(VCreate, KPersistentVolumeClaim); (VCreate, KStatefulSet)];
       [(VCreate, KService)]; [(VCreate, KDeployment)]; [(VCreate, KService)];
       [(VStatusUpdate, KModel)]; [(VStatusUpdate, KModel)]]
  ∧ model_conditions ("default", "phi") (ex_after 6)
    = Some [condition_at ModelProgressing 100]
  ∧ model_conditions ("default", "phi") (ex_after 7)
    = Some [condition_at ModelAvailable 100]
  ∧ avail_events (ex_after 6) = []
  ∧ length (avail_events (ex_after 7)) = 1%nat
  ∧ (dep_Replicas ∘ d_Spec) <$> deployments (ex_after 7) !! ex_app_key = Some (Some 2).
Proof. vm_compute. repeat split; reflexivity. Qed.

(** The claim of C1 as the spec words it fails: a pass that marks the Model
    available replaces the condition list, and the Progressing condition that
    was set before is gone afterwards. *)
Lemma progressing_cleared_by_available :
  let w := ex_world (ex_model [condition_at ModelProgressing 7] 2) 1 2 in
  wf_models w
  ∧ rtc (step ex_req) w (Reconcile ex_req w).2
  ∧ model_conditions (NamespacedName ex_req) w = Some [condition_at ModelProgressing 7]
  ∧ has_condition ModelProgressing [condition_at ModelProgressing 7] = true
  ∧ model_conditions (NamespacedName ex_req) (Reconcile ex_req w).2
    = Some [condition_at ModelAvailable 100]
  ∧ has_condition ModelProgressing [condition_at ModelAvailable 100] = false.
Proof.
  cbv zeta. split; [by apply ex_world_wf|].
  split; [apply rtc_once, step_pass|].
  vm_compute. repeat split; reflexivity.
Qed.

Lemma conditions_over_passes_witness :
  ∃ cs', model_conditions (NamespacedName ex_req)
           (Reconcile ex_req (ex_world (ex_model [condition_at ModelProgressing 7] 2) 1 2)).2
         = Some cs'
    ∧ (has_condition ModelAvailable [condition_at ModelProgressing 7] = true →
       cs' = [condition_at ModelProgressing 7]
       ∧ has_condition ModelAvailable cs' = true)
    ∧ (has_condition ModelProgressing [condition_at ModelProgressing 7] = true →
       has_condition ModelProgressing cs' = true
       ∨ has_condition ModelAvailable cs' = true)
    ∧ (∀ ty, (count_type ty cs'
              ≤ 1 `max` count_type ty [condition_at ModelProgressing 7])%nat)
    ∧ (at_most_once [condition_at ModelProgressing 7] → at_most_once cs').
Proof.
  apply (conditions_over_passes ex_req
           (ex_world (ex_model [condition_at ModelProgressing 7] 2) 1 2)).
  - apply ex_world_wf. reflexivity.
  - apply rtc_once, step_pass.
  - vm_compute. reflexivity.
Defined.

(** The claim of C2 as the spec words it fails: while the stateful set of the
    image store is not ready the pass requeues before the drift step, and the
    deployment keeps its one replica although the Model declares two. *)
Lemma drift_left_while_store_not_ready :
  let w := ex_world (ex_model [condition_at ModelAvailable 7] 1) 0 1 in
  models w !! NamespacedName ex_req = Some (ex_model [condition_at ModelAvailable 7] 1)
  ∧ replicas_of (ex_model [condition_at ModelAvailable 7] 1) = 2
  ∧ deployments w !! deployment_key ex_req = Some (ex_deployment 1)
  ∧ dep_Replicas (d_Spec (ex_deployment 1)) = Some 1
  ∧ (Reconcile ex_req w).1 = Ok (requeue_after (Second * 5))
  ∧ deployments (Reconcile ex_req w).2 !! deployment_key ex_req = Some (ex_deployment 1)
  ∧ calls_of KDeployment (Reconcile ex_req w).2 = [].
Proof. vm_compute. repeat split; reflexivity. Qed.

Lemma drift_correction_witness :
  let w := ex_world (ex_model [condition_at ModelAvailable 7] 1) 1 1 in
  (avail_events (Reconcile ex_req w).2 = avail_events w
   ∧ requeues (Reconcile ex_req w).1
   ∧ ∃ cs', model_conditions (NamespacedName ex_req) (Reconcile ex_req w).2 = Some cs'
            ∧ has_condition ModelAvailable cs'
              = has_condition ModelAvailable [condition_at ModelAvailable 7])
  ∧ (Reconcile ex_req w).1 = Ok (requeue_after (Second * 5))
  ∧ deployments (Reconcile ex_req w).2 !! deployment_key ex_req
    = Some (set_dep_Replicas (Some 2) (ex_deployment 1)).
Proof.
  cbv zeta.
  pose proof (drift_correction ex_req
                (ex_world (ex_model [condition_at ModelAvailable 7] 1) 1 1)
                (ex_model [condition_at ModelAvailable 7] 1) (ex_deployment 1) 1) as H.
  destruct H as [Hneg Hpos].
  - apply ex_world_wf. reflexivity.
  - vm_compute. reflexivity.
  - vm_compute. reflexivity.
  - reflexivity.
  - vm_compute. discriminate.
  - split; [exact Hneg|].
    destruct Hpos as (H1 & H2 & _).
    + reflexivity.
    + left. vm_compute. reflexivity.
    + vm_compute. reflexivity.
    + vm_compute. reflexivity.
    + reflexivity.
    + vm_compute. split; [discriminate|reflexivity].
    + split; [exact H1|exact H2].
Defined.

(** The second half of C6 as the spec words it fails: the Model is fetched,
    then removed, and the pass that goes on with the fetched copy ends in a
    not-found error from its status write. *)
Lemma removal_after_fetch_is_an_error :
  let fetched := client_Get KModel models (NamespacedName ex_req) ex_fresh in
  let removed := set_models (delete (NamespacedName ex_req) (models fetched.2)) fetched.2 in
  fetched.1 = Ok (ex_model [] 0)
  ∧ models removed !! NamespacedName ex_req = None
  ∧ (Reconcile_fetched ex_req (ex_model [] 0) removed).1 = Err ErrNotFound.
Proof. vm_compute. repeat split; reflexivity. Qed.

Lemma removed_model_handling_witness :
  Reconcile ex_req
    (set_models (delete (NamespacedName ex_req) (models ex_fresh)) ex_fresh)
  = (Ok Result_zero,
     logged (call VGet KModel (NamespacedName ex_req))
       (set_models (delete (NamespacedName ex_req) (models ex_fresh)) ex_fresh))
  ∧ Reconcile_fetched ex_req (ex_model [] 0)
      (set_models (delete (NamespacedName ex_req) (models ex_fresh)) ex_fresh)
    = (Err ErrNotFound,
       logged (status_write (ex_model [] 0))
         (set_models (delete (NamespacedName ex_req) (models ex_fresh)) ex_fresh)).
Proof.
  destruct (removed_model_handling ex_req) as (_ & H2 & H3 & _).
  split.
  - apply H2; vm_compute; reflexivity.
  - apply H3; vm_compute; reflexivity.
Defined.

Lemma ensureCreated_twice_witness :
  let first := EnsureDeploymentCreated "default" "phi" "phi" (Some 2) (ex_model [] 0)
                 (NewWrappedRecorder (ex_model [] 0)) ex_fresh in
  ∃ d, first.1 = Ok d
    ∧ (EnsureDeploymentCreated "default" "phi" "phi" (Some 2) (ex_model [] 0)
         (NewWrappedRecorder (ex_model [] 0)) first.2).1 = Ok d
    ∧ events (EnsureDeploymentCreated "default" "phi" "phi" (Some 2) (ex_model [] 0)
                (NewWrappedRecorder (ex_model [] 0)) first.2).2 = events first.2
    ∧ calls (EnsureDeploymentCreated "default" "phi" "phi" (Some 2) (ex_model [] 0)
               (NewWrappedRecorder (ex_model [] 0)) first.2).2
      = call VGet KDeployment ("default", ModelAppName "phi") :: calls first.2.
Proof.
  cbv zeta.
  destruct (EnsureDeploymentCreated "default" "phi" "phi" (Some 2) (ex_model [] 0)
              (NewWrappedRecorder (ex_model [] 0)) ex_fresh).1 as [d|e] eqn:E;
    [|vm_compute in E; discriminate E].
  exists d. split; [reflexivity|].
  destruct (proj1 ensureCreated_twice "default" "phi" "phi" (Some 2) (ex_model [] 0)
              (NewWrappedRecorder (ex_model [] 0)) ex_fresh d E)
    as (_ & _ & Hc & _ & He & Hr).
  split; [|split; [exact He|exact Hc]].
  rewrite Hr. replace (next_fault _) with (@None error); [reflexivity|].
  vm_compute. reflexivity.
Defined.

Lemma readiness_predicates_witness :
  ∃ b, (IsDeploymentReady "default" "phi" (NewWrappedRecorder (ex_model [] 0))
          (ex_world (ex_model [] 0) 1 2)).1 = Ok b
       ∧ (b = true ↔ dep_ReadyReplicas (d_Status (ex_deployment 2))
                      = declared_replicas (dep_Replicas (d_Spec (ex_deployment 2)))).
Proof.
  apply (proj1 (readiness_predicates "default" "phi" (NewWrappedRecorder (ex_model [] 0))
                  (ex_world (ex_model [] 0) 1 2))).
  - vm_compute. reflexivity.
  - vm_compute. split; [discriminate|reflexivity].
Defined.

Lemma absent_is_not_ready_witness :
  (IsDeploymentReady "default" "phi" (NewWrappedRecorder (ex_model [] 0)) ex_fresh).1
  = Ok false
  ∧ (IsServiceReady "default" "phi" (NewWrappedRecorder (ex_model [] 0)) ex_fresh).1
    = Ok false.
Proof.
  destruct (absent_is_not_ready "default" "phi" (NewWrappedRecorder (ex_model [] 0))
              ex_fresh) as (_ & _ & _ & _ & HD & HS).
  split; [apply HD|apply HS]; vm_compute; reflexivity.
Defined.

Lemma condition_write_replaces_list_witness :
  model_conditions ("default", "phi")
    (SetAvailable (ex_model [condition_at ModelProgressing 7] 2)
       (ex_world (ex_model [condition_at ModelProgressing 7] 2) 1 2)).2
  = Some [condition_at ModelAvailable 100].
Proof.
  apply (proj1 (proj1 (proj2 (condition_write_replaces_list
                                (ex_model [condition_at ModelProgressing 7] 2)
                                (ex_world (ex_model [condition_at ModelProgressing 7] 2) 1 2)))
                  ltac:(vm_compute; reflexivity))).
Defined.

Lemma deployment_waits_for_image_store_witness :
  calls_of KDeployment
    (Reconcile ex_req (ex_world (ex_model [condition_at ModelAvailable 7] 1) 0 1)).2 = []
  ∧ requeues (Reconcile ex_req (ex_world (ex_model [condition_at ModelAvailable 7] 1) 0 1)).1.
Proof.
  destruct (proj1 (proj2 (proj2 (deployment_waits_for_image_store ex_req)))
              (ex_world (ex_model [condition_at ModelAvailable 7] 1) 0 1))
    as (Hc & _ & Hr).
  - vm_compute. reflexivity.
  - split; [exact Hc|]. apply Hr. vm_compute. by eexists.
Defined.

(** ** The stages, run *)

Lemma EnsureDeploymentCreated_run ns name image replicas model rec w :
  EnsureDeploymentCreated ns name image replicas model rec w =
  let key := (ns, ModelAppName name) in
  let w1 := logged (call VGet KDeployment key) w in
  match next_fault w with
  | Some e => (Err e, w1)
  | None =>
      match deployments w !! key with
      | Some d => (Ok d, w1)
      | None =>
          let w2 := logged (call VCreate KDeployment key) w1 in
          match next_fault w1 with
          | Some e => (Err e, w2)
          | None =>
              (Ok (deployment_for ns name image replicas model),
               set_events (DeploymentCreated rec name :: events w)
                 (set_deployments
                    (<[key := deployment_for ns name image replicas model]> (deployments w))
                    w2))
          end
      end
  end.
Proof.
  cbv zeta. destruct (next_fault w) as [e|] eqn:Hf.
  { by apply EnsureDeploymentCreated_fault. }
  destruct (deployments w !! (ns, ModelAppName name)) as [d|] eqn:Hd.
  { by apply EnsureDeploymentCreated_found. }
  unfold EnsureDeploymentCreated, bind_ok, bind, ret, Eventf.
  rewrite getDeployment_unfold, client_Get_eq by done. rewrite Hf, Hd. cbn [IsNotFound].
  rewrite client_Create_Deployment_eq. fold (deployment_for ns name image replicas model).
  destruct (next_fault (logged _ w)); [done|].
  unfold key_of. cbn [d_meta deployment_for Name Namespace deployments logged set_faults
                      set_calls]. rewrite Hd. reflexivity.
Qed.

Lemma EnsureServiceCreated_run ns name deployment rec w :
  EnsureServiceCreated ns name deployment rec w =
  let key := (ns, ModelAppName name) in
  let w1 := logged (call VGet KService key) w in
  match next_fault w with
  | Some e => (Err e, w1)
  | None =>
      match services w !! key with
      | Some s => (Ok s, w1)
      | None =>
          let w2 := logged (call VCreate KService key) w1 in
          match next_fault w1 with
          | Some e => (Err e, w2)
          | None =>
              (Ok (service_for ns name deployment),
               set_events (ServiceCreated rec name :: events w)
                 (set_services (<[key := service_for ns name deployment]> (services w)) w2))
          end
      end
  end.
Proof.
  cbv zeta. destruct (next_fault w) as [e|] eqn:Hf.
  { by apply EnsureServiceCreated_fault. }
  destruct (services w !! (ns, ModelAppName name)) as [d|] eqn:Hd.
  { by apply EnsureServiceCreated_found. }
  unfold EnsureServiceCreated, bind_ok, bind, ret, Eventf.
  rewrite getService_unfold, client_Get_eq by done. rewrite Hf, Hd. cbn [IsNotFound].
  rewrite client_Create_Service_eq. fold (service_for ns name deployment).
  destruct (next_fault (logged _ w)); [done|].
  unfold key_of. cbn [s_meta service_for Name Namespace services logged set_faults
                      set_calls]. rewrite Hd. reflexivity.
Qed.

Lemma replicas_of_eq model :
  match spec_Replicas (m_Spec model) with
  | Some r => int_of_int32 r
  | None => 1
  end = replicas_of model.
Proof. reflexivity. Qed.

Lemma UpdateDeployment_run model rec w :
  UpdateDeployment model rec w =
  let w1 := logged (call VGet KDeployment (app_key model)) w in
  match next_fault w with
  | Some e => (Err e, w1)
  | None =>
      match deployments w !! app_key model with
      | None => (Ok false, w1)
      | Some d =>
          if bool_decide (in_sync model d) then (Ok false, w1)
          else
            match client_Update_Deployment
                    (set_dep_Replicas (Some (int32_of_int (replicas_of model))) d) w1 with
            | (Some e, w2) => (Err e, w2)
            | (None, w2) =>
                (Ok true,
                 set_events
                   (ModelScaled rec (dep_StatusReplicas (d_Status d)) (replicas_of model)
                    :: events w2) w2)
            end
      end
  end.
Proof.
  cbv zeta. destruct (next_fault w) as [e|] eqn:Hf.
  { by apply UpdateDeployment_fault. }
  unfold UpdateDeployment, app_key. rewrite bind_ok_run.
  rewrite getDeployment_unfold, client_Get_eq by done. rewrite Hf.
  destruct (deployments w !! _) as [d|] eqn:Hd; [|done].
  rewrite replicas_of_eq. unfold int_of_int32.
  destruct (decide (in_sync model d)) as [Hs|Hs].
  - rewrite (bool_decide_eq_true_2 _ Hs). unfold in_sync in Hs. rewrite Hs.
    by rewrite bool_decide_eq_true_2.
  - rewrite (bool_decide_eq_false_2 _ Hs). unfold in_sync in Hs.
    destruct (dep_Replicas (d_Spec d)) as [r|].
    + rewrite bool_decide_eq_false_2 by congruence.
      rewrite bind_run. by destruct (client_Update_Deployment _ _) as [[e|] w2].
    + rewrite bind_run. by destruct (client_Update_Deployment _ _) as [[e|] w2].
Qed.

Lemma IsDeploymentReady_run ns name rec w :
  IsDeploymentReady ns name rec w =
  let w1 := logged (call VGet KDeployment (ns, ModelAppName name)) w in
  match next_fault w with
  | Some e => (Err e, w1)
  | None =>
      match deployments w !! (ns, ModelAppName name) with
      | None => (Ok false, w1)
      | Some d =>
          if bool_decide (deployment_ready d) then (Ok true, w1)
          else (Ok false, set_events (WaitingForDeployment rec d :: events w) w1)
      end
  end.
Proof.
  cbv zeta. rewrite IsDeploymentReady_unfold, client_Get_eq by done.
  destruct (next_fault w) as [e|] eqn:Hf.
  { by rewrite (next_fault_not_found _ _ Hf). }
  destruct (deployments w !! _) as [d|]; [|done].
  destruct (decide (deployment_ready d)) as [Hr|Hr].
  - rewrite (bool_decide_eq_true_2 _ Hr). by rewrite bool_decide_eq_true_2.
  - rewrite (bool_decide_eq_false_2 _ Hr). by rewrite bool_decide_eq_false_2.
Qed.

Lemma IsServiceReady_run ns name rec w :
  IsServiceReady ns name rec w =
  let w1 := logged (call VGet KService (ns, ModelAppName name)) w in
  match next_fault w with
  | Some e => (Err e, w1)
  | None =>
      match services w !! (ns, ModelAppName name) with
      | None => (Ok false, w1)
      | Some s =>
          if bool_decide (ClusterIP (s_Spec s) = "")
          then (Ok false, set_events (WaitingForService rec s :: events w) w1)
          else (Ok true, w1)
      end
  end.
Proof.
  cbv zeta. rewrite IsServiceReady_unfold, client_Get_eq by done.
  destruct (next_fault w) as [e|] eqn:Hf.
  { by rewrite (next_fault_not_found _ _ Hf). }
  destruct (services w !! _) as [s|]; [|done].
  by case_bool_decide.
Qed.

(** ** Drift correction on its own *)

Lemma UpdateDeployment_absent model rec w :
  next_fault w = None →
  deployments w !! app_key model = None →
  UpdateDeployment model rec w = (Ok false, logged (call VGet KDeployment (app_key model)) w).
Proof. intros Hf Hd. rewrite UpdateDeployment_run. cbv zeta. by rewrite Hf, Hd. Qed.

Lemma UpdateDeployment_in_sync model rec w d :
  next_fault w = None →
  deployments w !! app_key model = Some d →
  in_sync model d →
  UpdateDeployment model rec w = (Ok false, logged (call VGet KDeployment (app_key model)) w).
Proof.
  intros Hf Hd Hs. rewrite UpdateDeployment_run. cbv zeta. rewrite Hf, Hd.
  by rewrite bool_decide_eq_true_2.
Qed.

Lemma client_Update_Deployment_calls d w :
  calls (client_Update_Deployment d w).2
  = call VUpdate KDeployment (key_of (d_meta d)) :: calls w.
Proof.
  rewrite client_Update_Deployment_eq.
  destruct (next_fault w); [done|]. by destruct (deployments w !! _).
Qed.

Lemma UpdateDeployment_out_of_sync model rec w d :
  next_fault w = None →
  deployments w !! app_key model = Some d →
  ¬ in_sync model d →
  (UpdateDeployment model rec w).1 ≠ Ok false
  ∧ calls (UpdateDeployment model rec w).2
    = call VUpdate KDeployment (key_of (d_meta d))
      :: call VGet KDeployment (app_key model) :: calls w.
Proof.
  intros Hf Hd Hs. rewrite UpdateDeployment_run. cbv zeta. rewrite Hf, Hd.
  rewrite bool_decide_eq_false_2 by done.
  pose proof (client_Update_Deployment_calls
                (set_dep_Replicas (Some (int32_of_int (replicas_of model))) d)
                (logged (call VGet KDeployment (app_key model)) w)) as Hc.
  destruct (client_Update_Deployment _ _) as [[e|] w2]; simpl in *; by rewrite Hc.
Qed.

(** X1.  What [UpdateDeployment] decides on, for a get that goes through: an
    absent deployment is not an error and nothing is written; a deployment
    that declares the replica count of the Model (1 when the Model declares
    none) is left alone after the one read; any other deployment gets an
    update call, and that includes the deployment whose own replica field is
    unset, even when the Model asks for the default of one. *)
Theorem UpdateDeployment_writes_only_on_drift model rec w :
  next_fault w = None →
  (deployments w !! app_key model = None →
   UpdateDeployment model rec w
   = (Ok false, logged (call VGet KDeployment (app_key model)) w))
  ∧ (∀ d, deployments w !! app_key model = Some d →
       ((UpdateDeployment model rec w).1 = Ok false ↔ in_sync model d)
       ∧ (in_sync model d →
          UpdateDeployment model rec w
          = (Ok false, logged (call VGet KDeployment (app_key model)) w))
       ∧ (¬ in_sync model d →
          calls (UpdateDeployment model rec w).2
          = call VUpdate KDeployment (key_of (d_meta d))
            :: call VGet KDeployment (app_key model) :: calls w)
       ∧ (dep_Replicas (d_Spec d) = None → (UpdateDeployment model rec w).1 ≠ Ok false)).
Proof.
  intros Hf. split; [by apply UpdateDeployment_absent|].
  intros d Hd. split; [|split; [|split]].
  - split.
    + intros Hr. destruct (decide (in_sync model d)) as [|Hn]; [done|].
      by destruct (UpdateDeployment_out_of_sync model rec w d Hf Hd Hn).
    + intros Hs. by rewrite (UpdateDeployment_in_sync model rec w d).
  - by apply UpdateDeployment_in_sync.
  - intros Hn. by destruct (UpdateDeployment_out_of_sync model rec w d Hf Hd Hn).
  - intros Hr. apply (UpdateDeployment_out_of_sync model rec w d Hf Hd).
    unfold in_sync. by rewrite Hr.
Qed.

Lemma UpdateDeployment_true model rec w :
  (UpdateDeployment model rec w).1 = Ok true →
  ∃ d, deployments w !! app_key model = Some d
    ∧ ¬ in_sync model d
    ∧ ∃ old, deployments w !! key_of (d_meta d) = Some old
         ∧ deployments (UpdateDeployment model rec w).2
           = <[key_of (d_meta d) :=
                 {| d_meta := d_meta d;
                    d_Spec := d_Spec (set_dep_Replicas
                                        (Some (int32_of_int (replicas_of model))) d);
                    d_Status := d_Status old |}]> (deployments w).
Proof.
  rewrite UpdateDeployment_run. cbv zeta.
  destruct (next_fault w); [done|].
  destruct (deployments w !! app_key model) as [d|] eqn:Hd; [|done].
  case_bool_decide as Hs; [done|].
  rewrite client_Update_Deployment_eq.
  destruct (next_fault (logged _ w)); [done|].
  cbn [set_dep_Replicas d_meta deployments logged set_faults set_calls].
  destruct (deployments w !! key_of (d_meta d)) as [old|] eqn:Ho; [|done].
  intros _. exists d. split; [done|]. split; [done|].
  exists old. split; [done|]. done.
Qed.

Lemma UpdateDeployment_not_true model rec w :
  (UpdateDeployment model rec w).1 ≠ Ok true →
  deployments (UpdateDeployment model rec w).2 = deployments w
  ∧ events (UpdateDeployment model rec w).2 = events w.
Proof.
  rewrite UpdateDeployment_run. cbv zeta.
  destruct (next_fault w); [done|].
  destruct (deployments w !! app_key model) as [d|] eqn:Hd; [|done].
  case_bool_decide as Hs; [done|].
  rewrite client_Update_Deployment_eq.
  destruct (next_fault (logged _ w)); [done|].
  cbn [set_dep_Replicas d_meta deployments logged set_faults set_calls].
  by destruct (deployments w !! key_of (d_meta d)).
Qed.

(** X2.  [UpdateDeployment] settles in one call.  After a call that returned
    true, on a deployment stored under its own name and a replica count within
    [int32], the stored deployment declares the count of the Model and is
    otherwise as it was; a second call does not return true again and changes
    neither the deployments nor the events. *)
Theorem UpdateDeployment_settles model rec w :
  (UpdateDeployment model rec w).1 = Ok true →
  (∀ d, deployments w !! app_key model = Some d → key_of (d_meta d) = app_key model) →
  is_int32 (replicas_of model) →
  let w1 := (UpdateDeployment model rec w).2 in
  (∃ d, deployments w !! app_key model = Some d
     ∧ ¬ in_sync model d
     ∧ deployments w1
       = <[app_key model := set_dep_Replicas (Some (replicas_of model)) d]> (deployments w))
  ∧ (UpdateDeployment model rec w1).1 ≠ Ok true
  ∧ deployments (UpdateDeployment model rec w1).2 = deployments w1
  ∧ events (UpdateDeployment model rec w1).2 = events w1.
Proof.
  intros Ht Hwf Hi w1.
  destruct (UpdateDeployment_true model rec w Ht) as (d & Hd & Hn & old & Ho & Hw).
  fold w1 in Hw. rewrite (Hwf d Hd) in Ho, Hw.
  assert (old = d) as -> by congruence.
  rewrite int32_of_int_id in Hw by done.
  assert (deployments w1
          = <[app_key model := set_dep_Replicas (Some (replicas_of model)) d]>
              (deployments w)) as Hw1 by exact Hw.
  split; [by exists d|].
  assert ((UpdateDeployment model rec w1).1 ≠ Ok true) as Hnt.
  { rewrite UpdateDeployment_run. cbv zeta.
    destruct (next_fault w1); [done|].
    rewrite Hw1, lookup_insert_eq. by rewrite bool_decide_eq_true_2. }
  split; [done|]. by apply UpdateDeployment_not_true.
Qed.

(** ** What the create paths leave behind *)

Lemma EnsureDeploymentCreated_created ns name image replicas model rec w d :
  deployments w !! (ns, ModelAppName name) = None →
  (EnsureDeploymentCreated ns name image replicas model rec w).1 = Ok d →
  d = deployment_for ns name image replicas model
  ∧ (EnsureDeploymentCreated ns name image replicas model rec w).2
    = set_events (DeploymentCreated rec name :: events w)
        (set_deployments (<[(ns, ModelAppName name) := d]> (deployments w))
           (logged (call VCreate KDeployment (ns, ModelAppName name))
              (logged (call VGet KDeployment (ns, ModelAppName name)) w))).
Proof.
  intros Hd. rewrite EnsureDeploymentCreated_run. cbv zeta. rewrite Hd.
  destruct (next_fault w); [done|].
  destruct (next_fault (logged _ w)); [done|]. by intros [= <-].
Qed.

Lemma EnsureServiceCreated_created ns name deployment rec w s :
  services w !! (ns, ModelAppName name) = None →
  (EnsureServiceCreated ns name deployment rec w).1 = Ok s →
  s = service_for ns name deployment
  ∧ (EnsureServiceCreated ns name deployment rec w).2
    = set_events (ServiceCreated rec name :: events w)
        (set_services (<[(ns, ModelAppName name) := s]> (services w))
           (logged (call VCreate KService (ns, ModelAppName name))
              (logged (call VGet KService (ns, ModelAppName name)) w))).
Proof.
  intros Hd. rewrite EnsureServiceCreated_run. cbv zeta. rewrite Hd.
  destruct (next_fault w); [done|].
  destruct (next_fault (logged _ w)); [done|]. by intros [= <-].
Qed.

Lemma deployment_for_in_sync ns name image model :
  in_sync model (deployment_for ns name image (spec_Replicas (m_Spec model)) model).
Proof.
  unfold in_sync, replicas_of, declared_replicas. simpl.
  by destruct (spec_Replicas (m_Spec model)).
Qed.

(** X3.  The deployment [EnsureDeploymentCreated] creates for a Model is
    stored under the name derived from the Model's, declares the replica count
    of the Model (1 when the Model declares none), and selects exactly the
    pods of its own template.  So the drift check that follows in the same
    pass finds nothing to correct: [UpdateDeployment] does not return true and
    leaves deployments and events as they are. *)
Theorem created_deployment_is_in_sync ns name image model rec w d :
  deployments w !! (ns, ModelAppName name) = None →
  (EnsureDeploymentCreated ns name image (spec_Replicas (m_Spec model)) model rec w).1
  = Ok d →
  let w1 := (EnsureDeploymentCreated ns name image (spec_Replicas (m_Spec model))
               model rec w).2 in
  deployments w1 !! (ns, ModelAppName name) = Some d
  ∧ key_of (d_meta d) = (ns, ModelAppName name)
  ∧ in_sync model d
  ∧ dep_MatchLabels (d_Spec d) = tpl_Labels (dep_Template (d_Spec d))
  ∧ (app_key model = (ns, ModelAppName name) →
     (UpdateDeployment model rec w1).1 ≠ Ok true
     ∧ deployments (UpdateDeployment model rec w1).2 = deployments w1
     ∧ events (UpdateDeployment model rec w1).2 = events w1).
Proof.
  intros Hd Hok w1.
  destruct (EnsureDeploymentCreated_created _ _ _ _ _ _ _ _ Hd Hok) as [-> Hw].
  fold w1 in Hw.
  assert (deployments w1 !! (ns, ModelAppName name)
          = Some (deployment_for ns name image (spec_Replicas (m_Spec model)) model))
    as Hs.
  { rewrite Hw. cbn [deployments set_events set_deployments]. apply lookup_insert_eq. }
  split; [done|]. split; [done|]. split; [apply deployment_for_in_sync|].
  split; [done|]. intros Hk.
  assert ((UpdateDeployment model rec w1).1 ≠ Ok true) as Hnt.
  { rewrite UpdateDeployment_run. cbv zeta. rewrite Hk.
    destruct (next_fault w1); [done|]. rewrite Hs.
    rewrite bool_decide_eq_true_2; [done|]. apply deployment_for_in_sync. }
  split; [done|]. by apply UpdateDeployment_not_true.
Qed.

(** X4.  The service [EnsureServiceCreated] creates sits in front of the
    deployment [EnsureDeploymentCreated] creates for the same name: it is
    stored under the same namespaced name, its selector is the label set of
    the deployment's pod template (and the deployment's own selector), its one
    owner reference names the deployment it was given, and it has no cluster
    address yet. *)
Theorem created_service_fronts_deployment ns name image replicas model rec w w' d s :
  deployments w !! (ns, ModelAppName name) = None →
  (EnsureDeploymentCreated ns name image replicas model rec w).1 = Ok d →
  services w' !! (ns, ModelAppName name) = None →
  (EnsureServiceCreated ns name d rec w').1 = Ok s →
  key_of (s_meta s) = key_of (d_meta d)
  ∧ svc_Selector (s_Spec s) = tpl_Labels (dep_Template (d_Spec d))
  ∧ svc_Selector (s_Spec s) = dep_MatchLabels (d_Spec d)
  ∧ (∃ o, OwnerReferences (s_meta s) = [o]
       ∧ ref_Kind o = "Deployment"
       ∧ ref_Name o = Name (d_meta d)
       ∧ ref_UID o = UID (d_meta d)
       ∧ ref_BlockOwnerDeletion o = Some true)
  ∧ ClusterIP (s_Spec s) = ""
  ∧ services (EnsureServiceCreated ns name d rec w').2 !! key_of (d_meta d) = Some s.
Proof.
  intros Hd Hok Hs Hok'.
  destruct (EnsureDeploymentCreated_created _ _ _ _ _ _ _ _ Hd Hok) as [-> _].
  destruct (EnsureServiceCreated_created _ _ _ _ _ _ Hs Hok') as [-> ->].
  split; [done|]. split; [done|]. split; [done|].
  split; [by eexists|]. split; [done|].
  cbn [services set_events set_services]. apply lookup_insert_eq.
Qed.

Lemma EnsureDeploymentCreated_failed ns name image replicas model rec w e :
  (EnsureDeploymentCreated ns name image replicas model rec w).1 = Err e →
  deployments (EnsureDeploymentCreated ns name image replicas model rec w).2
  = deployments w
  ∧ events (EnsureDeploymentCreated ns name image replicas model rec w).2 = events w
  ∧ (next_fault w = Some e
     ∨ next_fault (logged (call VGet KDeployment (ns, ModelAppName name)) w) = Some e).
Proof.
  rewrite EnsureDeploymentCreated_run. cbv zeta.
  destruct (next_fault w) as [e'|]; [intros [= ->]; auto|].
  destruct (deployments w !! _); [done|].
  destruct (next_fault (logged _ w)) as [e'|]; [intros [= ->]; auto|done].
Qed.

Lemma EnsureServiceCreated_failed ns name deployment rec w e :
  (EnsureServiceCreated ns name deployment rec w).1 = Err e →
  services (EnsureServiceCreated ns name deployment rec w).2 = services w
  ∧ events (EnsureServiceCreated ns name deployment rec w).2 = events w
  ∧ (next_fault w = Some e
     ∨ next_fault (logged (call VGet KService (ns, ModelAppName name)) w) = Some e).
Proof.
  rewrite EnsureServiceCreated_run. cbv zeta.
  destruct (next_fault w) as [e'|]; [intros [= ->]; auto|].
  destruct (services w !! _); [done|].
  destruct (next_fault (logged _ w)) as [e'|]; [intros [= ->]; auto|done].
Qed.

(** X5.  A call of [EnsureDeploymentCreated] or [EnsureServiceCreated] that
    returns an error has stored nothing and sent no notification, and the
    error is the one the client gave to the get or to the create: the
    functions add no error of their own. *)
Theorem failed_ensure_leaves_no_trace :
  (∀ ns name image replicas model rec w e,
     (EnsureDeploymentCreated ns name image replicas model rec w).1 = Err e →
     deployments (EnsureDeploymentCreated ns name image replicas model rec w).2
     = deployments w
     ∧ events (EnsureDeploymentCreated ns name image replicas model rec w).2 = events w
     ∧ (next_fault w = Some e
        ∨ next_fault (logged (call VGet KDeployment (ns, ModelAppName name)) w) = Some e))
  ∧ (∀ ns name deployment rec w e,
       (EnsureServiceCreated ns name deployment rec w).1 = Err e →
       services (EnsureServiceCreated ns name deployment rec w).2 = services w
       ∧ events (EnsureServiceCreated ns name deployment rec w).2 = events w
       ∧ (next_fault w = Some e
          ∨ next_fault (logged (call VGet KService (ns, ModelAppName name)) w) = Some e)).
Proof.
  split.
  - intros. by apply EnsureDeploymentCreated_failed.
  - intros. by apply EnsureServiceCreated_failed.
Qed.

Lemma getDeployment_run ns name w :
  getDeployment ns name w =
  (match next_fault w with
   | Some e => Err e
   | None => Ok (deployments w !! (ns, ModelAppName name))
   end, logged (call VGet KDeployment (ns, ModelAppName name)) w).
Proof.
  rewrite getDeployment_unfold, client_Get_eq by done.
  destruct (next_fault w) as [e|] eqn:Hf; [by rewrite (next_fault_not_found _ _ Hf)|].
  by destruct (deployments w !! _).
Qed.

Lemma getService_run ns name w :
  getService ns name w =
  (match next_fault w with
   | Some e => Err e
   | None => Ok (services w !! (ns, ModelAppName name))
   end, logged (call VGet KService (ns, ModelAppName name)) w).
Proof.
  rewrite getService_unfold, client_Get_eq by done.
  destruct (next_fault w) as [e|] eqn:Hf; [by rewrite (next_fault_not_found _ _ Hf)|].
  by destruct (services w !! _).
Qed.

(** X6.  [getDeployment] and [getService] read back what the create paths
    left.  Each logs one get under the name derived from the Model's and
    changes nothing; a not-found answer becomes [(nil, nil)], so the result is
    the stored object or nil, and the only errors are those of the client.
    After [EnsureDeploymentCreated] (or [EnsureServiceCreated]) returned a
    resource, a get that goes through returns that same resource. *)
Theorem get_reads_back ns name w :
  getDeployment ns name w
  = (match next_fault w with
     | Some e => Err e
     | None => Ok (deployments w !! (ns, ModelAppName name))
     end, logged (call VGet KDeployment (ns, ModelAppName name)) w)
  ∧ getService ns name w
    = (match next_fault w with
       | Some e => Err e
       | None => Ok (services w !! (ns, ModelAppName name))
       end, logged (call VGet KService (ns, ModelAppName name)) w)
  ∧ (∀ image replicas model rec d,
       (EnsureDeploymentCreated ns name image replicas model rec w).1 = Ok d →
       let w1 := (EnsureDeploymentCreated ns name image replicas model rec w).2 in
       next_fault w1 = None → (getDeployment ns name w1).1 = Ok (Some d))
  ∧ (∀ deployment rec s,
       (EnsureServiceCreated ns name deployment rec w).1 = Ok s →
       let w1 := (EnsureServiceCreated ns name deployment rec w).2 in
       next_fault w1 = None → (getService ns name w1).1 = Ok (Some s)).
Proof.
  split; [apply getDeployment_run|]. split; [apply getService_run|]. split.
  - intros image replicas model rec d Hok w1 Hf.
    pose proof (ensured_stored _ _ _ _ _ _ _
                  (EnsureDeploymentCreated_ok _ _ _ _ _ _ _ _ Hok)) as Hs.
    rewrite getDeployment_run. fold w1 in Hs. by rewrite Hf, Hs.
  - intros deployment rec s Hok w1 Hf.
    pose proof (ensured_stored _ _ _ _ _ _ _ (EnsureServiceCreated_ok _ _ _ _ _ _ Hok))
      as Hs.
    rewrite getService_run. fold w1 in Hs. by rewrite Hf, Hs.
Qed.

(** ** The status tracker on its own *)

Lemma has_condition_elem ty cs :
  has_condition ty cs = true ↔ ∃ item, item ∈ cs ∧ cond_Type item = ty.
Proof.
  unfold has_condition. rewrite bool_decide_eq_true. split.
  - intros Hl.
    destruct (filter (λ item, cond_Type item = ty) cs) as [|item l] eqn:E;
      [simpl in Hl; lia|].
    assert (item ∈ filter (λ item, cond_Type item = ty) cs) as Hin
      by (rewrite E; left).
    apply list_elem_of_filter in Hin as [? ?]. by exists item.
  - intros (item & Hin & Hty).
    assert (item ∈ filter (λ item, cond_Type item = ty) cs) as Hf
      by (by apply list_elem_of_filter).
    destruct (filter _ cs); [by apply not_elem_of_nil in Hf|simpl; lia].
Qed.

Lemma set_condition_marked ty m w :
  has_condition ty (Conditions (m_Status m)) = true →
  set_condition ty m w = (Ok false, w).
Proof. intros H. unfold set_condition. by rewrite H. Qed.

Lemma set_condition_unmarked ty m w :
  has_condition ty (Conditions (m_Status m)) = false →
  (set_condition ty m w).1 ≠ Ok false
  ∧ calls (set_condition ty m w).2 = status_write m :: calls w
  ∧ events (set_condition ty m w).2 = events w.
Proof.
  intros H. unfold set_condition. rewrite H.
  pose proof (client_Status_Update_calls
                (set_Conditions [condition_at ty (clock w)] m) w) as Hc.
  pose proof (client_Status_Update_events
                (set_Conditions [condition_at ty (clock w)] m) w) as He.
  destruct (client_Status_Update _ w) as [[e|] w']; done.
Qed.

(** X7.  [IsProgressing] and [IsAvailable] look at the type of the conditions
    only, whatever their status field says, and they are the guards of the
    two setters: on a Model that [IsProgressing] holds of, [SetProgressing]
    returns false and makes no call at all; on any other Model it issues one
    status write and never returns false.  The same for [IsAvailable] and
    [SetAvailable]. *)
Theorem setters_skip_what_is_set m w :
  (IsProgressing m = true
   ↔ ∃ item, item ∈ Conditions (m_Status m) ∧ cond_Type item = ModelProgressing)
  ∧ (IsAvailable m = true
     ↔ ∃ item, item ∈ Conditions (m_Status m) ∧ cond_Type item = ModelAvailable)
  ∧ (IsProgressing m = true → SetProgressing m w = (Ok false, w))
  ∧ (IsProgressing m = false →
     (SetProgressing m w).1 ≠ Ok false
     ∧ calls (SetProgressing m w).2 = status_write m :: calls w)
  ∧ (IsAvailable m = true → SetAvailable m w = (Ok false, w))
  ∧ (IsAvailable m = false →
     (SetAvailable m w).1 ≠ Ok false
     ∧ calls (SetAvailable m w).2 = status_write m :: calls w).
Proof.
  unfold IsProgressing, IsAvailable.
  rewrite SetProgressing_unfold, SetAvailable_unfold.
  split; [apply has_condition_elem|]. split; [apply has_condition_elem|].
  split; [apply set_condition_marked|].
  split; [intros H; by destruct (set_condition_unmarked _ m w H) as (? & ? & _)|].
  split; [apply set_condition_marked|].
  intros H; by destruct (set_condition_unmarked _ m w H) as (? & ? & _).
Qed.

(** X8.  The counters settle in one write.  After [SetReplicas] returned
    true, the stored Model holds the four counters it was given, so
    [ShouldSetReplicas] is false of it on those counters; its conditions are
    those of the copy the write was made from, and its metadata and spec are
    as stored before. *)
Theorem SetReplicas_settles m a b c d w :
  (SetReplicas m a b c d w).1 = Ok true →
  ∃ old m',
    models w !! key_of (m_meta m) = Some old
    ∧ models (SetReplicas m a b c d w).2 !! key_of (m_meta m) = Some m'
    ∧ ShouldSetReplicas m' a b c d = false
    ∧ Conditions (m_Status m') = Conditions (m_Status m)
    ∧ m_meta m' = m_meta old
    ∧ m_Spec m' = m_Spec old
    ∧ (∀ key, key ≠ key_of (m_meta m) →
         models (SetReplicas m a b c d w).2 !! key = models w !! key).
Proof.
  rewrite SetReplicas_unfold.
  pose proof (client_Status_Update_written (set_Counters a b c d m) w) as Hw.
  destruct (client_Status_Update _ w) as [[e|] w']; [done|]. intros _.
  destruct (Hw eq_refl) as (old & Ho & Hm). cbn [fst snd] in *.
  exists old, (with_status (m_Status (set_Counters a b c d m)) old).
  split; [done|]. rewrite Hm. split; [apply lookup_insert_eq|].
  split; [by apply ShouldSetReplicas_false|]. split; [done|].
  split; [done|]. split; [done|].
  intros key Hk. by rewrite lookup_insert_ne.
Qed.

(** ** The readiness checks on their own *)


(** ** No call after a rewrite *)

Lemma rc_ret {A} (a : A) : just_reads_or_creates (ret a).
Proof. intros w. by exists []. Qed.

Lemma rc_bind {A B} (c : M A) (k : A → M B) :
  just_reads_or_creates c → (∀ a, just_reads_or_creates (k a)) →
  just_reads_or_creates (bind c k).
Proof.
  intros Hc Hk w. rewrite bind_run.
  destruct (Hc w) as (l1 & E1 & F1).
  destruct (Hk (c w).1 (c w).2) as (l2 & E2 & F2).
  exists (l2 ++ l1)%list. rewrite E2, E1, app_assoc. split; [done|].
  by apply Forall_app.
Qed.

Lemma rc_bind_ok {A B} (c : M (res A)) (k : A → M (res B)) :
  just_reads_or_creates c → (∀ a, just_reads_or_creates (k a)) →
  just_reads_or_creates (bind_ok c k).
Proof.
  intros Hc Hk. apply rc_bind; [done|]. intros [a|e]; [apply Hk|apply rc_ret].
Qed.

Lemma rc_client_Get {A} (k : ObjKind) (objs : World → gmap ObjectKey A) key :
  just_reads_or_creates (client_Get k objs key).
Proof.
  intros w. exists [call VGet k key]. split; [|by repeat constructor].
  unfold client_Get, api_call, bind, ret.
  destruct (next_fault w); [done|]. by destruct (objs _ !! key).
Qed.

Lemma rc_client_Create {A} (k : ObjKind) (objs : World → gmap ObjectKey A)
    (put : gmap ObjectKey A → World → World) (meta : A → ObjectMeta) (o : A) :
  (∀ x w, calls (put x w) = calls w) →
  just_reads_or_creates (client_Create k objs put meta o).
Proof.
  intros Hput w. exists [call VCreate k (key_of (meta o))].
  split; [|repeat constructor; by right].
  unfold client_Create, api_call, bind, ret.
  destruct (next_fault w); [done|]. destruct (objs _ !! _); [done|].
  cbn [snd]. by rewrite Hput.
Qed.

Lemma rc_Eventf rec ty reason msg : just_reads_or_creates (Eventf rec ty reason msg).
Proof. intros w. by exists []. Qed.

Create HintDb rc.
#[global] Hint Resolve rc_ret rc_client_Get rc_Eventf : rc.
#[global] Hint Extern 1 (just_reads_or_creates (client_Create _ _ _ _ _)) =>
  apply rc_client_Create; reflexivity : rc.

(** Walks a computation that only reads and creates down to its calls. *)
Ltac rc_step :=
  first
    [ solve [eauto with rc]
    | match goal with
      | |- just_reads_or_creates (bind_ok _ _) => apply rc_bind_ok; [|intros ?]
      | |- just_reads_or_creates (bind _ _) => apply rc_bind; [|intros ?]
      | |- just_reads_or_creates (match ?x with _ => _ end) => destruct x
      | |- just_reads_or_creates (if ?x then _ else _) => destruct x
      | |- just_reads_or_creates (let _ := _ in _) => cbv zeta
      end ].

Ltac rc_tac := repeat rc_step.

Lemma rc_getDeployment ns name : just_reads_or_creates (getDeployment ns name).
Proof. unfold getDeployment. rc_tac. Qed.

Lemma rc_getService ns name : just_reads_or_creates (getService ns name).
Proof. unfold getService. rc_tac. Qed.

#[global] Hint Resolve rc_getDeployment rc_getService : rc.

Lemma rc_EnsureDeploymentCreated ns name image replicas model rec :
  just_reads_or_creates (EnsureDeploymentCreated ns name image replicas model rec).
Proof. unfold EnsureDeploymentCreated. rc_tac. Qed.

Lemma rc_IsDeploymentReady ns name rec :
  just_reads_or_creates (IsDeploymentReady ns name rec).
Proof. unfold IsDeploymentReady. rc_tac. Qed.

Lemma rc_EnsureServiceCreated ns name d rec :
  just_reads_or_creates (EnsureServiceCreated ns name d rec).
Proof. unfold EnsureServiceCreated. rc_tac. Qed.

Lemma rc_IsServiceReady ns name rec : just_reads_or_creates (IsServiceReady ns name rec).
Proof. unfold IsServiceReady. rc_tac. Qed.

Lemma rc_EnsureImageStorePVCCreated ns sc pvc pv rec :
  just_reads_or_creates (EnsureImageStorePVCCreated ns sc pvc pv rec).
Proof. unfold EnsureImageStorePVCCreated. rc_tac. Qed.

Lemma rc_EnsureImageStoreStatefulSetCreated ns rec :
  just_reads_or_creates (EnsureImageStoreStatefulSetCreated ns rec).
Proof. unfold EnsureImageStoreStatefulSetCreated. rc_tac. Qed.

Lemma rc_IsImageStoreStatefulSetReady ns rec :
  just_reads_or_creates (IsImageStoreStatefulSetReady ns rec).
Proof. unfold IsImageStoreStatefulSetReady. rc_tac. Qed.

Lemma rc_EnsureImageStoreServiceCreated ns ss rec :
  just_reads_or_creates (EnsureImageStoreServiceCreated ns ss rec).
Proof. unfold EnsureImageStoreServiceCreated. rc_tac. Qed.

Lemma rc_IsImageStoreServiceReady ns rec :
  just_reads_or_creates (IsImageStoreServiceReady ns rec).
Proof. unfold IsImageStoreServiceReady. rc_tac. Qed.

Lemma Forall_tail_app {A} (P : A → Prop) (l l' : list A) :
  Forall P (tail l) → Forall P l' → Forall P (tail (l ++ l')%list).
Proof.
  intros Hl Hl'. destruct l as [|x l]; simpl in *.
  - destruct l'; [done|]. by apply Forall_cons_1 in Hl' as [_ ?].
  - by apply Forall_app.
Qed.

(** After a computation that only read and created, one that rewrites last. *)
Lemma rewrites_last_after {A B} (go : B → Prop) (c : M A) (k : A → M B) :
  just_reads_or_creates c → (∀ a, rewrites_last go (k a)) →
  rewrites_last go (bind c k).
Proof.
  intros Hc Hk w. rewrite bind_run.
  destruct (Hc w) as (l1 & E1 & F1).
  destruct (Hk (c w).1 (c w).2) as (l2 & E2 & F2 & G2).
  exists (l2 ++ l1)%list. rewrite E2, E1, app_assoc. split; [done|].
  split; [by apply Forall_tail_app|].
  intros Hg. apply Forall_app. auto.
Qed.

Lemma rewrites_last_after_ok {A B} (go : res B → Prop) (c : M (res A))
    (k : A → M (res B)) :
  just_reads_or_creates c → (∀ a, rewrites_last go (k a)) →
  rewrites_last go (bind_ok c k).
Proof.
  intros Hc Hk. apply rewrites_last_after; [done|].
  intros [a|e]; [apply Hk|]. intros w. by exists [].
Qed.

(** After a computation that may have rewritten, the caller goes on only when
    it has not, and makes no call otherwise. *)
Lemma rewrites_last_then {A B} (go : A → Prop) (go' : B → Prop) (c : M A)
    (k : A → M B) :
  rewrites_last go c →
  (∀ a, go a → rewrites_last go' (k a)) →
  (∀ a w, ¬ go a → calls (k a w).2 = calls w ∧ ¬ go' (k a w).1) →
  (∀ a, Decision (go a)) →
  rewrites_last go' (bind c k).
Proof.
  intros Hc Hk Hstop Hdec w. rewrite bind_run.
  destruct (Hc w) as (l1 & E1 & F1 & G1).
  destruct (Hdec (c w).1) as [Hg|Hg].
  - destruct (Hk _ Hg (c w).2) as (l2 & E2 & F2 & G2).
    exists (l2 ++ l1)%list. rewrite E2, E1, app_assoc. split; [done|].
    split; [apply Forall_tail_app; auto|].
    intros Hg'. apply Forall_app. auto.
  - destruct (Hstop _ (c w).2 Hg) as [E2 N2].
    exists l1. rewrite E2, E1. split; [done|]. split; [done|]. done.
Qed.

Lemma rewrites_last_ret {A} (go : A → Prop) (a : A) : rewrites_last go (ret a).
Proof. intros w. by exists []. Qed.

Lemma rewrites_last_set_condition ty m : rewrites_last not_done (set_condition ty m).
Proof.
  intros w. destruct (has_condition ty (Conditions (m_Status m))) eqn:H.
  - rewrite (set_condition_marked _ _ _ H). by exists [].
  - destruct (set_condition_unmarked _ m w H) as (N & C & _).
    exists [status_write m]. split; [done|]. split; [constructor|done].
Qed.

Lemma rewrites_last_SetReplicas m a b c d : rewrites_last not_done (SetReplicas m a b c d).
Proof.
  intros w. exists [status_write m]. rewrite SetReplicas_unfold.
  pose proof (client_Status_Update_calls (set_Counters a b c d m) w) as Hc.
  destruct (client_Status_Update _ w) as [[e|] w']; by repeat split.
Qed.

Lemma rewrites_last_UpdateDeployment model rec :
  rewrites_last not_done (UpdateDeployment model rec).
Proof.
  assert (∀ c : Call, call_verb c = VGet → Forall reads_or_creates [c]) as Hget.
  { intros c Hc. constructor; [by left|constructor]. }
  intros w. rewrite UpdateDeployment_run. cbv zeta.
  destruct (next_fault w).
  { exists [call VGet KDeployment (app_key model)]. by repeat split; auto. }
  destruct (deployments w !! app_key model) as [d|].
  2:{ exists [call VGet KDeployment (app_key model)]. by repeat split; auto. }
  case_bool_decide.
  { exists [call VGet KDeployment (app_key model)]. by repeat split; auto. }
  pose proof (client_Update_Deployment_calls
                (set_dep_Replicas (Some (int32_of_int (replicas_of model))) d)
                (logged (call VGet KDeployment (app_key model)) w)) as Hc.
  exists [call VUpdate KDeployment
            (key_of (d_meta (set_dep_Replicas (Some (int32_of_int (replicas_of model))) d)));
          call VGet KDeployment (app_key model)].
  destruct (client_Update_Deployment _ _) as [[e|] w2]; simpl in *;
    (split; [by rewrite Hc|]); (split; [by auto|done]).
Qed.

Lemma rewrites_last_SetProgressing m : rewrites_last not_done (SetProgressing m).
Proof. intros w. rewrite SetProgressing_unfold. apply rewrites_last_set_condition. Qed.

Lemma rewrites_last_available m rec :
  rewrites_last (λ _, False) (Reconcile_available m rec).
Proof.
  intros w. destruct (rewrites_last_set_condition ModelAvailable m w) as (l & E & F & _).
  exists l. split; [|done].
  unfold Reconcile_available. rewrite bind_ok_run, SetAvailable_unfold.
  by destruct (set_condition ModelAvailable m w) as [[b|e] w1].
Qed.

Lemma rewrites_last_counters m rec d :
  rewrites_last (λ _, False) (Reconcile_counters m rec d).
Proof.
  unfold Reconcile_counters.
  destruct (ShouldSetReplicas _ _ _ _ _); [|apply rewrites_last_available].
  unfold bind_ok.
  eapply (rewrites_last_then not_done); [apply rewrites_last_SetReplicas| | |apply _].
  - intros a ->. apply rewrites_last_available.
  - intros [[|]|e] w Hn; simpl; [auto|by destruct Hn|auto].
Qed.

Lemma rewrites_last_service req m rec d :
  rewrites_last (λ _, False) (Reconcile_service req m rec d).
Proof.
  unfold Reconcile_service.
  apply rewrites_last_after_ok; [apply rc_EnsureServiceCreated|intros s].
  apply rewrites_last_after_ok; [apply rc_IsServiceReady|intros [|]]; simpl.
  - apply rewrites_last_counters.
  - apply rewrites_last_ret.
Qed.

Lemma rewrites_last_deployment req m rec :
  rewrites_last (λ _, False) (Reconcile_deployment req m rec).
Proof.
  unfold Reconcile_deployment.
  apply rewrites_last_after_ok; [apply rc_EnsureDeploymentCreated|intros d].
  unfold bind_ok at 1.
  eapply (rewrites_last_then not_done); [apply rewrites_last_UpdateDeployment| | |apply _].
  - intros a ->.
    apply rewrites_last_after_ok; [apply rc_IsDeploymentReady|intros [|]]; simpl.
    + apply rewrites_last_service.
    + apply rewrites_last_ret.
  - intros [[|]|e] w Hn; simpl; [auto|by destruct Hn|auto].
Qed.

Lemma rewrites_last_store req m rec :
  rewrites_last (λ _, False) (Reconcile_store req m rec).
Proof.
  unfold Reconcile_store. cbv zeta.
  apply rewrites_last_after_ok; [apply rc_EnsureImageStorePVCCreated|intros p].
  apply rewrites_last_after_ok; [apply rc_EnsureImageStoreStatefulSetCreated|intros ss].
  unfold Reconcile_storeReady.
  apply rewrites_last_after_ok; [apply rc_IsImageStoreStatefulSetReady|intros [|]]; simpl;
    [|apply rewrites_last_ret].
  unfold Reconcile_storeService.
  apply rewrites_last_after_ok; [apply rc_EnsureImageStoreServiceCreated|intros s].
  apply rewrites_last_after_ok; [apply rc_IsImageStoreServiceReady|intros [|]]; simpl.
  - apply rewrites_last_deployment.
  - apply rewrites_last_ret.
Qed.

Lemma rewrites_last_fetched req m :
  rewrites_last (λ _, False) (Reconcile_fetched req m).
Proof.
  unfold Reconcile_fetched. cbv zeta.
  destruct (negb (IsAvailable m)); [|apply rewrites_last_store].
  unfold bind_ok.
  eapply (rewrites_last_then not_done); [apply rewrites_last_SetProgressing| | |apply _].
  - intros a ->. apply rewrites_last_store.
  - intros [[|]|e] w Hn; simpl; [auto|by destruct Hn|auto].
Qed.

Lemma rewrites_last_Reconcile req : rewrites_last (λ _, False) (Reconcile req).
Proof.
  unfold Reconcile.
  apply rewrites_last_after; [apply rc_client_Get|intros [m|e]].
  - apply rewrites_last_fetched.
  - destruct (IgnoreNotFound (Some e)); apply rewrites_last_ret.
Qed.

Lemma filter_rewrites_nil (l : list Call) :
  Forall reads_or_creates l → filter (λ c, ¬ reads_or_creates c) l = [].
Proof.
  induction 1 as [|c l Hc _ IH]; [done|].
  rewrite filter_cons. by rewrite decide_False by auto.
Qed.

(** X10.  No pass makes a call after one that rewrites an object.  Of the
    calls one [Reconcile] logs, newest first, only the head can be an update
    or a status update; everything before it in time is a get or a create.  So
    a pass rewrites at most once, and what it read, it read before. *)
Theorem rewrite_ends_the_pass req w :
  ∃ l, calls (Reconcile req w).2 = (l ++ calls w)%list
     ∧ Forall reads_or_creates (tail l)
     ∧ (length (filter (λ c, ¬ reads_or_creates c) l) ≤ 1)%nat.
Proof.
  destruct (rewrites_last_Reconcile req w) as (l & E & F & _).
  exists l. split; [done|]. split; [done|].
  destruct l as [|c l]; [simpl; lia|]. simpl in F.
  rewrite filter_cons, (filter_rewrites_nil _ F). destruct (decide _); simpl; lia.
Qed.

(** ** What a finished pass has seen *)

Lemma not_finished_requeue d : ¬ finished (Ok (requeue_after d)).
Proof. intros (x & [= <-] & Hx). done. Qed.

Lemma not_finished_Err e : ¬ finished (Err e).
Proof. by intros (x & [=] & _). Qed.

Lemma ShouldSetReplicas_observed m d :
  ShouldSetReplicas m (dep_StatusReplicas (d_Status d)) (dep_ReadyReplicas (d_Status d))
    (dep_AvailableReplicas (d_Status d)) (dep_UnavailableReplicas (d_Status d)) = false
  ↔ counters m = observed d.
Proof.
  rewrite ShouldSetReplicas_false. unfold counters, observed. split.
  - by intros (-> & -> & -> & ->).
  - by intros [= -> -> -> ->].
Qed.

Lemma Reconcile_available_run m rec w :
  Reconcile_available m rec w =
  match set_condition ModelAvailable m w with
  | (Ok _, w1) => (Ok Result_zero, set_events (ModelAvailableEvent rec :: events w1) w1)
  | (Err e, w1) => (Err e, w1)
  end.
Proof.
  unfold Reconcile_available. rewrite bind_ok_run, SetAvailable_unfold.
  by destruct (set_condition ModelAvailable m w) as [[b|e] w1].
Qed.

Lemma keeps_set_condition ty m : keeps [KModel] (set_condition ty m).
Proof.
  intros w. unfold set_condition.
  destruct (has_condition ty _); [apply touches_refl|].
  pose proof (keeps_client_Status_Update
                (set_Conditions [condition_at ty (clock w)] m) w) as H.
  by destruct (client_Status_Update _ w) as [[e|] w1].
Qed.

Lemma Reconcile_available_stores m rec w :
  deployments (Reconcile_available m rec w).2 = deployments w
  ∧ services (Reconcile_available m rec w).2 = services w
  ∧ pvcs (Reconcile_available m rec w).2 = pvcs w
  ∧ statefulsets (Reconcile_available m rec w).2 = statefulsets w.
Proof.
  rewrite Reconcile_available_run.
  pose proof (keeps_set_condition ModelAvailable m w) as T.
  destruct (set_condition ModelAvailable m w) as [[b|e] w1]; cbn [fst snd] in *.
  - cbn. rewrite (t_deployments _ _ _ T), (t_services _ _ _ T), (t_pvcs _ _ _ T),
      (t_statefulsets _ _ _ T) by kinds. done.
  - rewrite (t_deployments _ _ _ T), (t_services _ _ _ T), (t_pvcs _ _ _ T),
      (t_statefulsets _ _ _ T) by kinds. done.
Qed.

Lemma Reconcile_available_finished m rec w :
  finished (Reconcile_available m rec w).1 →
  models w !! key_of (m_meta m) = Some m →
  ∃ m', models (Reconcile_available m rec w).2 !! key_of (m_meta m) = Some m'
      ∧ IsAvailable m' = true
      ∧ counters m' = counters m
      ∧ m_Spec m' = m_Spec m.
Proof.
  rewrite Reconcile_available_run. intros Hfin Hm.
  pose proof (set_condition_written ModelAvailable m w) as Hw.
  pose proof (set_condition_not_written ModelAvailable m w) as Hn.
  destruct (has_condition ModelAvailable (Conditions (m_Status m))) eqn:Ha.
  - rewrite (set_condition_marked _ _ _ Ha) in *. cbn. exists m. by rewrite Hm.
  - destruct (set_condition_unmarked _ m w Ha) as (Hnf & _).
    destruct (set_condition ModelAvailable m w) as [[[|]|e] w1]; cbn [fst snd] in *.
    + destruct (Hw eq_refl) as (_ & old & Ho & Hm1). cbn [models set_events].
      rewrite Hm1, lookup_insert_eq. eexists. split; [done|].
      assert (old = m) as -> by congruence.
      split; [|done]. unfold IsAvailable. cbn. by rewrite has_condition_singleton.
    + done.
    + by apply not_finished_Err in Hfin.
Qed.

Lemma Reconcile_counters_finished m rec d w :
  finished (Reconcile_counters m rec d w).1 →
  counters m = observed d
  ∧ Reconcile_counters m rec d w = Reconcile_available m rec w.
Proof.
  intros Hfin.
  destruct (ShouldSetReplicas m (dep_StatusReplicas (d_Status d))
              (dep_ReadyReplicas (d_Status d)) (dep_AvailableReplicas (d_Status d))
              (dep_UnavailableReplicas (d_Status d))) eqn:Hs.
  - rewrite (Reconcile_counters_differ _ _ _ _ Hs) in Hfin.
    destruct (client_Status_Update _ w) as [[e|] w1].
    + by apply not_finished_Err in Hfin.
    + by apply not_finished_requeue in Hfin.
  - split; [by apply ShouldSetReplicas_observed|by apply Reconcile_counters_equal].
Qed.

Lemma Reconcile_service_finished req m rec d w :
  finished (Reconcile_service req m rec d w).1 →
  ∃ s w1,
    services w1 !! deployment_key req = Some s
    ∧ ClusterIP (s_Spec s) ≠ ""
    ∧ models w1 = models w
    ∧ deployments w1 = deployments w
    ∧ Reconcile_service req m rec d w = Reconcile_counters m rec d w1.
Proof.
  unfold Reconcile_service. rewrite bind_ok_run.
  pose proof (keeps_EnsureServiceCreated (req_Namespace req) (req_Name req) d rec w) as T1.
  pose proof (EnsureServiceCreated_ok (req_Namespace req) (req_Name req) d rec w) as E1.
  destruct (EnsureServiceCreated _ _ _ _ w) as [[s|e] w1]; cbn [fst snd] in *;
    [|by intros ?%not_finished_Err].
  pose proof (ensured_stored _ _ _ _ _ _ _ (E1 s eq_refl)) as Hs.
  rewrite bind_ok_run, IsServiceReady_run. cbv zeta.
  destruct (next_fault w1); [by intros ?%not_finished_Err|].
  rewrite Hs. case_bool_decide as Hip; [by intros ?%not_finished_requeue|].
  cbn [negb]. intros _.
  exists s, (logged (call VGet KService (deployment_key req)) w1).
  split; [exact Hs|]. split; [done|].
  split; [|split; [|reflexivity]].
  - cbn. apply (t_models _ _ _ T1). kinds.
  - cbn. apply (t_deployments _ _ _ T1). kinds.
Qed.

Lemma Reconcile_deployment_finished req m rec w :
  finished (Reconcile_deployment req m rec w).1 →
  app_key m = deployment_key req →
  ∃ d w1,
    deployments w1 !! deployment_key req = Some d
    ∧ in_sync m d
    ∧ deployment_ready d
    ∧ models w1 = models w
    ∧ Reconcile_deployment req m rec w = Reconcile_service req m rec d w1.
Proof.
  intros Hfin Hk. revert Hfin.
  unfold Reconcile_deployment. rewrite bind_ok_run.
  pose proof (keeps_EnsureDeploymentCreated (req_Namespace req) (req_Name req)
                (Image (m_Spec m)) (spec_Replicas (m_Spec m)) m rec w) as T1.
  pose proof (EnsureDeploymentCreated_ok (req_Namespace req) (req_Name req)
                (Image (m_Spec m)) (spec_Replicas (m_Spec m)) m rec w) as E1.
  destruct (EnsureDeploymentCreated _ _ _ _ _ _ w) as [[d|e] w1]; cbn [fst snd] in *;
    [|by intros ?%not_finished_Err].
  pose proof (ensured_stored _ _ _ _ _ _ _ (E1 d eq_refl)) as Hd.
  fold (deployment_key req) in Hd.
  rewrite bind_ok_run, UpdateDeployment_run. cbv zeta. rewrite Hk.
  destruct (next_fault w1); [by intros ?%not_finished_Err|].
  rewrite Hd. case_bool_decide as Hs.
  2:{ destruct (client_Update_Deployment _ _) as [[e|] w2];
        [by intros ?%not_finished_Err|by intros ?%not_finished_requeue]. }
  rewrite bind_ok_run, IsDeploymentReady_run. cbv zeta.
  destruct (next_fault (logged _ w1)); [by intros ?%not_finished_Err|].
  change (deployments (logged ?c w1)) with (deployments w1).
  fold (deployment_key req). rewrite Hd.
  case_bool_decide as Hr; [|by intros ?%not_finished_requeue].
  cbn [negb]. intros _.
  exists d, (logged (call VGet KDeployment (deployment_key req))
               (logged (call VGet KDeployment (deployment_key req)) w1)).
  split; [exact Hd|]. split; [done|].
  split; [done|]. split; [|reflexivity].
  cbn. apply (t_models _ _ _ T1). kinds.
Qed.

Lemma Reconcile_store_finished req m rec w :
  finished (Reconcile_store req m rec w).1 →
  ∃ w1, models w1 = models w
      ∧ deployments w1 = deployments w
      ∧ Reconcile_store req m rec w = Reconcile_deployment req m rec w1.
Proof.
  unfold Reconcile_store. cbv zeta. rewrite bind_ok_run.
  pose proof (keeps_EnsureImageStorePVCCreated (req_Namespace req)
                (StorageClassName (m_Spec m)) (PersistentVolumeClaim (m_Spec m))
                (PersistentVolume (m_Spec m)) rec w) as T1.
  destruct (EnsureImageStorePVCCreated _ _ _ _ _ w) as [[p|e] w1]; cbn [fst snd] in *;
    [|by intros ?%not_finished_Err].
  rewrite bind_ok_run.
  pose proof (keeps_EnsureImageStoreStatefulSetCreated (req_Namespace req) rec w1) as T2.
  destruct (EnsureImageStoreStatefulSetCreated _ _ w1) as [[ss|e] w2]; cbn [fst snd] in *;
    [|by intros ?%not_finished_Err].
  unfold Reconcile_storeReady. rewrite bind_ok_run.
  pose proof (keeps_IsImageStoreStatefulSetReady (req_Namespace req) rec w2) as T3.
  destruct (IsImageStoreStatefulSetReady _ _ w2) as [[[|]|e] w3]; cbn [fst snd negb] in *;
    [|by intros ?%not_finished_requeue|by intros ?%not_finished_Err].
  unfold Reconcile_storeService. rewrite bind_ok_run.
  pose proof (keeps_EnsureImageStoreServiceCreated (req_Namespace req) ss rec w3) as T4.
  destruct (EnsureImageStoreServiceCreated _ _ _ w3) as [[s|e] w4]; cbn [fst snd] in *;
    [|by intros ?%not_finished_Err].
  rewrite bind_ok_run.
  pose proof (keeps_IsImageStoreServiceReady (req_Namespace req) rec w4) as T5.
  destruct (IsImageStoreServiceReady _ _ w4) as [[[|]|e] w5]; cbn [fst snd negb] in *;
    [|by intros ?%not_finished_requeue|by intros ?%not_finished_Err].
  intros _. exists w5. split; [|split; [|done]].
  - rewrite (t_models _ _ _ T5), (t_models _ _ _ T4), (t_models _ _ _ T3),
      (t_models _ _ _ T2), (t_models _ _ _ T1) by kinds. done.
  - rewrite (t_deployments _ _ _ T5), (t_deployments _ _ _ T4), (t_deployments _ _ _ T3),
      (t_deployments _ _ _ T2), (t_deployments _ _ _ T1) by kinds. done.
Qed.

Lemma Reconcile_fetched_finished req m w :
  finished (Reconcile_fetched req m w).1 →
  ∃ w1, models w1 = models w
      ∧ deployments w1 = deployments w
      ∧ Reconcile_fetched req m w = Reconcile_deployment req m (NewWrappedRecorder m) w1.
Proof.
  unfold Reconcile_fetched. cbv zeta.
  destruct (negb (IsAvailable m)); [|apply Reconcile_store_finished].
  rewrite bind_ok_run, SetProgressing_unfold.
  destruct (has_condition ModelProgressing (Conditions (m_Status m))) eqn:Hp.
  - rewrite (set_condition_marked _ _ _ Hp). apply Reconcile_store_finished.
  - destruct (set_condition_unmarked _ m w Hp) as (Hnf & _).
    destruct (set_condition ModelProgressing m w) as [[[|]|e] w1]; cbn [fst snd] in *.
    + by intros ?%not_finished_requeue.
    + done.
    + by intros ?%not_finished_Err.
Qed.

Lemma Reconcile_finished req w :
  finished (Reconcile req w).1 →
  models w !! NamespacedName req = None
  ∨ ∃ m w1, models w !! NamespacedName req = Some m
      ∧ models w1 = models w
      ∧ deployments w1 = deployments w
      ∧ Reconcile req w = Reconcile_deployment req m (NewWrappedRecorder m) w1.
Proof.
  unfold Reconcile. rewrite bind_run, client_Get_eq by done. cbn [fst snd].
  destruct (next_fault w) as [e|] eqn:Hf.
  { unfold IgnoreNotFound. rewrite (next_fault_not_found _ _ Hf).
    by intros ?%not_finished_Err. }
  destruct (models w !! NamespacedName req) as [m|]; [|by left].
  intros Hfin. right.
  destruct (Reconcile_fetched_finished req m _ Hfin) as (w1 & Hm & Hd & E).
  by exists m, w1.
Qed.

(** X11.  A pass reports done only over a Model that is ready.  When
    [Reconcile] returns without error and without requeue, either there is no
    Model under the requested name, or the stored Model is marked Available
    and the pass has seen all it waits for: the deployment stored under the
    Model's derived name declares the replica count of the Model and has that
    many ready replicas, the status counters of the Model are the ones that
    deployment reports, and the service in front of it has its cluster
    address. *)
Theorem finished_pass_means_ready req w :
  wf_models w →
  finished (Reconcile req w).1 →
  models w !! NamespacedName req = None
  ∨ ∃ m' d s,
      models (Reconcile req w).2 !! NamespacedName req = Some m'
      ∧ IsAvailable m' = true
      ∧ deployments (Reconcile req w).2 !! deployment_key req = Some d
      ∧ in_sync m' d
      ∧ deployment_ready d
      ∧ counters m' = observed d
      ∧ services (Reconcile req w).2 !! deployment_key req = Some s
      ∧ ClusterIP (s_Spec s) ≠ "".
Proof.
  intros Hwf Hfin.
  destruct (Reconcile_finished req w Hfin) as [?|(m & w1 & Hm & Hm1 & _ & E)]; [by left|].
  right. rewrite E in *.
  pose proof (Hwf _ _ Hm) as Hk.
  assert (app_key m = deployment_key req) as Hak.
  { unfold app_key, deployment_key. by injection Hk as -> ->. }
  destruct (Reconcile_deployment_finished req m _ w1 Hfin Hak)
    as (d & w2 & Hd & Hsync & Hready & Hm2 & E2).
  rewrite E2 in *.
  destruct (Reconcile_service_finished req m _ d w2 Hfin)
    as (s & w3 & Hs & Hip & Hm3 & Hd3 & E3).
  rewrite E3 in *.
  destruct (Reconcile_counters_finished m _ d w3 Hfin) as (Hc & E4).
  rewrite E4 in *.
  destruct (Reconcile_available_finished m (NewWrappedRecorder m) w3 Hfin)
    as (m' & Hm' & Ha & Hc' & Hspec).
  { rewrite Hk, Hm3, Hm2, Hm1. done. }
  destruct (Reconcile_available_stores m (NewWrappedRecorder m) w3) as (Sd & Ss & _).
  exists m', d, s. rewrite Hk in Hm'.
  split; [done|]. split; [done|].
  split; [by rewrite Sd, Hd3|].
  split; [unfold in_sync, replicas_of in *; by rewrite Hspec|].
  split; [done|]. split; [congruence|].
  split; [by rewrite Ss|done].
Qed.

(** ** The delays a pass asks for *)

Lemma yields_bind_ok {A B} (P : B → Prop) (c : M (res A)) (k : A → M (res B)) :
  (∀ a, yields P (k a)) → yields P (bind_ok c k).
Proof.
  intros Hk w r. rewrite bind_ok_run.
  destruct (c w) as [[a|e] w1]; [apply Hk|done].
Qed.

Lemma yields_ret {A} (P : A → Prop) (a : A) : P a → yields P (ret (Ok a)).
Proof. by intros Ha w r [= <-]. Qed.

Lemma yields_later : yields done_or_later (ret (Ok (requeue_after (Second * 5)))).
Proof. apply yields_ret. by right. Qed.

Lemma yields_available m rec : yields done_or_later (Reconcile_available m rec).
Proof.
  intros w r. rewrite Reconcile_available_run.
  destruct (set_condition ModelAvailable m w) as [[b|e] w1]; [|done].
  intros [= <-]. by left.
Qed.

Lemma yields_counters m rec d : yields done_or_later (Reconcile_counters m rec d).
Proof.
  unfold Reconcile_counters. destruct (ShouldSetReplicas _ _ _ _ _);
    [|apply yields_available].
  apply yields_bind_ok. intros [|]; [apply yields_later|apply yields_available].
Qed.

Lemma yields_service req m rec d : yields done_or_later (Reconcile_service req m rec d).
Proof.
  unfold Reconcile_service. apply yields_bind_ok. intros s.
  apply yields_bind_ok. intros [|]; [apply yields_counters|apply yields_later].
Qed.

Lemma yields_deployment req m rec : yields done_or_later (Reconcile_deployment req m rec).
Proof.
  unfold Reconcile_deployment. apply yields_bind_ok. intros d.
  apply yields_bind_ok. intros [|]; [apply yields_later|].
  apply yields_bind_ok. intros [|]; [apply yields_service|apply yields_later].
Qed.

Lemma yields_store req m rec : yields done_or_later (Reconcile_store req m rec).
Proof.
  unfold Reconcile_store. cbv zeta. apply yields_bind_ok. intros p.
  apply yields_bind_ok. intros ss. unfold Reconcile_storeReady.
  apply yields_bind_ok. intros [|]; [|apply yields_later]. unfold Reconcile_storeService.
  apply yields_bind_ok. intros s.
  apply yields_bind_ok. intros [|]; [apply yields_deployment|apply yields_later].
Qed.

Lemma requeue_one_not_later : ¬ done_or_later (requeue_after (Second * 1)).
Proof. by intros [[=]|[=]]. Qed.

Lemma Reconcile_fetched_fresh req m w :
  IsAvailable m = false →
  IsProgressing m = false →
  Reconcile_fetched req m w =
  match client_Status_Update
          (set_Conditions [condition_at ModelProgressing (clock w)] m) w with
  | (Some e, w1) => (Err e, w1)
  | (None, w1) =>
      (Ok (requeue_after (Second * 1)),
       set_events (ModelProgressingEvent (NewWrappedRecorder m) :: events w1) w1)
  end.
Proof.
  intros Ha Hp. unfold Reconcile_fetched. cbv zeta. rewrite Ha. cbn [negb].
  rewrite bind_ok_run, SetProgressing_unfold. unfold set_condition.
  unfold IsProgressing in Hp. rewrite Hp.
  by destruct (client_Status_Update _ w) as [[e|] w1].
Qed.

Lemma Reconcile_fetched_marked req m w :
  IsAvailable m = true ∨ IsProgressing m = true →
  Reconcile_fetched req m w = Reconcile_store req m (NewWrappedRecorder m) w.
Proof.
  intros Hc. unfold Reconcile_fetched. cbv zeta.
  destruct (IsAvailable m) eqn:Ha; cbn [negb]; [done|].
  destruct Hc as [?|Hp]; [done|].
  rewrite bind_ok_run, SetProgressing_unfold.
  unfold IsProgressing in Hp. by rewrite (set_condition_marked _ _ _ Hp).
Qed.

(** X12.  The delays a pass asks for.  A pass that returns without error
    returns done, a requeue after one second, or a requeue after five.  The
    one-second requeue is the answer to a stored Model that carries neither
    an Available nor a Progressing condition, and to nothing else: that pass
    writes the Progressing condition, says so, and reaches no stage. *)
Theorem requeue_delays req w r :
  (Reconcile req w).1 = Ok r →
  (r = Result_zero ∨ r = requeue_after (Second * 1) ∨ r = requeue_after (Second * 5))
  ∧ (r = requeue_after (Second * 1)
     ↔ ∃ m, models w !! NamespacedName req = Some m
          ∧ IsAvailable m = false ∧ IsProgressing m = false)
  ∧ (r = requeue_after (Second * 1) →
     ∃ m, calls (Reconcile req w).2
          = status_write m :: call VGet KModel (NamespacedName req) :: calls w
        ∧ events (Reconcile req w).2
          = ModelProgressingEvent (NewWrappedRecorder m) :: events w).
Proof.
  unfold Reconcile. rewrite bind_run, client_Get_eq by done. cbn [fst snd].
  destruct (next_fault w) as [e|] eqn:Hf.
  { unfold IgnoreNotFound. by rewrite (next_fault_not_found _ _ Hf). }
  destruct (models w !! NamespacedName req) as [m|] eqn:Hm.
  2:{ cbn. intros [= <-]. split; [by left|]. split; [|done].
      split; [done|]. by intros (m & [=] & _). }
  set (w0 := logged (call VGet KModel (NamespacedName req)) w).
  destruct (IsAvailable m) eqn:Ha.
  { rewrite Reconcile_fetched_marked by auto. intros Hr.
    pose proof (yields_store _ _ _ _ _ Hr) as Hl.
    split; [destruct Hl; auto|].
    assert (r ≠ requeue_after (Second * 1)) as Hne.
    { intros ->. by apply requeue_one_not_later in Hl. }
    split; [|done]. split; [done|]. intros (m' & [= <-] & ? & ?). congruence. }
  destruct (IsProgressing m) eqn:Hp.
  { rewrite Reconcile_fetched_marked by auto. intros Hr.
    pose proof (yields_store _ _ _ _ _ Hr) as Hl.
    split; [destruct Hl; auto|].
    assert (r ≠ requeue_after (Second * 1)) as Hne.
    { intros ->. by apply requeue_one_not_later in Hl. }
    split; [|done]. split; [done|]. intros (m' & [= <-] & ? & ?). congruence. }
  rewrite (Reconcile_fetched_fresh _ _ _ Ha Hp).
  pose proof (client_Status_Update_calls
                (set_Conditions [condition_at ModelProgressing (clock w0)] m) w0) as Hc.
  pose proof (client_Status_Update_events
                (set_Conditions [condition_at ModelProgressing (clock w0)] m) w0) as He.
  destruct (client_Status_Update _ w0) as [[e|] w1]; [done|]. cbn [fst snd] in *.
  intros [= <-]. split; [auto|]. split; [split; [by exists m|done]|].
  intros _. exists m. cbn [calls events set_events]. rewrite Hc, He. done.
Qed.

(** ** A pass over a Model that is settled *)

Ltac calm := apply next_fault_calm; repeat apply faults_logged; assumption.

Lemma EnsureImageStorePVCCreated_found ns sc pvc pv rec w p :
  next_fault w = None →
  pvcs w !! (ns, imageStorePVCName) = Some p →
  EnsureImageStorePVCCreated ns sc pvc pv rec w
  = (Ok p, logged (call VGet KPersistentVolumeClaim (ns, imageStorePVCName)) w).
Proof.
  intros Hf Hp. unfold EnsureImageStorePVCCreated, bind, ret.
  rewrite client_Get_eq by done. by rewrite Hf, Hp.
Qed.

Lemma Reconcile_settled_path req w m p :
  faults w = [] →
  models w !! NamespacedName req = Some m →
  IsAvailable m = true ∨ IsProgressing m = true →
  pvcs w !! (req_Namespace req, imageStorePVCName) = Some p →
  statefulset_ready (req_Namespace req) w = true →
  store_service_ready (req_Namespace req) w = true →
  Reconcile req w
  = Reconcile_deployment req m (NewWrappedRecorder m)
      (logged (call VGet KService (req_Namespace req, ImageStoreStatefulSetName))
         (logged (call VGet KService (req_Namespace req, ImageStoreStatefulSetName))
            (logged (call VGet KStatefulSet (req_Namespace req, ImageStoreStatefulSetName))
               (logged (call VGet KStatefulSet
                          (req_Namespace req, ImageStoreStatefulSetName))
                  (logged (call VGet KPersistentVolumeClaim
                             (req_Namespace req, imageStorePVCName))
                     (logged (call VGet KModel (NamespacedName req)) w)))))).
Proof.
  intros Hf Hm Hc Hp Hss Hsvc.
  unfold Reconcile. rewrite bind_run, client_Get_eq by done. cbn [fst snd].
  rewrite (next_fault_calm _ Hf), Hm.
  rewrite Reconcile_fetched_marked by done.
  unfold Reconcile_store. cbv zeta. rewrite bind_ok_run.
  rewrite (EnsureImageStorePVCCreated_found _ _ _ _ _ _ p); [|calm|exact Hp].
  rewrite bind_ok_run.
  unfold statefulset_ready in Hss.
  destruct (statefulsets w !! (req_Namespace req, ImageStoreStatefulSetName))
    as [ss|] eqn:Hs; [|done].
  rewrite (EnsureImageStoreStatefulSetCreated_found _ _ _ ss); [|calm|exact Hs].
  unfold Reconcile_storeReady. rewrite bind_ok_run.
  rewrite IsImageStoreStatefulSetReady_ready;
    [|calm|unfold statefulset_ready; cbn; by rewrite Hs].
  cbn [negb]. unfold Reconcile_storeService. rewrite bind_ok_run.
  unfold store_service_ready in Hsvc.
  destruct (services w !! (req_Namespace req, ImageStoreStatefulSetName))
    as [s|] eqn:Hv; [|done].
  rewrite (EnsureImageStoreServiceCreated_found _ _ _ _ s); [|calm|exact Hv].
  rewrite bind_ok_run.
  rewrite IsImageStoreServiceReady_ready;
    [|calm|unfold store_service_ready; cbn; by rewrite Hv].
  reflexivity.
Qed.

Lemma Reconcile_deployment_settled req m rec w d s :
  faults w = [] →
  app_key m = deployment_key req →
  IsAvailable m = true →
  deployments w !! deployment_key req = Some d →
  in_sync m d →
  deployment_ready d →
  services w !! deployment_key req = Some s →
  ClusterIP (s_Spec s) ≠ "" →
  counters m = observed d →
  Reconcile_deployment req m rec w
  = (Ok Result_zero,
     set_events (ModelAvailableEvent rec :: events w)
       (logged (call VGet KService (deployment_key req))
          (logged (call VGet KService (deployment_key req))
             (logged (call VGet KDeployment (deployment_key req))
                (logged (call VGet KDeployment (deployment_key req))
                   (logged (call VGet KDeployment (deployment_key req)) w)))))).
Proof.
  intros Hf Hk Ha Hd Hsync Hready Hs Hip Hc.
  unfold Reconcile_deployment. rewrite bind_ok_run.
  rewrite (EnsureDeploymentCreated_found _ _ _ _ _ _ _ d); [|calm|exact Hd].
  rewrite bind_ok_run, (UpdateDeployment_in_sync _ _ _ d); [|calm|by rewrite Hk|done].
  rewrite Hk. rewrite bind_ok_run, IsDeploymentReady_run. cbv zeta.
  rewrite next_fault_calm by (repeat apply faults_logged; assumption).
  change (deployments (logged ?a (logged ?b w))) with (deployments w).
  fold (deployment_key req). rewrite Hd, bool_decide_eq_true_2 by done.
  cbn [negb]. unfold Reconcile_service. rewrite bind_ok_run.
  rewrite (EnsureServiceCreated_found _ _ _ _ _ s); [|calm|exact Hs].
  rewrite bind_ok_run, IsServiceReady_run. cbv zeta.
  rewrite next_fault_calm by (repeat apply faults_logged; assumption).
  change (services (logged ?a (logged ?b (logged ?c (logged ?e w))))) with (services w).
  fold (deployment_key req). rewrite Hs, bool_decide_eq_false_2 by done.
  cbn [negb]. rewrite Reconcile_counters_equal by (by apply ShouldSetReplicas_observed).
  rewrite Reconcile_available_run, set_condition_marked by done.
  reflexivity.
Qed.

(** X13.  A pass over a settled Model only reads, and still notifies.  When
    the Model is marked Available, everything the pass looks at is in place
    and ready, the deployment declares the Model's replica count, the status
    counters are those the deployment reports and no call fails, [Reconcile]
    returns done, every call it makes is a get, no stored object changes; but
    the ModelAvailable notification is sent once more, since the pass sends
    it whether or not [SetAvailable] had anything to set. *)
Theorem settled_pass_only_reads req w m p d s :
  faults w = [] →
  wf_models w →
  models w !! NamespacedName req = Some m →
  IsAvailable m = true →
  pvcs w !! (req_Namespace req, imageStorePVCName) = Some p →
  statefulset_ready (req_Namespace req) w = true →
  store_service_ready (req_Namespace req) w = true →
  deployments w !! deployment_key req = Some d →
  in_sync m d →
  deployment_ready d →
  services w !! deployment_key req = Some s →
  ClusterIP (s_Spec s) ≠ "" →
  counters m = observed d →
  (Reconcile req w).1 = Ok Result_zero
  ∧ models (Reconcile req w).2 = models w
  ∧ pvcs (Reconcile req w).2 = pvcs w
  ∧ statefulsets (Reconcile req w).2 = statefulsets w
  ∧ deployments (Reconcile req w).2 = deployments w
  ∧ services (Reconcile req w).2 = services w
  ∧ (∃ l, calls (Reconcile req w).2 = (l ++ calls w)%list
        ∧ Forall (λ c, call_verb c = VGet) l)
  ∧ events (Reconcile req w).2 = ModelAvailableEvent (NewWrappedRecorder m) :: events w.
Proof.
  intros Hf Hwf Hm Ha Hp Hss Hsvc Hd Hsync Hready Hs Hip Hc.
  rewrite (Reconcile_settled_path req w m p) by auto.
  assert (app_key m = deployment_key req) as Hk.
  { pose proof (Hwf _ _ Hm) as Hk. unfold app_key, deployment_key.
    by injection Hk as -> ->. }
  rewrite (Reconcile_deployment_settled req m _ _ d s); try done;
    [|by repeat apply faults_logged].
  repeat (split; [done|]). split; [|done].
  eexists [_; _; _; _; _; _; _; _; _; _; _]. split; [reflexivity|].
  by repeat constructor.
Qed.

(** ** The footprint of a pass *)

Section Within.

Context (R : World → World → Prop) `{!Reflexive R, !Transitive R}.

Lemma within_ret {A} (a : A) : within R (ret a).
Proof using Type*. intros w. reflexivity. Qed.

Lemma within_bind {A B} (c : M A) (k : A → M B) :
  within R c → (∀ a, within R (k a)) → within R (bind c k).
Proof using Type*.
  intros Hc Hk w. rewrite bind_run. etrans; [apply Hc|apply Hk].
Qed.

Lemma within_bind_ok {A B} (c : M (res A)) (k : A → M (res B)) :
  within R c → (∀ a, within R (k a)) → within R (bind_ok c k).
Proof using Type*.
  intros Hc Hk. apply within_bind; [done|].
  intros [a|e]; [apply Hk|apply within_ret].
Qed.

End Within.

Lemma set_dep_Replicas_same d : set_dep_Replicas (dep_Replicas (d_Spec d)) d = d.
Proof. by destruct d as [? [] ?]. Qed.

#[global] Instance only_resized_refl key : Reflexive (only_resized key).
Proof.
  intros D. split; [done|]. intros d Hd. exists (dep_Replicas (d_Spec d)).
  by rewrite set_dep_Replicas_same.
Qed.

#[global] Instance only_resized_trans key : Transitive (only_resized key).
Proof.
  intros D1 D2 D3 [A1 B1] [A2 B2]. split.
  - intros k Hk. by rewrite A2, A1.
  - intros d Hd. destruct (B1 d Hd) as [r Hr]. destruct (B2 _ Hr) as [r' Hr'].
    by exists r'.
Qed.

#[global] Instance resizes_refl key : Reflexive (resizes key).
Proof. intros w Ho. split; [reflexivity|done]. Qed.

#[global] Instance resizes_trans key : Transitive (resizes key).
Proof.
  intros w1 w2 w3 H12 H23 Ho.
  destruct (H12 Ho) as [R12 O2]. destruct (H23 O2) as [R23 O3].
  split; [by etrans|done].
Qed.

#[global] Instance adds_services_refl keys : Reflexive (adds_services keys).
Proof. intros w. split; done. Qed.

#[global] Instance adds_services_trans keys : Transitive (adds_services keys).
Proof.
  intros w1 w2 w3 [A1 B1] [A2 B2]. split; [by etrans|].
  intros k Hk. by rewrite B2, B1.
Qed.

Lemma resizes_same key w w' : deployments w' = deployments w → resizes key w w'.
Proof. intros E Ho. rewrite E. split; [reflexivity|done]. Qed.

Lemma adds_services_same keys w w' : services w' = services w → adds_services keys w w'.
Proof. intros E. unfold adds_services. rewrite E. split; done. Qed.

Lemma within_resizes_keeps key ks {A} (c : M A) :
  keeps ks c → KDeployment ∉ ks → within (resizes key) c.
Proof. intros Hc Hk w. apply resizes_same. by apply (t_deployments _ _ _ (Hc w)). Qed.

Lemma within_adds_services_keeps keys ks {A} (c : M A) :
  keeps ks c → KService ∉ ks → within (adds_services keys) c.
Proof. intros Hc Hk w. apply adds_services_same. by apply (t_services _ _ _ (Hc w)). Qed.

Lemma resizes_EnsureDeploymentCreated ns name image replicas model rec :
  within (resizes (ns, ModelAppName name))
    (EnsureDeploymentCreated ns name image replicas model rec).
Proof.
  intros w. rewrite EnsureDeploymentCreated_run. cbv zeta.
  destruct (next_fault w); [by apply resizes_same|].
  destruct (deployments w !! _) as [d|] eqn:Hd; [by apply resizes_same|].
  destruct (next_fault (logged _ w)); [by apply resizes_same|].
  intros Ho. cbn [snd deployments set_events set_deployments]. split; [split|].
  - intros k Hk. by rewrite lookup_insert_ne.
  - intros d Hd'. congruence.
  - intros d. rewrite lookup_insert_eq. by intros [= <-].
Qed.

Lemma resizes_UpdateDeployment model rec :
  within (resizes (app_key model)) (UpdateDeployment model rec).
Proof.
  intros w. rewrite UpdateDeployment_run. cbv zeta.
  destruct (next_fault w); [by apply resizes_same|].
  destruct (deployments w !! app_key model) as [d|] eqn:Hd; [|by apply resizes_same].
  case_bool_decide; [by apply resizes_same|].
  rewrite client_Update_Deployment_eq.
  destruct (next_fault (logged _ w)); [by apply resizes_same|].
  intros Ho. cbn [set_dep_Replicas d_meta deployments logged set_faults set_calls].
  rewrite (Ho d Hd), Hd. cbn [snd deployments set_events set_deployments].
  split; [split|].
  - intros k Hk. by rewrite lookup_insert_ne.
  - intros d' Hd'. assert (d' = d) as -> by congruence.
    rewrite lookup_insert_eq. by eexists.
  - intros d'. rewrite lookup_insert_eq. intros [= <-]. cbn. by apply Ho.
Qed.

Lemma resizes_IsDeploymentReady key ns name rec :
  within (resizes key) (IsDeploymentReady ns name rec).
Proof.
  intros w. apply resizes_same. rewrite IsDeploymentReady_run. cbv zeta.
  destruct (next_fault w); [done|]. destruct (deployments w !! _); [|done].
  by case_bool_decide.
Qed.

Lemma Reconcile_counters_stores m rec d w :
  deployments (Reconcile_counters m rec d w).2 = deployments w
  ∧ services (Reconcile_counters m rec d w).2 = services w.
Proof.
  unfold Reconcile_counters.
  destruct (ShouldSetReplicas _ _ _ _ _);
    [|by destruct (Reconcile_available_stores m rec w) as (? & ? & _)].
  rewrite bind_ok_run.
  pose proof (keeps_SetReplicas m (dep_StatusReplicas (d_Status d))
                (dep_ReadyReplicas (d_Status d)) (dep_AvailableReplicas (d_Status d))
                (dep_UnavailableReplicas (d_Status d)) w) as T.
  destruct (SetReplicas _ _ _ _ _ w) as [[[|]|e] w1]; cbn [fst snd] in *.
  - split; [apply (t_deployments _ _ _ T)|apply (t_services _ _ _ T)]; kinds.
  - destruct (Reconcile_available_stores m rec w1) as (-> & -> & _).
    split; [apply (t_deployments _ _ _ T)|apply (t_services _ _ _ T)]; kinds.
  - split; [apply (t_deployments _ _ _ T)|apply (t_services _ _ _ T)]; kinds.
Qed.

Lemma resizes_service key req m rec d : within (resizes key) (Reconcile_service req m rec d).
Proof.
  unfold Reconcile_service.
  apply within_bind_ok; [apply _..| |intros s].
  { eapply within_resizes_keeps; [apply keeps_EnsureServiceCreated|kinds]. }
  apply within_bind_ok; [apply _..| |intros [|]]; cbn [negb].
  { eapply within_resizes_keeps; [apply keeps_IsServiceReady|kinds]. }
  - intros w. apply resizes_same. by destruct (Reconcile_counters_stores m rec d w).
  - apply within_ret; apply _.
Qed.

Lemma resizes_deployment req m rec :
  app_key m = deployment_key req →
  within (resizes (deployment_key req)) (Reconcile_deployment req m rec).
Proof.
  intros Hk. unfold Reconcile_deployment.
  apply within_bind_ok; [apply _..|apply resizes_EnsureDeploymentCreated|intros d].
  apply within_bind_ok; [apply _..| |intros [|]].
  { rewrite <- Hk. apply resizes_UpdateDeployment. }
  { apply within_ret; apply _. }
  apply within_bind_ok; [apply _..|apply resizes_IsDeploymentReady|intros [|]]; cbn [negb].
  - apply resizes_service.
  - apply within_ret; apply _.
Qed.

Lemma resizes_store req m rec :
  app_key m = deployment_key req →
  within (resizes (deployment_key req)) (Reconcile_store req m rec).
Proof.
  intros Hk. unfold Reconcile_store. cbv zeta.
  apply within_bind_ok; [apply _..| |intros p].
  { eapply within_resizes_keeps; [apply keeps_EnsureImageStorePVCCreated|kinds]. }
  apply within_bind_ok; [apply _..| |intros ss].
  { eapply within_resizes_keeps; [apply keeps_EnsureImageStoreStatefulSetCreated|kinds]. }
  unfold Reconcile_storeReady.
  apply within_bind_ok; [apply _..| |intros [|]]; cbn [negb];
    [| |by apply within_ret; apply _].
  { eapply within_resizes_keeps; [apply keeps_IsImageStoreStatefulSetReady|kinds]. }
  unfold Reconcile_storeService.
  apply within_bind_ok; [apply _..| |intros s].
  { eapply within_resizes_keeps; [apply keeps_EnsureImageStoreServiceCreated|kinds]. }
  apply within_bind_ok; [apply _..| |intros [|]]; cbn [negb].
  { eapply within_resizes_keeps; [apply keeps_IsImageStoreServiceReady|kinds]. }
  - by apply resizes_deployment.
  - apply within_ret; apply _.
Qed.

Lemma resizes_fetched req m :
  app_key m = deployment_key req →
  within (resizes (deployment_key req)) (Reconcile_fetched req m).
Proof.
  intros Hk. unfold Reconcile_fetched. cbv zeta.
  destruct (negb (IsAvailable m)); [|by apply resizes_store].
  apply within_bind_ok; [apply _..| |intros [|]].
  { eapply within_resizes_keeps; [apply keeps_SetProgressing|kinds]. }
  - intros w. by apply resizes_same.
  - by apply resizes_store.
Qed.

Lemma ModelAppName_inj a b : ModelAppName a = ModelAppName b → a = b.
Proof. unfold ModelAppName. by intros ?%(inj (String.app _)). Qed.

Lemma wf_models_app_key req w m :
  wf_models w → models w !! NamespacedName req = Some m → app_key m = deployment_key req.
Proof.
  intros Hwf Hm. pose proof (Hwf _ _ Hm) as Hk. unfold app_key, deployment_key.
  by injection Hk as -> ->.
Qed.

Lemma resizes_Reconcile req w :
  wf_models w → resizes (deployment_key req) w (Reconcile req w).2.
Proof.
  intros Hwf. unfold Reconcile. rewrite bind_run, client_Get_eq by done. cbn [fst snd].
  destruct (next_fault w).
  { by destruct (IgnoreNotFound _); apply resizes_same. }
  destruct (models w !! NamespacedName req) as [m|] eqn:Hm; [|by apply resizes_same].
  etrans; [|apply resizes_fetched; by eapply wf_models_app_key].
  by apply resizes_same.
Qed.

(** X14.  Of the deployments, a pass can change one only, and of that one the
    replica count only.  With every Model stored under its own name and the
    deployment of the requested Model, if there is one, under its own, after
    [Reconcile] every deployment under another name is as it was, which
    covers the deployments of all other Models of the namespace; and a
    deployment that was there under the derived name is still there, the same
    but for its declared replica count. *)
Theorem pass_resizes_its_own_deployment_only req w :
  wf_models w →
  own_name (deployment_key req) (deployments w) →
  (∀ k, k ≠ deployment_key req →
     deployments (Reconcile req w).2 !! k = deployments w !! k)
  ∧ (∀ name, name ≠ req_Name req →
       deployments (Reconcile req w).2 !! (req_Namespace req, ModelAppName name)
       = deployments w !! (req_Namespace req, ModelAppName name))
  ∧ (∀ d, deployments w !! deployment_key req = Some d →
       ∃ r, deployments (Reconcile req w).2 !! deployment_key req
            = Some (set_dep_Replicas r d))
  ∧ own_name (deployment_key req) (deployments (Reconcile req w).2).
Proof.
  intros Hwf Ho. destruct (resizes_Reconcile req w Hwf Ho) as [[A B] O].
  split; [done|]. split; [|done].
  intros name Hn. apply A. unfold deployment_key. intros E.
  apply (f_equal snd) in E. cbn [snd] in E. by apply ModelAppName_inj in E.
Qed.

(** ** Services *)

Lemma adds_services_EnsureServiceCreated keys ns name d rec :
  (ns, ModelAppName name) ∈ keys →
  within (adds_services keys) (EnsureServiceCreated ns name d rec).
Proof.
  intros Hk w. rewrite EnsureServiceCreated_run. cbv zeta.
  destruct (next_fault w); [by apply adds_services_same|].
  destruct (services w !! _) as [s|] eqn:Hs; [by apply adds_services_same|].
  destruct (next_fault (logged _ w)); [by apply adds_services_same|].
  cbn [snd]. split; cbn [services set_events set_services].
  - by apply insert_subseteq.
  - intros k Hn. rewrite lookup_insert_ne; [done|]. by intros <-.
Qed.

Lemma adds_services_EnsureImageStoreServiceCreated keys ns ss rec :
  (ns, ImageStoreStatefulSetName) ∈ keys →
  within (adds_services keys) (EnsureImageStoreServiceCreated ns ss rec).
Proof.
  intros Hk w. unfold EnsureImageStoreServiceCreated, bind, ret, Eventf.
  rewrite client_Get_eq by done.
  destruct (next_fault w) as [e|] eqn:Hf; cbn [fst snd].
  { rewrite (next_fault_not_found _ _ Hf). by apply adds_services_same. }
  destruct (services w !! _) as [s|] eqn:Hs; [by apply adds_services_same|].
  cbn [IsNotFound]. rewrite client_Create_Service_eq.
  destruct (next_fault (logged _ w)); [by apply adds_services_same|].
  unfold key_of. cbn [s_meta Name Namespace services logged set_faults set_calls].
  rewrite Hs. cbn [fst snd]. split; cbn [services set_events set_services].
  - by apply insert_subseteq.
  - intros k Hn. rewrite lookup_insert_ne; [done|]. by intros <-.
Qed.

Lemma adds_services_IsServiceReady keys ns name rec :
  within (adds_services keys) (IsServiceReady ns name rec).
Proof.
  intros w. apply adds_services_same. rewrite IsServiceReady_run. cbv zeta.
  destruct (next_fault w); [done|]. destruct (services w !! _); [|done].
  by case_bool_decide.
Qed.

Lemma adds_services_IsImageStoreServiceReady keys ns rec :
  within (adds_services keys) (IsImageStoreServiceReady ns rec).
Proof.
  intros w. apply adds_services_same.
  unfold IsImageStoreServiceReady, bind, ret, Eventf.
  rewrite client_Get_eq by done.
  destruct (next_fault w) as [e|] eqn:Hf; cbn [fst snd].
  { by rewrite (next_fault_not_found _ _ Hf). }
  destruct (services w !! _); [|done]. by case_bool_decide.
Qed.

Lemma adds_services_service keys req m rec d :
  deployment_key req ∈ keys →
  within (adds_services keys) (Reconcile_service req m rec d).
Proof.
  intros Hk. unfold Reconcile_service.
  apply within_bind_ok; [apply _..|by apply adds_services_EnsureServiceCreated|intros s].
  apply within_bind_ok; [apply _..|apply adds_services_IsServiceReady|intros [|]];
    cbn [negb].
  - intros w. apply adds_services_same. by destruct (Reconcile_counters_stores m rec d w).
  - apply within_ret; apply _.
Qed.

Lemma adds_services_deployment keys req m rec :
  deployment_key req ∈ keys →
  within (adds_services keys) (Reconcile_deployment req m rec).
Proof.
  intros Hk. unfold Reconcile_deployment.
  apply within_bind_ok; [apply _..| |intros d].
  { eapply within_adds_services_keeps; [apply keeps_EnsureDeploymentCreated|kinds]. }
  apply within_bind_ok; [apply _..| |intros [|]].
  { eapply within_adds_services_keeps; [apply keeps_UpdateDeployment|kinds]. }
  { apply within_ret; apply _. }
  apply within_bind_ok; [apply _..| |intros [|]]; cbn [negb].
  { eapply within_adds_services_keeps; [apply keeps_IsDeploymentReady|kinds]. }
  - by apply adds_services_service.
  - apply within_ret; apply _.
Qed.

Lemma adds_services_Reconcile req :
  within (adds_services [deployment_key req;
                         (req_Namespace req, ImageStoreStatefulSetName)])
    (Reconcile req).
Proof.
  set (keys := [deployment_key req; (req_Namespace req, ImageStoreStatefulSetName)]).
  assert (deployment_key req ∈ keys) as K1 by (apply list_elem_of_In; simpl; auto).
  assert ((req_Namespace req, ImageStoreStatefulSetName) ∈ keys) as K2
    by (apply list_elem_of_In; simpl; auto).
  assert (∀ m rec, within (adds_services keys) (Reconcile_store req m rec)) as Hstore.
  { intros m rec. unfold Reconcile_store. cbv zeta.
    apply within_bind_ok; [apply _..| |intros p].
    { eapply within_adds_services_keeps;
        [apply keeps_EnsureImageStorePVCCreated|kinds]. }
    apply within_bind_ok; [apply _..| |intros ss].
    { eapply within_adds_services_keeps;
        [apply keeps_EnsureImageStoreStatefulSetCreated|kinds]. }
    unfold Reconcile_storeReady.
    apply within_bind_ok; [apply _..| |intros [|]]; cbn [negb];
      [| |by apply within_ret; apply _].
    { eapply within_adds_services_keeps;
        [apply keeps_IsImageStoreStatefulSetReady|kinds]. }
    unfold Reconcile_storeService.
    apply within_bind_ok;
      [apply _..|by apply adds_services_EnsureImageStoreServiceCreated|intros s].
    apply within_bind_ok;
      [apply _..|apply adds_services_IsImageStoreServiceReady|intros [|]]; cbn [negb].
    - by apply adds_services_deployment.
    - apply within_ret; apply _. }
  unfold Reconcile. apply within_bind; [apply _..| |intros [m|e]].
  { eapply within_adds_services_keeps; [apply keeps_client_Get|kinds]. }
  - unfold Reconcile_fetched. cbv zeta.
    destruct (negb (IsAvailable m)); [|apply Hstore].
    apply within_bind_ok; [apply _..| |intros [|]].
    { eapply within_adds_services_keeps; [apply keeps_SetProgressing|kinds]. }
    + intros w. by apply adds_services_same.
    + apply Hstore.
  - destruct (IgnoreNotFound _); apply within_ret; apply _.
Qed.

(** X15.  A pass never changes or removes a service: it can only add one.
    Every service stored before [Reconcile] is stored unchanged after it, and
    the only names a service can appear under are the one derived from the
    Model's and the one of the image store.  The deployment and service stages
    (lines 117-169) add under the derived name at most. *)
Theorem pass_only_adds_services req :
  (∀ w k s, services w !! k = Some s → services (Reconcile req w).2 !! k = Some s)
  ∧ (∀ w k, k ≠ deployment_key req →
       k ≠ (req_Namespace req, ImageStoreStatefulSetName) →
       services (Reconcile req w).2 !! k = services w !! k)
  ∧ (∀ m rec w k s, services w !! k = Some s →
       services (Reconcile_deployment req m rec w).2 !! k = Some s)
  ∧ (∀ m rec w k, k ≠ deployment_key req →
       services (Reconcile_deployment req m rec w).2 !! k = services w !! k).
Proof.
  split; [|split; [|split]].
  - intros w k s Hs. destruct (adds_services_Reconcile req w) as [A _].
    by eapply lookup_weaken.
  - intros w k H1 H2. destruct (adds_services_Reconcile req w) as [_ B].
    apply B. intros Hin%list_elem_of_In. simpl in Hin. intuition.
  - intros m rec w k s Hs.
    destruct (adds_services_deployment [deployment_key req] req m rec
                ltac:(apply list_elem_of_In; simpl; auto) w) as [A _].
    by eapply lookup_weaken.
  - intros m rec w k Hk.
    destruct (adds_services_deployment [deployment_key req] req m rec
                ltac:(apply list_elem_of_In; simpl; auto) w) as [_ B].
    apply B. intros Hin%list_elem_of_In. simpl in Hin. intuition.
Qed.

(** ** Models *)

(** X16.  Of the Models, a pass writes the status of the requested one and
    nothing else.  With every Model stored under its own name, after
    [Reconcile] every Model under another name is as it was, and the requested
    Model, if there was one, is still there with the type, metadata and spec
    it had; no Model appears or goes away. *)
Theorem pass_writes_status_only req w :
  wf_models w →
  (∀ k, k ≠ NamespacedName req → models (Reconcile req w).2 !! k = models w !! k)
  ∧ (∀ m, models w !! NamespacedName req = Some m →
       ∃ s, models (Reconcile req w).2 !! NamespacedName req = Some (with_status s m))
  ∧ (models w !! NamespacedName req = None →
     models (Reconcile req w).2 !! NamespacedName req = None).
Proof.
  intros Hwf.
  assert (∀ w', models w' = models w →
    (∀ k, k ≠ NamespacedName req → models w' !! k = models w !! k)
    ∧ (∀ m, models w !! NamespacedName req = Some m →
         ∃ s, models w' !! NamespacedName req = Some (with_status s m))
    ∧ (models w !! NamespacedName req = None →
       models w' !! NamespacedName req = None)) as Hsame.
  { intros w' ->. split; [done|]. split; [|done].
    intros m Hm. exists (m_Status m). rewrite Hm. by destruct m. }
  unfold Reconcile. rewrite bind_run, client_Get_eq by done. cbn [fst snd].
  destruct (next_fault w).
  { by destruct (IgnoreNotFound _); apply Hsame. }
  destruct (models w !! NamespacedName req) as [m|] eqn:Hm; [|by apply Hsame].
  destruct (Reconcile_fetched_status req m (logged (call VGet KModel (NamespacedName req)) w))
    as [E|old s Ho Hw _]; [by apply Hsame|].
  rewrite (Hwf _ _ Hm) in Ho, Hw. cbn in Ho, Hw.
  assert (old = m) as -> by congruence.
  rewrite Hw. split; [|split].
  - intros k Hk. by rewrite lookup_insert_ne.
  - intros m' [= <-]. rewrite lookup_insert_eq. by exists s.
  - done.
Qed.

(** ** Where errors come from *)

Lemma unfailing_EnsureDeploymentCreated ns name image replicas model rec :
  unfailing (EnsureDeploymentCreated ns name image replicas model rec).
Proof.
  intros w Hf. rewrite EnsureDeploymentCreated_run. cbv zeta.
  rewrite !next_fault_calm by (repeat apply faults_logged; assumption).
  destruct (deployments w !! _); by eexists.
Qed.

Lemma unfailing_EnsureServiceCreated ns name d rec :
  unfailing (EnsureServiceCreated ns name d rec).
Proof.
  intros w Hf. rewrite EnsureServiceCreated_run. cbv zeta.
  rewrite !next_fault_calm by (repeat apply faults_logged; assumption).
  destruct (services w !! _); by eexists.
Qed.

Lemma unfailing_IsDeploymentReady ns name rec : unfailing (IsDeploymentReady ns name rec).
Proof.
  intros w Hf. rewrite IsDeploymentReady_run. cbv zeta. rewrite next_fault_calm by done.
  destruct (deployments w !! _); [case_bool_decide|]; by eexists.
Qed.

Lemma unfailing_IsServiceReady ns name rec : unfailing (IsServiceReady ns name rec).
Proof.
  intros w Hf. rewrite IsServiceReady_run. cbv zeta. rewrite next_fault_calm by done.
  destruct (services w !! _); [case_bool_decide|]; by eexists.
Qed.

Lemma unfailing_EnsureImageStoreStatefulSetCreated ns rec :
  unfailing (EnsureImageStoreStatefulSetCreated ns rec).
Proof.
  intros w Hf. unfold EnsureImageStoreStatefulSetCreated, bind, ret, Eventf.
  rewrite client_Get_eq by done. rewrite (next_fault_calm _ Hf). cbn [fst snd].
  destruct (statefulsets w !! (ns, ImageStoreStatefulSetName)) as [ss|] eqn:Hs;
    [by eexists|].
  cbn [IsNotFound]. rewrite client_Create_StatefulSet_eq.
  rewrite (next_fault_calm _ (faults_logged _ _ Hf)).
  unfold key_of. cbn [ss_meta Name Namespace statefulsets logged set_faults set_calls].
  rewrite Hs. by eexists.
Qed.

Lemma unfailing_EnsureImageStoreServiceCreated ns ss rec :
  unfailing (EnsureImageStoreServiceCreated ns ss rec).
Proof.
  intros w Hf. unfold EnsureImageStoreServiceCreated, bind, ret, Eventf.
  rewrite client_Get_eq by done. rewrite (next_fault_calm _ Hf). cbn [fst snd].
  destruct (services w !! (ns, ImageStoreStatefulSetName)) as [s|] eqn:Hs;
    [by eexists|].
  cbn [IsNotFound]. rewrite client_Create_Service_eq.
  rewrite (next_fault_calm _ (faults_logged _ _ Hf)).
  unfold key_of. cbn [s_meta Name Namespace services logged set_faults set_calls].
  rewrite Hs. by eexists.
Qed.

Lemma unfailing_IsImageStoreStatefulSetReady ns rec :
  unfailing (IsImageStoreStatefulSetReady ns rec).
Proof.
  intros w Hf. unfold IsImageStoreStatefulSetReady, bind, ret, Eventf.
  rewrite client_Get_eq by done. rewrite (next_fault_calm _ Hf). cbn [fst snd].
  destruct (statefulsets w !! _); [case_bool_decide|]; by eexists.
Qed.

Lemma unfailing_IsImageStoreServiceReady ns rec :
  unfailing (IsImageStoreServiceReady ns rec).
Proof.
  intros w Hf. unfold IsImageStoreServiceReady, bind, ret, Eventf.
  rewrite client_Get_eq by done. rewrite (next_fault_calm _ Hf). cbn [fst snd].
  destruct (services w !! _); [case_bool_decide|]; by eexists.
Qed.

Lemma client_Status_Update_calm m w :
  faults w = [] → is_Some (models w !! key_of (m_meta m)) →
  (client_Status_Update m w).1 = None.
Proof.
  intros Hf [old Ho]. generalize (client_Status_Update_spec m w).
  rewrite (next_fault_calm _ Hf), Ho. by intros [? _].
Qed.

Lemma UpdateDeployment_calm model rec w :
  faults w = [] → own_name (app_key model) (deployments w) →
  ∃ b, (UpdateDeployment model rec w).1 = Ok b.
Proof.
  intros Hf Ho. rewrite UpdateDeployment_run. cbv zeta. rewrite next_fault_calm by done.
  destruct (deployments w !! app_key model) as [d|] eqn:Hd; [|by eexists].
  case_bool_decide; [by eexists|].
  rewrite client_Update_Deployment_eq, next_fault_calm by (by apply faults_logged).
  cbn [set_dep_Replicas d_meta deployments logged set_faults set_calls].
  rewrite (Ho d Hd), Hd. by eexists.
Qed.

Lemma Reconcile_available_calm m rec w :
  faults w = [] → is_Some (models w !! key_of (m_meta m)) →
  ∃ r, (Reconcile_available m rec w).1 = Ok r.
Proof.
  intros Hf Hm. rewrite Reconcile_available_run. unfold set_condition.
  destruct (has_condition _ _); [by eexists|].
  pose proof (client_Status_Update_calm
                (set_Conditions [condition_at ModelAvailable (clock w)] m) w Hf Hm) as H.
  destruct (client_Status_Update _ w) as [[e|] w1]; [done|by eexists].
Qed.

Lemma Reconcile_counters_calm m rec d w :
  faults w = [] → is_Some (models w !! key_of (m_meta m)) →
  ∃ r, (Reconcile_counters m rec d w).1 = Ok r.
Proof.
  intros Hf Hm.
  destruct (ShouldSetReplicas m (dep_StatusReplicas (d_Status d))
              (dep_ReadyReplicas (d_Status d)) (dep_AvailableReplicas (d_Status d))
              (dep_UnavailableReplicas (d_Status d))) eqn:Hs.
  - rewrite (Reconcile_counters_differ _ _ _ _ Hs).
    pose proof (client_Status_Update_calm
                  (set_Counters (dep_StatusReplicas (d_Status d))
                     (dep_ReadyReplicas (d_Status d)) (dep_AvailableReplicas (d_Status d))
                     (dep_UnavailableReplicas (d_Status d)) m) w Hf Hm) as H.
    destruct (client_Status_Update _ w) as [[e|] w1]; [done|by eexists].
  - rewrite (Reconcile_counters_equal _ _ _ _ Hs). by apply Reconcile_available_calm.
Qed.

Lemma Reconcile_service_calm req m rec d w :
  faults w = [] → is_Some (models w !! key_of (m_meta m)) →
  ∃ r, (Reconcile_service req m rec d w).1 = Ok r.
Proof.
  intros Hf Hm. unfold Reconcile_service. rewrite bind_ok_run.
  pose proof (keeps_EnsureServiceCreated (req_Namespace req) (req_Name req) d rec w) as T1.
  destruct (unfailing_EnsureServiceCreated (req_Namespace req) (req_Name req) d rec w Hf)
    as [s E1].
  destruct (EnsureServiceCreated _ _ _ _ w) as [r1 w1]. cbn [fst snd] in *. subst r1.
  rewrite bind_ok_run.
  pose proof (keeps_IsServiceReady (req_Namespace req) (req_Name req) rec w1) as T2.
  destruct (unfailing_IsServiceReady (req_Namespace req) (req_Name req) rec w1
              (t_faults _ _ _ T1 Hf)) as [b E2].
  destruct (IsServiceReady _ _ _ w1) as [r2 w2]. cbn [fst snd] in *. subst r2.
  destruct b; cbn [negb]; [|by eexists].
  apply Reconcile_counters_calm.
  - by apply (t_faults _ _ _ T2), (t_faults _ _ _ T1).
  - rewrite (t_models _ _ _ T2), (t_models _ _ _ T1) by kinds. done.
Qed.

Lemma Reconcile_deployment_calm req m rec w :
  faults w = [] → is_Some (models w !! key_of (m_meta m)) →
  app_key m = deployment_key req →
  own_name (deployment_key req) (deployments w) →
  ∃ r, (Reconcile_deployment req m rec w).1 = Ok r.
Proof.
  intros Hf Hm Hk Ho. unfold Reconcile_deployment. rewrite bind_ok_run.
  pose proof (keeps_EnsureDeploymentCreated (req_Namespace req) (req_Name req)
                (Image (m_Spec m)) (spec_Replicas (m_Spec m)) m rec w) as T1.
  pose proof (resizes_EnsureDeploymentCreated (req_Namespace req) (req_Name req)
                (Image (m_Spec m)) (spec_Replicas (m_Spec m)) m rec w Ho) as [_ O1].
  destruct (unfailing_EnsureDeploymentCreated (req_Namespace req) (req_Name req)
              (Image (m_Spec m)) (spec_Replicas (m_Spec m)) m rec w Hf) as [d E1].
  destruct (EnsureDeploymentCreated _ _ _ _ _ _ w) as [r1 w1]. cbn [fst snd] in *.
  subst r1. rewrite bind_ok_run.
  pose proof (keeps_UpdateDeployment m rec w1) as T2.
  destruct (UpdateDeployment_calm m rec w1) as [b E2].
  { by apply (t_faults _ _ _ T1). }
  { by rewrite Hk. }
  destruct (UpdateDeployment m rec w1) as [r2 w2]. cbn [fst snd] in *. subst r2.
  destruct b; [by eexists|]. rewrite bind_ok_run.
  pose proof (keeps_IsDeploymentReady (req_Namespace req) (req_Name req) rec w2) as T3.
  destruct (unfailing_IsDeploymentReady (req_Namespace req) (req_Name req) rec w2)
    as [b E3].
  { by apply (t_faults _ _ _ T2), (t_faults _ _ _ T1). }
  destruct (IsDeploymentReady _ _ _ w2) as [r3 w3]. cbn [fst snd] in *. subst r3.
  destruct b; cbn [negb]; [|by eexists].
  apply Reconcile_service_calm.
  - by apply (t_faults _ _ _ T3), (t_faults _ _ _ T2), (t_faults _ _ _ T1).
  - rewrite (t_models _ _ _ T3), (t_models _ _ _ T2), (t_models _ _ _ T1) by kinds. done.
Qed.

Lemma Reconcile_store_calm req m rec w :
  faults w = [] → is_Some (models w !! key_of (m_meta m)) →
  app_key m = deployment_key req →
  own_name (deployment_key req) (deployments w) →
  ∃ r, (Reconcile_store req m rec w).1 = Ok r.
Proof.
  intros Hf Hm Hk Ho. unfold Reconcile_store. cbv zeta. rewrite bind_ok_run.
  pose proof (keeps_EnsureImageStorePVCCreated (req_Namespace req)
                (StorageClassName (m_Spec m)) (PersistentVolumeClaim (m_Spec m))
                (PersistentVolume (m_Spec m)) rec w) as T1.
  destruct (EnsureImageStorePVCCreated_calm (req_Namespace req)
              (StorageClassName (m_Spec m)) (PersistentVolumeClaim (m_Spec m))
              (PersistentVolume (m_Spec m)) rec w Hf) as [p E1].
  destruct (EnsureImageStorePVCCreated _ _ _ _ _ w) as [r1 w1]. cbn [fst snd] in *.
  subst r1. rewrite bind_ok_run.
  pose proof (keeps_EnsureImageStoreStatefulSetCreated (req_Namespace req) rec w1) as T2.
  destruct (unfailing_EnsureImageStoreStatefulSetCreated (req_Namespace req) rec w1)
    as [ss E2]; [by apply (t_faults _ _ _ T1)|].
  destruct (EnsureImageStoreStatefulSetCreated _ _ w1) as [r2 w2]. cbn [fst snd] in *.
  subst r2. unfold Reconcile_storeReady. rewrite bind_ok_run.
  pose proof (keeps_IsImageStoreStatefulSetReady (req_Namespace req) rec w2) as T3.
  destruct (unfailing_IsImageStoreStatefulSetReady (req_Namespace req) rec w2)
    as [b3 E3]; [by apply (t_faults _ _ _ T2), (t_faults _ _ _ T1)|].
  destruct (IsImageStoreStatefulSetReady _ _ w2) as [r3 w3]. cbn [fst snd] in *.
  subst r3. destruct b3; cbn [negb]; [|by eexists].
  unfold Reconcile_storeService. rewrite bind_ok_run.
  pose proof (keeps_EnsureImageStoreServiceCreated (req_Namespace req) ss rec w3) as T4.
  destruct (unfailing_EnsureImageStoreServiceCreated (req_Namespace req) ss rec w3)
    as [s E4];
    [by apply (t_faults _ _ _ T3), (t_faults _ _ _ T2), (t_faults _ _ _ T1)|].
  destruct (EnsureImageStoreServiceCreated _ _ _ w3) as [r4 w4]. cbn [fst snd] in *.
  subst r4. rewrite bind_ok_run.
  pose proof (keeps_IsImageStoreServiceReady (req_Namespace req) rec w4) as T5.
  destruct (unfailing_IsImageStoreServiceReady (req_Namespace req) rec w4)
    as [b5 E5];
    [by apply (t_faults _ _ _ T4), (t_faults _ _ _ T3), (t_faults _ _ _ T2),
       (t_faults _ _ _ T1)|].
  destruct (IsImageStoreServiceReady _ _ w4) as [r5 w5]. cbn [fst snd] in *.
  subst r5. destruct b5; cbn [negb]; [|by eexists].
  apply Reconcile_deployment_calm; [| |done|].
  - by apply (t_faults _ _ _ T5), (t_faults _ _ _ T4), (t_faults _ _ _ T3),
      (t_faults _ _ _ T2), (t_faults _ _ _ T1).
  - rewrite (t_models _ _ _ T5), (t_models _ _ _ T4), (t_models _ _ _ T3),
      (t_models _ _ _ T2), (t_models _ _ _ T1) by kinds. done.
  - rewrite (t_deployments _ _ _ T5), (t_deployments _ _ _ T4),
      (t_deployments _ _ _ T3), (t_deployments _ _ _ T2), (t_deployments _ _ _ T1)
      by kinds. done.
Qed.

(** X17.  Errors come from the client only.  On a cluster where every Model
    and the requested Model's deployment are stored under their own names, a
    pass in which no client call fails returns without error: the reconciler
    never asks for a create of something it has just read, nor for an update
    of something it has not. *)
Theorem pass_fails_only_with_the_client req w :
  faults w = [] →
  wf_models w →
  own_name (deployment_key req) (deployments w) →
  ∃ r, (Reconcile req w).1 = Ok r.
Proof.
  intros Hf Hwf Ho. unfold Reconcile. rewrite bind_run, client_Get_eq by done.
  cbn [fst snd]. rewrite (next_fault_calm _ Hf).
  destruct (models w !! NamespacedName req) as [m|] eqn:Hm; [|by eexists].
  set (w0 := logged (call VGet KModel (NamespacedName req)) w).
  assert (faults w0 = []) as Hf0 by (by apply faults_logged).
  assert (is_Some (models w0 !! key_of (m_meta m))) as Hm0.
  { rewrite (Hwf _ _ Hm). by exists m. }
  pose proof (wf_models_app_key req w m Hwf Hm) as Hk.
  destruct (IsAvailable m) eqn:Ha.
  { rewrite Reconcile_fetched_marked by auto. by apply Reconcile_store_calm. }
  destruct (IsProgressing m) eqn:Hp.
  { rewrite Reconcile_fetched_marked by auto. by apply Reconcile_store_calm. }
  rewrite (Reconcile_fetched_fresh _ _ _ Ha Hp).
  pose proof (client_Status_Update_calm
                (set_Conditions [condition_at ModelProgressing (clock w0)] m) w0 Hf0 Hm0)
    as H.
  destruct (client_Status_Update _ w0) as [[e|] w1]; [done|by eexists].
Qed.

(** ** The pass that creates *)

Lemma Reconcile_service_creates req m rec d w :
  services w !! deployment_key req = None →
  requeues (Reconcile_service req m rec d w).1
  ∧ models (Reconcile_service req m rec d w).2 = models w
  ∧ avail_events (Reconcile_service req m rec d w).2 = avail_events w
  ∧ (faults w = [] →
     (Reconcile_service req m rec d w).1 = Ok (requeue_after (Second * 5))
     ∧ services (Reconcile_service req m rec d w).2
       = <[deployment_key req := service_for (req_Namespace req) (req_Name req) d]>
           (services w)).
Proof.
  intros Hs. unfold Reconcile_service. rewrite bind_ok_run, EnsureServiceCreated_run.
  cbv zeta. fold (deployment_key req). rewrite Hs.
  destruct (next_fault w) as [e|] eqn:Hf.
  { split; [done|]. split; [done|]. split; [done|].
    intros Hc. by rewrite (next_fault_calm _ Hc) in Hf. }
  destruct (next_fault (logged _ w)) as [e|] eqn:Hf1.
  { split; [done|]. split; [done|]. split; [done|].
    intros Hc. by rewrite (next_fault_calm _ (faults_logged _ _ Hc)) in Hf1. }
  rewrite bind_ok_run, IsServiceReady_run. cbv zeta. fold (deployment_key req).
  cbn [services set_events set_services]. rewrite lookup_insert_eq.
  rewrite bool_decide_eq_true_2 by done.
  destruct (next_fault (set_events _ _)) as [e|] eqn:Hf2.
  { split; [done|]. split; [done|]. split; [done|].
    intros Hc. exfalso. revert Hf2. unfold next_fault. cbn. by rewrite Hc. }
  cbn [negb]. split; [done|]. split; [done|]. split; [done|]. by intros _.
Qed.

Lemma deployment_for_ready ns name image model :
  is_int32 (replicas_of model) →
  deployment_ready (deployment_for ns name image (spec_Replicas (m_Spec model)) model)
  ↔ replicas_of model = 0.
Proof.
  intros Hi. unfold deployment_ready.
  rewrite (deployment_for_in_sync ns name image model). cbn.
  rewrite int32_of_int_id by done. split; by intros ->.
Qed.

Lemma Reconcile_deployment_creates req m rec w :
  deployments w !! deployment_key req = None →
  app_key m = deployment_key req →
  is_int32 (replicas_of m) →
  replicas_of m ≠ 0 →
  requeues (Reconcile_deployment req m rec w).1
  ∧ models (Reconcile_deployment req m rec w).2 = models w
  ∧ services (Reconcile_deployment req m rec w).2 = services w
  ∧ avail_events (Reconcile_deployment req m rec w).2 = avail_events w.
Proof.
  intros Hd Hk Hi Hz. unfold Reconcile_deployment.
  rewrite bind_ok_run, EnsureDeploymentCreated_run. cbv zeta.
  fold (deployment_key req). rewrite Hd.
  destruct (next_fault w); [done|].
  destruct (next_fault (logged _ w)); [done|].
  rewrite bind_ok_run, UpdateDeployment_run. cbv zeta. rewrite Hk.
  cbn [deployments set_events set_deployments]. rewrite lookup_insert_eq.
  rewrite bool_decide_eq_true_2 by apply deployment_for_in_sync.
  destruct (next_fault (set_events _ _)); [done|].
  rewrite bind_ok_run, IsDeploymentReady_run. cbv zeta. fold (deployment_key req).
  cbn [deployments logged set_faults set_calls set_events set_deployments].
  rewrite lookup_insert_eq.
  rewrite bool_decide_eq_false_2 by (by rewrite deployment_for_ready).
  destruct (next_fault (logged _ (set_events _ _))); done.
Qed.

(** X18.  The pass that creates a resource stops there.  A pass that has to
    create the service finds it without cluster address and ends in a requeue
    (or in an error of the client): it writes no status and sends no
    availability notification.  The same holds for the pass that has to
    create the deployment, as long as the Model declares a replica count other
    than zero: the new deployment has no ready replica yet. *)
Theorem creating_pass_waits req m rec :
  (∀ d w,
     services w !! deployment_key req = None →
     requeues (Reconcile_service req m rec d w).1
     ∧ models (Reconcile_service req m rec d w).2 = models w
     ∧ avail_events (Reconcile_service req m rec d w).2 = avail_events w
     ∧ (faults w = [] →
        (Reconcile_service req m rec d w).1 = Ok (requeue_after (Second * 5))
        ∧ services (Reconcile_service req m rec d w).2
          = <[deployment_key req := service_for (req_Namespace req) (req_Name req) d]>
              (services w)))
  ∧ (∀ w,
       deployments w !! deployment_key req = None →
       app_key m = deployment_key req →
       is_int32 (replicas_of m) →
       replicas_of m ≠ 0 →
       requeues (Reconcile_deployment req m rec w).1
       ∧ models (Reconcile_deployment req m rec w).2 = models w
       ∧ services (Reconcile_deployment req m rec w).2 = services w
       ∧ avail_events (Reconcile_deployment req m rec w).2 = avail_events w).
Proof.
  split.
  - intros d w. apply Reconcile_service_creates.
  - intros w. apply Reconcile_deployment_creates.
Qed.

(** ** From ready to Available *)

Lemma in_place_status req m d w w' s :
  in_place req m d w →
  faults w' = [] →
  pvcs w' = pvcs w →
  statefulsets w' = statefulsets w →
  deployments w' = deployments w →
  services w' = services w →
  models w' = <[NamespacedName req := with_status s m]> (models w) →
  in_place req (with_status s m) d w'.
Proof.
  intros [] Hf Hp Hss Hd Hsv Hm. constructor; try done.
  - intros k x. rewrite Hm. destruct (decide (k = NamespacedName req)) as [->|Hne].
    + rewrite lookup_insert_eq. intros [= <-]. exact (ip_wf0 _ _ ip_model0).
    + rewrite lookup_insert_ne by done. apply ip_wf0.
  - by rewrite Hm, lookup_insert_eq.
  - by rewrite Hp.
  - unfold statefulset_ready in *. by rewrite Hss.
  - unfold store_service_ready in *. by rewrite Hsv.
  - by rewrite Hd.
  - by rewrite Hsv.
Qed.

Lemma status_written_in_place req m d w w1 m2 :
  in_place req m d w →
  faults w1 = [] →
  models w1 = models w →
  pvcs w1 = pvcs w →
  statefulsets w1 = statefulsets w →
  deployments w1 = deployments w →
  services w1 = services w →
  key_of (m_meta m2) = key_of (m_meta m) →
  (client_Status_Update m2 w1).1 = None
  ∧ ∀ x, in_place req (with_status (m_Status m2) m) d
           (set_events x (client_Status_Update m2 w1).2).
Proof.
  intros Hip Hf Hm Hp Hss Hd Hsv Hk.
  pose proof (ip_wf _ _ _ _ Hip _ _ (ip_model _ _ _ _ Hip)) as Hkey.
  pose proof (keeps_client_Status_Update m2 w1) as T.
  generalize (client_Status_Update_spec m2 w1).
  rewrite (next_fault_calm w1) by done.
  rewrite Hk, Hkey, Hm, (ip_model _ _ _ _ Hip). intros [H1 H2].
  split; [done|]. intros x.
  eapply in_place_status; [exact Hip|..]; cbn [faults pvcs statefulsets deployments
                                               services models set_events].
  - by apply (t_faults _ _ _ T).
  - by rewrite (t_pvcs _ _ _ T) by kinds.
  - by rewrite (t_statefulsets _ _ _ T) by kinds.
  - by rewrite (t_deployments _ _ _ T) by kinds.
  - by rewrite (t_services _ _ _ T) by kinds.
  - done.
Qed.

Lemma in_place_fresh req m d w :
  in_place req m d w →
  IsAvailable m = false →
  IsProgressing m = false →
  ∃ s, in_place req (with_status s m) d (Reconcile req w).2
     ∧ IsProgressing (with_status s m) = true
     ∧ counters (with_status s m) = counters m.
Proof.
  intros Hip Ha Hp.
  unfold Reconcile. rewrite bind_run, client_Get_eq by done. cbn [fst snd].
  rewrite (next_fault_calm _ (ip_faults _ _ _ _ Hip)), (ip_model _ _ _ _ Hip).
  rewrite (Reconcile_fetched_fresh _ _ _ Ha Hp).
  set (w0 := logged (call VGet KModel (NamespacedName req)) w).
  destruct (status_written_in_place req m d w w0
              (set_Conditions [condition_at ModelProgressing (clock w0)] m) Hip)
    as (H1 & Hin); try done.
  { apply faults_logged, Hip. }
  destruct (client_Status_Update _ w0) as [[e|] w1]; [done|]. cbn [fst snd] in *.
  eexists. split; [apply Hin|]. split; [|reflexivity].
  unfold IsProgressing. cbn. by rewrite has_condition_singleton.
Qed.

Lemma Reconcile_deployment_in_place req m rec w d s :
  faults w = [] →
  app_key m = deployment_key req →
  deployments w !! deployment_key req = Some d →
  in_sync m d →
  deployment_ready d →
  services w !! deployment_key req = Some s →
  ClusterIP (s_Spec s) ≠ "" →
  Reconcile_deployment req m rec w
  = Reconcile_counters m rec d
      (logged (call VGet KService (deployment_key req))
         (logged (call VGet KService (deployment_key req))
            (logged (call VGet KDeployment (deployment_key req))
               (logged (call VGet KDeployment (deployment_key req))
                  (logged (call VGet KDeployment (deployment_key req)) w))))).
Proof.
  intros Hf Hk Hd Hsync Hready Hs Hip.
  unfold Reconcile_deployment. rewrite bind_ok_run.
  rewrite (EnsureDeploymentCreated_found _ _ _ _ _ _ _ d); [|calm|exact Hd].
  rewrite bind_ok_run, (UpdateDeployment_in_sync _ _ _ d); [|calm|by rewrite Hk|done].
  rewrite Hk. rewrite bind_ok_run, IsDeploymentReady_run. cbv zeta.
  rewrite next_fault_calm by (repeat apply faults_logged; assumption).
  change (deployments (logged ?a (logged ?b w))) with (deployments w).
  fold (deployment_key req). rewrite Hd, bool_decide_eq_true_2 by done.
  cbn [negb]. unfold Reconcile_service. rewrite bind_ok_run.
  rewrite (EnsureServiceCreated_found _ _ _ _ _ s); [|calm|exact Hs].
  rewrite bind_ok_run, IsServiceReady_run. cbv zeta.
  rewrite next_fault_calm by (repeat apply faults_logged; assumption).
  change (services (logged ?a (logged ?b (logged ?c (logged ?e w))))) with (services w).
  fold (deployment_key req). rewrite Hs, bool_decide_eq_false_2 by done.
  reflexivity.
Qed.

Lemma in_place_path req m d w :
  in_place req m d w →
  IsAvailable m = true ∨ IsProgressing m = true →
  ∃ w1, Reconcile req w = Reconcile_counters m (NewWrappedRecorder m) d w1
      ∧ faults w1 = []
      ∧ models w1 = models w
      ∧ pvcs w1 = pvcs w
      ∧ statefulsets w1 = statefulsets w
      ∧ deployments w1 = deployments w
      ∧ services w1 = services w
      ∧ events w1 = events w.
Proof.
  intros Hip Hc. destruct (ip_claim _ _ _ _ Hip) as [p Hp].
  destruct (ip_service _ _ _ _ Hip) as (s & Hs & Haddr).
  rewrite (Reconcile_settled_path req w m p); try apply Hip; try done.
  rewrite (Reconcile_deployment_in_place req m _ _ d s); try apply Hip; try done.
  - eexists. split; [reflexivity|]. split; [|done].
    repeat apply faults_logged. apply Hip.
  - repeat apply faults_logged. apply Hip.
  - eapply wf_models_app_key; apply Hip.
Qed.

Lemma in_place_counters req m d w :
  in_place req m d w →
  IsAvailable m = true ∨ IsProgressing m = true →
  counters m ≠ observed d →
  (Reconcile req w).1 = Ok (requeue_after (Second * 5))
  ∧ ∃ s, in_place req (with_status s m) d (Reconcile req w).2
       ∧ Conditions s = Conditions (m_Status m)
       ∧ counters (with_status s m) = observed d.
Proof.
  intros Hip Hc Hne.
  destruct (in_place_path req m d w Hip Hc)
    as (w1 & -> & Hf & Hm & Hp & Hss & Hd & Hsv & _).
  rewrite Reconcile_counters_differ.
  2:{ destruct (ShouldSetReplicas _ _ _ _ _) eqn:E; [done|].
      by apply ShouldSetReplicas_observed in E. }
  destruct (status_written_in_place req m d w w1
              (set_Counters (dep_StatusReplicas (d_Status d))
                 (dep_ReadyReplicas (d_Status d)) (dep_AvailableReplicas (d_Status d))
                 (dep_UnavailableReplicas (d_Status d)) m) Hip)
    as (H1 & Hin); try done.
  specialize (Hin (events (client_Status_Update
                             (set_Counters (dep_StatusReplicas (d_Status d))
                                (dep_ReadyReplicas (d_Status d))
                                (dep_AvailableReplicas (d_Status d))
                                (dep_UnavailableReplicas (d_Status d)) m) w1).2)).
  destruct (client_Status_Update _ w1) as [[e|] w2]; [done|]. cbn [fst snd] in *.
  split; [done|].
  exists (m_Status (set_Counters (dep_StatusReplicas (d_Status d))
                      (dep_ReadyReplicas (d_Status d)) (dep_AvailableReplicas (d_Status d))
                      (dep_UnavailableReplicas (d_Status d)) m)).
  split; [|split; [reflexivity|reflexivity]].
  by destruct w2.
Qed.

Lemma in_place_available req m d w :
  in_place req m d w →
  IsAvailable m = true ∨ IsProgressing m = true →
  counters m = observed d →
  finished (Reconcile req w).1
  ∧ ∃ m', models (Reconcile req w).2 !! NamespacedName req = Some m'
        ∧ IsAvailable m' = true
        ∧ counters m' = observed d.
Proof.
  intros Hip Hc He.
  pose proof (ip_wf _ _ _ _ Hip _ _ (ip_model _ _ _ _ Hip)) as Hkey.
  destruct (in_place_path req m d w Hip Hc)
    as (w1 & -> & Hf & Hm & Hp & Hss & Hd & Hsv & _).
  rewrite Reconcile_counters_equal by (by apply ShouldSetReplicas_observed).
  assert (models w1 !! key_of (m_meta m) = Some m) as Hstored.
  { rewrite Hm, Hkey. apply Hip. }
  assert (finished (Reconcile_available m (NewWrappedRecorder m) w1).1) as Hfin.
  { destruct (Reconcile_available_calm m (NewWrappedRecorder m) w1 Hf) as [r Hr];
      [by eexists|].
    exists r. split; [done|].
    destruct (yields_available _ _ _ _ Hr) as [->| ->]; [done|].
    revert Hr. rewrite Reconcile_available_run.
    by destruct (set_condition ModelAvailable m w1) as [[b|e] w2]. }
  split; [done|].
  destruct (Reconcile_available_finished m _ w1 Hfin Hstored) as (m' & Hm' & Ha & Hc' & _).
  exists m'. rewrite Hkey in Hm'. split; [done|]. split; [done|]. congruence.
Qed.

(** X19.  Once the cluster is ready, the Model is marked Available within
    three passes.  With the claim, the image store and both services in place
    and ready, the deployment declaring what the Model asks for and having it
    ready, and no call failing, whatever the status of the stored Model: at
    most one pass marks it Progressing, at most one brings its counters to
    those of the deployment, and the next returns done, leaving the Model
    marked Available with the counters the deployment reports. *)
Theorem ready_cluster_settles req m d w :
  in_place req m d w →
  ∃ n, (n ≤ 2)%nat
     ∧ finished (Reconcile req (passes req n w)).1
     ∧ ∃ m', models (passes req (S n) w) !! NamespacedName req = Some m'
           ∧ IsAvailable m' = true
           ∧ counters m' = observed d.
Proof.
  intros Hip.
  assert (∀ m w, in_place req m d w →
            IsAvailable m = true ∨ IsProgressing m = true →
            ∃ n, (n ≤ 1)%nat
               ∧ finished (Reconcile req (passes req n w)).1
               ∧ ∃ m', models (passes req (S n) w) !! NamespacedName req = Some m'
                     ∧ IsAvailable m' = true
                     ∧ counters m' = observed d) as Hmarked.
  { clear. intros m w Hip Hc.
    destruct (decide (counters m = observed d)) as [He|Hne].
    - exists 0%nat. split; [lia|]. by eapply in_place_available.
    - destruct (in_place_counters req m d w Hip Hc Hne) as (_ & s & Hip' & Hcs & He).
      exists 1%nat. split; [lia|].
      apply (in_place_available req (with_status s m) d (Reconcile req w).2); try done.
      unfold IsAvailable, IsProgressing in *. cbn. by rewrite Hcs. }
  destruct (IsAvailable m) eqn:Ha.
  { destruct (Hmarked m w Hip) as (n & Hn & H); [auto|]. exists n. split; [lia|done]. }
  destruct (IsProgressing m) eqn:Hp.
  { destruct (Hmarked m w Hip) as (n & Hn & H); [auto|]. exists n. split; [lia|done]. }
  destruct (in_place_fresh req m d w Hip Ha Hp) as (s & Hip' & Hp' & _).
  destruct (Hmarked _ _ Hip') as (n & Hn & H); [auto|].
  exists (S n). split; [lia|].
  assert (∀ k, passes req (S k) w = passes req k (Reconcile req w).2) as E.
  { intros k. unfold passes. by rewrite Nat.iter_succ_r. }
  by rewrite !E.
Qed.

(** ** The theorems at work *)

Lemma ex_own_name m ready replicas :
  own_name (deployment_key ex_req) (deployments (ex_world m ready replicas)).
Proof.
  intros d. unfold ex_world. cbn [deployments].
  change (deployment_key ex_req) with ("default", ModelAppName "phi").
  rewrite lookup_singleton_eq. by intros [= <-].
Qed.

Lemma UpdateDeployment_writes_only_on_drift_witness :
  calls (UpdateDeployment (ex_model [condition_at ModelAvailable 7] 1) ex_rec ex_drifted).2
  = call VUpdate KDeployment (key_of (d_meta (ex_deployment 1)))
    :: call VGet KDeployment (app_key (ex_model [condition_at ModelAvailable 7] 1))
    :: calls ex_drifted.
Proof.
  destruct (UpdateDeployment_writes_only_on_drift
              (ex_model [condition_at ModelAvailable 7] 1) ex_rec ex_drifted) as [_ H].
  - vm_compute. reflexivity.
  - destruct (H (ex_deployment 1)) as (_ & _ & H3 & _).
    + vm_compute. reflexivity.
    + apply H3. vm_compute. discriminate.
Defined.

Lemma UpdateDeployment_settles_witness :
  let m := ex_model [condition_at ModelAvailable 7] 1 in
  (UpdateDeployment m ex_rec (UpdateDeployment m ex_rec ex_drifted).2).1 ≠ Ok true
  ∧ deployments (UpdateDeployment m ex_rec (UpdateDeployment m ex_rec ex_drifted).2).2
    = deployments (UpdateDeployment m ex_rec ex_drifted).2.
Proof.
  cbv zeta.
  destruct (UpdateDeployment_settles (ex_model [condition_at ModelAvailable 7] 1)
              ex_rec ex_drifted) as (_ & H2 & H3 & _).
  - vm_compute. reflexivity.
  - apply (ex_own_name (ex_model [condition_at ModelAvailable 7] 1) 1 1).
  - vm_compute. split; [discriminate|reflexivity].
  - split; [exact H2|exact H3].
Defined.

Lemma created_deployment_is_in_sync_witness :
  let d := deployment_for "default" "phi" "phi" (Some 2) (ex_model [] 0) in
  in_sync (ex_model [] 0) d
  ∧ dep_MatchLabels (d_Spec d) = tpl_Labels (dep_Template (d_Spec d)).
Proof.
  cbv zeta.
  destruct (created_deployment_is_in_sync "default" "phi" "phi" (ex_model [] 0) ex_rec
              ex_fresh (deployment_for "default" "phi" "phi" (Some 2) (ex_model [] 0)))
    as (_ & _ & H3 & H4 & _).
  - vm_compute. reflexivity.
  - vm_compute. reflexivity.
  - split; [exact H3|exact H4].
Defined.

Lemma created_service_fronts_deployment_witness :
  let d := deployment_for "default" "phi" "phi" (Some 2) (ex_model [] 0) in
  let s := service_for "default" "phi" d in
  key_of (s_meta s) = key_of (d_meta d)
  ∧ svc_Selector (s_Spec s) = tpl_Labels (dep_Template (d_Spec d)).
Proof.
  cbv zeta.
  destruct (created_service_fronts_deployment "default" "phi" "phi" (Some 2)
              (ex_model [] 0) ex_rec ex_fresh ex_fresh
              (deployment_for "default" "phi" "phi" (Some 2) (ex_model [] 0))
              (service_for "default" "phi"
                 (deployment_for "default" "phi" "phi" (Some 2) (ex_model [] 0))))
    as (H1 & H2 & _).
  - vm_compute. reflexivity.
  - vm_compute. reflexivity.
  - vm_compute. reflexivity.
  - vm_compute. reflexivity.
  - split; [exact H1|exact H2].
Defined.

Lemma failed_ensure_leaves_no_trace_witness :
  deployments (EnsureDeploymentCreated "default" "phi" "phi" (Some 2) (ex_model [] 0)
                 ex_rec ex_failing).2 = deployments ex_failing
  ∧ events (EnsureDeploymentCreated "default" "phi" "phi" (Some 2) (ex_model [] 0)
              ex_rec ex_failing).2 = events ex_failing.
Proof.
  destruct (proj1 failed_ensure_leaves_no_trace "default" "phi" "phi" (Some 2)
              (ex_model [] 0) ex_rec ex_failing (ErrOther "connection refused"))
    as (H1 & H2 & _).
  - vm_compute. reflexivity.
  - split; [exact H1|exact H2].
Defined.

Lemma setters_skip_what_is_set_witness :
  SetAvailable (ex_model [condition_at ModelAvailable 7] 2) ex_settled
  = (Ok false, ex_settled).
Proof.
  destruct (setters_skip_what_is_set (ex_model [condition_at ModelAvailable 7] 2)
              ex_settled) as (_ & _ & _ & _ & H & _).
  apply H. vm_compute. reflexivity.
Defined.

Lemma SetReplicas_settles_witness :
  ∃ old m',
    models ex_fresh !! key_of (m_meta (ex_model [] 0)) = Some old
    ∧ models (SetReplicas (ex_model [] 0) 2 2 2 0 ex_fresh).2
        !! key_of (m_meta (ex_model [] 0)) = Some m'
    ∧ ShouldSetReplicas m' 2 2 2 0 = false
    ∧ Conditions (m_Status m') = Conditions (m_Status (ex_model [] 0))
    ∧ m_meta m' = m_meta old
    ∧ m_Spec m' = m_Spec old
    ∧ (∀ key, key ≠ key_of (m_meta (ex_model [] 0)) →
         models (SetReplicas (ex_model [] 0) 2 2 2 0 ex_fresh).2 !! key
         = models ex_fresh !! key).
Proof.
  apply (SetReplicas_settles (ex_model [] 0) 2 2 2 0 ex_fresh).
  vm_compute. reflexivity.
Defined.

Lemma finished_pass_means_ready_witness :
  let w := ex_world (ex_model [condition_at ModelProgressing 7] 2) 1 2 in
  models w !! NamespacedName ex_req = None
  ∨ ∃ m' d s,
      models (Reconcile ex_req w).2 !! NamespacedName ex_req = Some m'
      ∧ IsAvailable m' = true
      ∧ deployments (Reconcile ex_req w).2 !! deployment_key ex_req = Some d
      ∧ in_sync m' d
      ∧ deployment_ready d
      ∧ counters m' = observed d
      ∧ services (Reconcile ex_req w).2 !! deployment_key ex_req = Some s
      ∧ ClusterIP (s_Spec s) ≠ "".
Proof.
  cbv zeta.
  apply (finished_pass_means_ready ex_req
           (ex_world (ex_model [condition_at ModelProgressing 7] 2) 1 2)).
  - apply ex_world_wf. reflexivity.
  - exists Result_zero. split; [vm_compute; reflexivity|reflexivity].
Defined.

Lemma requeue_delays_witness :
  ∃ m, calls (Reconcile ex_req ex_fresh).2
       = status_write m :: call VGet KModel (NamespacedName ex_req) :: calls ex_fresh
     ∧ events (Reconcile ex_req ex_fresh).2
       = ModelProgressingEvent (NewWrappedRecorder m) :: events ex_fresh.
Proof.
  destruct (requeue_delays ex_req ex_fresh (requeue_after (Second * 1))) as (_ & _ & H).
  - vm_compute. reflexivity.
  - apply H. reflexivity.
Defined.

Lemma settled_pass_only_reads_witness :
  (Reconcile ex_req ex_settled).1 = Ok Result_zero
  ∧ models (Reconcile ex_req ex_settled).2 = models ex_settled
  ∧ events (Reconcile ex_req ex_settled).2
    = ModelAvailableEvent
        (NewWrappedRecorder (ex_model [condition_at ModelAvailable 7] 2))
      :: events ex_settled.
Proof.
  destruct (settled_pass_only_reads ex_req ex_settled
              (ex_model [condition_at ModelAvailable 7] 2) ex_claim (ex_deployment 2)
              (ex_service (ModelAppName "phi") "10.0.0.2"))
    as (H1 & H2 & _ & _ & _ & _ & _ & H8).
  - reflexivity.
  - apply (ex_world_wf (ex_model [condition_at ModelAvailable 7] 2) 1 2). reflexivity.
  - vm_compute. reflexivity.
  - vm_compute. reflexivity.
  - vm_compute. reflexivity.
  - vm_compute. reflexivity.
  - vm_compute. reflexivity.
  - vm_compute. reflexivity.
  - vm_compute. reflexivity.
  - vm_compute. reflexivity.
  - vm_compute. reflexivity.
  - vm_compute. discriminate.
  - vm_compute. reflexivity.
  - split; [exact H1|]. split; [exact H2|exact H8].
Defined.

Lemma pass_resizes_its_own_deployment_only_witness :
  ∃ r, deployments (Reconcile ex_req ex_drifted).2 !! deployment_key ex_req
       = Some (set_dep_Replicas r (ex_deployment 1)).
Proof.
  destruct (pass_resizes_its_own_deployment_only ex_req ex_drifted) as (_ & _ & H & _).
  - apply (ex_world_wf (ex_model [condition_at ModelAvailable 7] 1) 1 1). reflexivity.
  - apply (ex_own_name (ex_model [condition_at ModelAvailable 7] 1) 1 1).
  - apply H. vm_compute. reflexivity.
Defined.

Lemma pass_writes_status_only_witness :
  ∃ s, models (Reconcile ex_req ex_fresh).2 !! NamespacedName ex_req
       = Some (with_status s (ex_model [] 0)).
Proof.
  destruct (pass_writes_status_only ex_req ex_fresh) as (_ & H & _).
  - intros key x. unfold ex_fresh. cbn [models].
    by intros [<- <-]%lookup_singleton_Some.
  - apply H. vm_compute. reflexivity.
Defined.

Lemma pass_fails_only_with_the_client_witness :
  ∃ r, (Reconcile ex_req ex_drifted).1 = Ok r.
Proof.
  apply (pass_fails_only_with_the_client ex_req ex_drifted).
  - reflexivity.
  - apply (ex_world_wf (ex_model [condition_at ModelAvailable 7] 1) 1 1). reflexivity.
  - apply (ex_own_name (ex_model [condition_at ModelAvailable 7] 1) 1 1).
Defined.

Lemma creating_pass_waits_witness :
  (Reconcile_service ex_req (ex_model [] 0) ex_rec (ex_deployment 2) ex_fresh).1
  = Ok (requeue_after (Second * 5))
  ∧ requeues (Reconcile_deployment ex_req (ex_model [] 0) ex_rec ex_fresh).1.
Proof.
  destruct (creating_pass_waits ex_req (ex_model [] 0) ex_rec) as [Hs Hd]. split.
  - destruct (Hs (ex_deployment 2) ex_fresh) as (_ & _ & _ & H).
    + vm_compute. reflexivity.
    + apply H. reflexivity.
  - destruct (Hd ex_fresh) as (H & _).
    + vm_compute. reflexivity.
    + reflexivity.
    + vm_compute. split; [discriminate|reflexivity].
    + vm_compute. discriminate.
    + exact H.
Defined.

Lemma ex_ready_in_place m :
  key_of (m_meta m) = ("default", "phi") →
  spec_Replicas (m_Spec m) = Some 2 →
  in_place ex_req m (ex_deployment 2) (ex_ready m).
Proof.
  intros Hk Hr. constructor.
  - reflexivity.
  - exact (ex_world_wf m 1 2 Hk).
  - reflexivity.
  - by eexists.
  - vm_compute. reflexivity.
  - vm_compute. reflexivity.
  - reflexivity.
  - unfold in_sync, replicas_of. by rewrite Hr.
  - vm_compute. reflexivity.
  - eexists. split; [reflexivity|]. vm_compute. discriminate.
Qed.

Lemma ready_cluster_settles_witness :
  ∃ n, (n ≤ 2)%nat
     ∧ finished (Reconcile ex_req (passes ex_req n (ex_ready (ex_model [] 0)))).1
     ∧ ∃ m', models (passes ex_req (S n) (ex_ready (ex_model [] 0)))
               !! NamespacedName ex_req = Some m'
           ∧ IsAvailable m' = true
           ∧ counters m' = observed (ex_deployment 2).
Proof.
  apply (ready_cluster_settles ex_req (ex_model [] 0) (ex_deployment 2)).
  apply ex_ready_in_place; reflexivity.
Defined.

Lemma get_reads_back_witness :
  (getDeployment "default" "phi"
     (EnsureDeploymentCreated "default" "phi" "phi" (Some 2) (ex_model [] 0) ex_rec
        ex_fresh).2).1
  = Ok (Some (deployment_for "default" "phi" "phi" (Some 2) (ex_model [] 0))).
Proof.
  destruct (get_reads_back "default" "phi" ex_fresh) as (_ & _ & H & _).
  apply (H "phi" (Some 2) (ex_model [] 0) ex_rec).
  - vm_compute. reflexivity.
  - vm_compute. reflexivity.
Defined.
